(** * MyPythonShell: the command-line interpretation and execution pipeline

    A shallow embedding of [MyPythonShell.py]: the tokenizer, the pipeline
    splitter, the redirection resolver and the executor, over an explicit
    model of the interpreter state the program mutates ([sys.stdin],
    [sys.stdout], [sys.stderr], the objects returned by [open] and
    [tempfile.TemporaryFile], the processes started with [subprocess]).

    A Python [str] is modelled as a [string] whose characters are code points
    below 256; a Python exception is a value of [raised] threaded next to the
    state. *)

From Stdlib Require Import String Ascii List Bool Arith ZArith Lia.
Import ListNotations.
Open Scope string_scope.
Open Scope list_scope.

(** ** Characters and strings *)

Definition dquote : ascii := "034"%char.
Definition squote : ascii := "039"%char.
Definition backslash : ascii := "092"%char.
Definition newline : ascii := "010"%char.

(** [s] followed by a newline, as [print] and [f.write(s + newline)] emit it. *)
Definition line_of (s : string) : string := s ++ String newline EmptyString.

(** [s + ch] for a one-character [ch]. *)
Definition snoc (s : string) (ch : ascii) : string := s ++ String ch EmptyString.

(** Truth value of a [str] and of a [list]: non-empty. *)
Definition truthy (s : string) : bool :=
  match s with EmptyString => false | String _ _ => true end.

Definition nonempty {A} (l : list A) : bool :=
  match l with [] => false | _ :: _ => true end.

(** [str.isspace] on one character, for code points below 256: TAB..CR,
    FS..US, SPACE, NEL and NBSP. *)
Definition isspace (c : ascii) : bool :=
  let n := nat_of_ascii c in
  (((9 <=? n) && (n <=? 13)) || ((28 <=? n) && (n <=? 32))
   || (n =? 133) || (n =? 160))%nat.

(** [x in l] for a list of strings. *)
Definition mem (x : string) (l : list string) : bool := existsb (String.eqb x) l.

(** [sep.join(l)]. *)
Fixpoint join (sep : string) (l : list string) : string :=
  match l with
  | [] => EmptyString
  | [x] => x
  | x :: rest => x ++ sep ++ join sep rest
  end.

Fixpoint lstrip (s : string) : string :=
  match s with
  | String c rest => if isspace c then lstrip rest else s
  | EmptyString => EmptyString
  end.

Fixpoint rstrip (s : string) : string :=
  match s with
  | EmptyString => EmptyString
  | String c rest =>
      match rstrip rest with
      | EmptyString => if isspace c then EmptyString else String c EmptyString
      | r => String c r
      end
  end.

(** [s.strip()]. *)
Definition strip (s : string) : string := rstrip (lstrip s).

(** ** 2. Command Parser *)

Module CommandParser.

(** The characters a backslash escapes inside double quotes: the double
    quote, the backslash, the dollar sign, the backtick and the newline. *)
Definition dq_escapable (nxt : ascii) : bool :=
  Ascii.eqb nxt dquote || Ascii.eqb nxt backslash || Ascii.eqb nxt "$"%char
  || Ascii.eqb nxt "`"%char || Ascii.eqb nxt newline.

(** The [while i < n] loop of [tokenize]; [line] is [line[i:]].  The two
    branches that advance [i] by two recurse on the tail of the tail. *)
Fixpoint tokenize_loop (line : string) (in_single in_double : bool)
    (args : list string) (cur : string) : list string :=
  match line with
  | EmptyString => if truthy cur then args ++ [cur] else args
  | String ch rest =>
      if in_single then
        if Ascii.eqb ch squote
        then tokenize_loop rest false in_double args cur
        else tokenize_loop rest in_single in_double args (snoc cur ch)
      else if in_double then
        if Ascii.eqb ch dquote
        then tokenize_loop rest in_single false args cur
        else if Ascii.eqb ch backslash then
          match rest with
          | String nxt rest' =>
              if dq_escapable nxt
              then tokenize_loop rest' in_single in_double args (snoc cur nxt)
              else tokenize_loop rest in_single in_double args (snoc cur ch)
          | EmptyString => tokenize_loop rest in_single in_double args (snoc cur ch)
          end
        else tokenize_loop rest in_single in_double args (snoc cur ch)
      else if Ascii.eqb ch squote then tokenize_loop rest true in_double args cur
      else if Ascii.eqb ch dquote then tokenize_loop rest in_single true args cur
      else if Ascii.eqb ch backslash then
        match rest with
        | String nxt rest' => tokenize_loop rest' in_single in_double args (snoc cur nxt)
        | EmptyString => tokenize_loop rest in_single in_double args cur
        end
      else if isspace ch then
        if truthy cur
        then tokenize_loop rest in_single in_double (args ++ [cur]) EmptyString
        else tokenize_loop rest in_single in_double args cur
      else tokenize_loop rest in_single in_double args (snoc cur ch)
  end.

Definition tokenize (line : string) : list string :=
  tokenize_loop line false false [] EmptyString.

(** The [for token in tokens] loop of [split_pipeline]. *)
Fixpoint split_loop (tokens : list string) (commands : list (list string))
    (current_cmd : list string) : list (list string) :=
  match tokens with
  | [] => if nonempty current_cmd then commands ++ [current_cmd] else commands
  | token :: rest =>
      if String.eqb token "|"
      then split_loop rest
             (if nonempty current_cmd then commands ++ [current_cmd] else commands) []
      else split_loop rest commands (current_cmd ++ [token])
  end.

(** [None] is Python's [None]. *)
Definition split_pipeline (tokens : list string) : option (list (list string)) :=
  if negb (mem "|" tokens) then None else Some (split_loop tokens [] []).

End CommandParser.

(** ** Interpreter state *)

(** The three console streams the interpreter starts with. *)
Inductive std := Stdin | Stdout | Stderr.

(** A stream object: a console stream, the [h]-th object created by [open]
    or [tempfile.TemporaryFile], or [proc.stdout] of the [p]-th process
    started with [subprocess.Popen]. *)
Inductive stream :=
| Console (d : std)
| Handle (h : nat)
| ProcStdout (p : nat).

(** An exception in flight.  [Exception] stands for every subclass of
    Python's [Exception] and carries [str(e)]; [SystemExit] and
    [KeyboardInterrupt] derive from [BaseException] only. *)
Inductive raised :=
| Exception (msg : string)
| SystemExit (code : Z)
| KeyboardInterrupt.

(** An object created by [open(path, mode)] ([f_name = Some path]) or by
    [tempfile.TemporaryFile(mode='w+')] ([f_name = None]).  [f_data] is the
    text written through the object, [f_pos] its position. *)
Record file_obj := {
  f_name : option string;
  f_mode : string;
  f_data : string;
  f_pos : nat;
  f_closed : bool
}.

(** The channel a built-in writes to: [print(...)] goes to [sys.stdout],
    [print_error(...)] to [sys.stderr]. *)
Inductive chan := Out | Err.

(** The [stdin=], [stdout=] and [stderr=] arguments of [subprocess]:
    [None] (inherit), a stream object, or [subprocess.PIPE]. *)
Inductive target := Inherit | To (s : stream) | PIPE.

Definition target_of (o : option stream) : target :=
  match o with Some s => To s | None => Inherit end.

(** What the shell dispatched, oldest first: a built-in invocation with the
    streams bound at that moment, the text it could read from [sys.stdin]
    when that is a buffer, and the writes it made; or a process. *)
Inductive call :=
| BuiltinCall (name : string) (args : list string)
    (c_stdin c_stdout c_stderr : stream) (input : option string)
    (wrote : list (chan * string))
| Popen (args : list string) (executable : string)
    (p_stdin p_stdout p_stderr : target) (input : option string)
| Wait (p : nat)
| Run (args : list string) (executable : string) (p_stdout p_stderr : target).

(** ** The operating system

    What the program asks of its environment.  [open_fails path mode] and
    [popen_fails args exe] give [str(e)] of the exception when [open] or
    [subprocess] raises; [tempfile_fails k] gives [str(e)] of the [OSError]
    when the call of [tempfile.TemporaryFile] made after [k] objects were
    created raises, so that every call of a run has an answer of its own. *)
Class Env := {
  HISTFILE : option string;
  PATH : list string;
  win32 : bool;
  open_fails : string -> string -> option string;
  popen_fails : list string -> string -> option string;
  tempfile_fails : nat -> option string;
  os_path_isabs : string -> bool;
  os_path_dirname : string -> string;
  os_path_join : string -> string -> string;
  os_path_isfile : string -> bool;
  os_access_X_OK : string -> bool
}.

(** ** 1. History Manager *)

Module HistoryManager.

Record t := { history : list string; written_count : nat }.

Definition add (line : string) (hm : t) : t :=
  if truthy line
  then {| history := history hm ++ [line]; written_count := written_count hm |}
  else hm.

(** [save]: the lines not yet written, each followed by a newline, appended
    to the file named by [HISTFILE]; the result pairs the manager with the
    text appended to disk.  A failure to open the file is swallowed. *)
Definition save `{Env} (hm : t) : t * list (string * string) :=
  match HISTFILE with
  | None => (hm, [])
  | Some path =>
      if negb (truthy path) then (hm, []) else
      match open_fails path "a" with
      | Some _ => (hm, [])
      | None =>
          ({| history := history hm; written_count := List.length (history hm) |},
           [(path, String.concat EmptyString
                     (map line_of
                        (skipn (written_count hm) (history hm))))])
      end
  end.

End HistoryManager.

(** ** The state of the interpreter

    The bindings of the three default streams; the objects created so far by
    [open] and [tempfile.TemporaryFile], a [Handle h] naming the [h]-th; the
    text written to the console streams, oldest first; the text appended to
    files on disk by [HistoryManager], as (path, text); the commands
    dispatched; the number of processes started; the history manager of the
    shell. *)
Record world := {
  sys_stdin : stream;
  sys_stdout : stream;
  sys_stderr : stream;
  objects : list file_obj;
  console : list (std * string);
  appended : list (string * string);
  calls : list call;
  nprocs : nat;
  history_manager : HistoryManager.t
}.

Definition set_stdin (s : stream) (w : world) : world :=
  {| sys_stdin := s; sys_stdout := sys_stdout w; sys_stderr := sys_stderr w;
     objects := objects w; console := console w; appended := appended w;
     calls := calls w; nprocs := nprocs w; history_manager := history_manager w |}.

Definition set_stdout (s : stream) (w : world) : world :=
  {| sys_stdin := sys_stdin w; sys_stdout := s; sys_stderr := sys_stderr w;
     objects := objects w; console := console w; appended := appended w;
     calls := calls w; nprocs := nprocs w; history_manager := history_manager w |}.

Definition set_stderr (s : stream) (w : world) : world :=
  {| sys_stdin := sys_stdin w; sys_stdout := sys_stdout w; sys_stderr := s;
     objects := objects w; console := console w; appended := appended w;
     calls := calls w; nprocs := nprocs w; history_manager := history_manager w |}.

Definition set_objects (o : list file_obj) (w : world) : world :=
  {| sys_stdin := sys_stdin w; sys_stdout := sys_stdout w; sys_stderr := sys_stderr w;
     objects := o; console := console w; appended := appended w;
     calls := calls w; nprocs := nprocs w; history_manager := history_manager w |}.

Definition set_console (c : list (std * string)) (w : world) : world :=
  {| sys_stdin := sys_stdin w; sys_stdout := sys_stdout w; sys_stderr := sys_stderr w;
     objects := objects w; console := c; appended := appended w;
     calls := calls w; nprocs := nprocs w; history_manager := history_manager w |}.

Definition set_appended (a : list (string * string)) (w : world) : world :=
  {| sys_stdin := sys_stdin w; sys_stdout := sys_stdout w; sys_stderr := sys_stderr w;
     objects := objects w; console := console w; appended := a;
     calls := calls w; nprocs := nprocs w; history_manager := history_manager w |}.

Definition set_history (h : HistoryManager.t) (w : world) : world :=
  {| sys_stdin := sys_stdin w; sys_stdout := sys_stdout w; sys_stderr := sys_stderr w;
     objects := objects w; console := console w; appended := appended w;
     calls := calls w; nprocs := nprocs w; history_manager := h |}.

Definition log_call (c : call) (w : world) : world :=
  {| sys_stdin := sys_stdin w; sys_stdout := sys_stdout w; sys_stderr := sys_stderr w;
     objects := objects w; console := console w; appended := appended w;
     calls := calls w ++ [c];
     nprocs := match c with Popen _ _ _ _ _ _ => S (nprocs w) | _ => nprocs w end;
     history_manager := history_manager w |}.

(** The interpreter at the prompt, before any command. *)
Definition initial_world : world :=
  {| sys_stdin := Console Stdin; sys_stdout := Console Stdout;
     sys_stderr := Console Stderr; objects := []; console := []; appended := [];
     calls := []; nprocs := 0;
     history_manager := {| HistoryManager.history := []; HistoryManager.written_count := 0 |} |}.

(** What a built-in does, as the program sees it: its writes to [sys.stdout]
    and [sys.stderr] in order, the text it appends to files on disk, the
    history it leaves and the exception it ends with, if any.  No built-in of
    the program assigns [sys.stdin], [sys.stdout] or [sys.stderr]. *)
Record effect := {
  e_writes : list (chan * string);
  e_appended : list (string * string);
  e_history : HistoryManager.t;
  e_raised : option raised
}.

(** A built-in: from its arguments, the text readable on [sys.stdin] (when
    that is a buffer) and the history, to its effect. *)
Definition builtin := list string -> option string -> HistoryManager.t -> effect.

(** The built-ins whose work is done by the operating system ([pwd], [cd],
    [history], [search], [ls], [cat], [grep], [wc]): any behaviour. *)
Class OsBuiltins := { os_builtin : string -> builtin }.

(** ** Constants and utilities *)

Definition SPACE : string := " ".
Definition RED : string := String "027"%char "[31m".
Definition RESET : string := String "027"%char "[0m".

Fixpoint update_nth {A} (n : nat) (f : A -> A) (l : list A) : list A :=
  match l, n with
  | [], _ => []
  | x :: r, O => f x :: r
  | x :: r, S n' => x :: update_nth n' f r
  end.

(** [s.write(text)].  A console stream records the text; an open object
    appends it to its data (the program writes an object only before it
    rewinds it, so the position is always the end).  A closed or missing
    object and the read end of a pipe are never bound to an output stream by
    the program; the model leaves the state unchanged there. *)
Definition write (s : stream) (text : string) (w : world) : world :=
  match s with
  | Console d => set_console (console w ++ [(d, text)]) w
  | Handle h =>
      set_objects
        (update_nth h (fun o =>
           if f_closed o then o else
           {| f_name := f_name o; f_mode := f_mode o; f_data := f_data o ++ text;
              f_pos := String.length (f_data o ++ text); f_closed := false |})
           (objects w)) w
  | ProcStdout _ => w
  end.

(** [print(s)], to the stream [sys.stdout] is bound to at the call. *)
Definition print (s : string) (w : world) : world :=
  write (sys_stdout w) (line_of s) w.

(** [print_error(message)] with [file=None]: the message in red, as a line,
    on the stream [sys.stderr] is bound to at the call. *)
Definition error_text (message : string) : string :=
  line_of (RED ++ message ++ RESET).

Definition print_error (message : string) (w : world) : world :=
  write (sys_stderr w) (error_text message) w.

(** [open(path, mode)]: a new object, or the exception's text. *)
Definition open `{Env} (path mode : string) (w : world) : world * (stream + string) :=
  match open_fails path mode with
  | Some msg => (w, inr msg)
  | None =>
      (set_objects (objects w ++
         [{| f_name := Some path; f_mode := mode; f_data := EmptyString;
             f_pos := 0; f_closed := false |}]) w,
       inl (Handle (List.length (objects w))))
  end.

(** [tempfile.TemporaryFile(mode='w+')]: a new object without a name, or the
    text of the [OSError] the call raises. *)
Definition TemporaryFile `{Env} (w : world) : world * (stream + string) :=
  match tempfile_fails (List.length (objects w)) with
  | Some msg => (w, inr msg)
  | None =>
      (set_objects (objects w ++
         [{| f_name := None; f_mode := "w+"; f_data := EmptyString;
             f_pos := 0; f_closed := false |}]) w,
       inl (Handle (List.length (objects w))))
  end.

(** [f.seek(0)]. *)
Definition seek0 (s : stream) (w : world) : world :=
  match s with
  | Handle h =>
      set_objects
        (update_nth h (fun o =>
           {| f_name := f_name o; f_mode := f_mode o; f_data := f_data o;
              f_pos := 0; f_closed := f_closed o |}) (objects w)) w
  | _ => w
  end.

(** [f.close()]; closing twice is allowed. *)
Definition close (s : stream) (w : world) : world :=
  match s with
  | Handle h =>
      set_objects
        (update_nth h (fun o =>
           {| f_name := f_name o; f_mode := f_mode o; f_data := f_data o;
              f_pos := f_pos o; f_closed := true |}) (objects w)) w
  | _ => w
  end.

Fixpoint drop (n : nat) (s : string) : string :=
  match n, s with
  | O, _ => s
  | S n', String _ r => drop n' r
  | S _, EmptyString => EmptyString
  end.

(** The text [s.read()] returns when [s] is an open buffer: its data from the
    current position.  What a console or a pipe delivers is not known to the
    program. *)
Definition readable (s : stream) (w : world) : option string :=
  match s with
  | Handle h =>
      match nth_error (objects w) h with
      | Some o => if f_closed o then None else Some (drop (f_pos o) (f_data o))
      | None => None
      end
  | _ => None
  end.

(** ** 3. Builtin Handler *)

Module BuiltinHandler.

Definition is_digit (c : ascii) : bool :=
  let n := nat_of_ascii c in ((48 <=? n) && (n <=? 57))%nat.

Definition digit_value (c : ascii) : Z := Z.of_nat (nat_of_ascii c - 48).

(** The digits of a decimal literal, single underscores allowed between
    digits. *)
Fixpoint int_digits (acc : Z) (after_digit : bool) (s : string) : option Z :=
  match s with
  | EmptyString => if after_digit then Some acc else None
  | String c rest =>
      if Ascii.eqb c "_"%char
      then if after_digit then int_digits acc false rest else None
      else if is_digit c then int_digits (10 * acc + digit_value c) true rest
      else None
  end.

(** [int(s)] on a [str] of code points below 128: surrounding whitespace, an
    optional sign, decimal digits.  [None] is [ValueError]. *)
Definition py_int (s : string) : option Z :=
  match strip s with
  | String c rest =>
      if Ascii.eqb c "-"%char then option_map Z.opp (int_digits 0 false rest)
      else if Ascii.eqb c "+"%char then int_digits 0 false rest
      else int_digits 0 false (String c rest)
  | EmptyString => None
  end.

(** [try: body / except: handler], the bare [except] clause: it catches
    every exception, [SystemExit] and [KeyboardInterrupt] included. *)
Definition try_except_bare (body handler : option raised) : option raised :=
  match body with
  | None => None
  | Some _ => handler
  end.

(** [try: body / except Exception: handler]. *)
Definition try_except_Exception (body : option raised)
    (handler : string -> option raised) : option raised :=
  match body with
  | Some (Exception msg) => handler msg
  | other => other
  end.

Definition sys_exit (code : Z) : option raised := Some (SystemExit code).

Definition cmd_exit `{Env} : builtin := fun args _ hm =>
  let '(hm', persisted) := HistoryManager.save hm in
  {| e_writes := [];
     e_appended := persisted;
     e_history := hm';
     e_raised :=
       match args with
       | [] => sys_exit 0
       | a :: _ =>
           try_except_bare
             (match py_int a with
              | Some code => sys_exit code
              | None => Some (Exception "invalid literal for int() with base 10")
              end)
             (sys_exit 0)
       end |}.

(** [s.replace(old, new)] for a two-character [old = a b] and a
    one-character [new]. *)
Fixpoint replace2 (a b new : ascii) (s : string) : string :=
  match s with
  | EmptyString => EmptyString
  | String x t =>
      match t with
      | String y r =>
          if Ascii.eqb x a && Ascii.eqb y b
          then String new (replace2 a b new r)
          else String x (replace2 a b new t)
      | EmptyString => s
      end
  end.

Definition cmd_echo : builtin := fun args _ hm =>
  let interpret_escapes :=
    match args with a :: _ => String.eqb a "-e" | [] => false end in
  let args := if interpret_escapes then tl args else args in
  let output := join SPACE args in
  let output :=
    if interpret_escapes
    then replace2 backslash backslash backslash
           (replace2 backslash "t" "009"
              (replace2 backslash "n" newline output))
    else output in
  {| e_writes := [(Out, line_of output)];
     e_appended := []; e_history := hm; e_raised := None |}.

(** The keys of [registry], in the order of the source. *)
Definition builtin_names : list string :=
  ["exit"; "echo"; "pwd"; "cd"; "type"; "history"; "search"; "ls"; "cat";
   "grep"; "wc"].

Definition is_builtin (name : string) : bool := mem name builtin_names.

(** The [for d in path.split(os.pathsep)] loop of [cmd_type]. *)
Fixpoint type_lookup `{Env} (name : string) (dirs : list string) : list (chan * string) :=
  match dirs with
  | [] => [(Err, error_text (name ++ ": not found"))]
  | d :: rest =>
      let full := os_path_join d name in
      if os_path_isfile full && os_access_X_OK full
      then [(Out, line_of (name ++ " is " ++ full))]
      else if win32 && os_path_isfile (full ++ ".exe")
      then [(Out, line_of (name ++ " is " ++ full ++ ".exe"))]
      else type_lookup name rest
  end.

Definition cmd_type `{Env} : builtin := fun args _ hm =>
  {| e_writes :=
       match args with
       | [] => [(Err, error_text "type: missing argument")]
       | name :: _ =>
           if is_builtin name
           then [(Out, line_of (name ++ " is a shell builtin"))]
           else type_lookup name PATH
       end;
     e_appended := []; e_history := hm; e_raised := None |}.

Definition registry `{Env} `{OsBuiltins} : list (string * builtin) :=
  [("exit", cmd_exit); ("echo", cmd_echo); ("pwd", os_builtin "pwd");
   ("cd", os_builtin "cd"); ("type", cmd_type);
   ("history", os_builtin "history"); ("search", os_builtin "search");
   ("ls", os_builtin "ls"); ("cat", os_builtin "cat");
   ("grep", os_builtin "grep"); ("wc", os_builtin "wc")].

Fixpoint lookup {A} (name : string) (l : list (string * A)) : option A :=
  match l with
  | [] => None
  | (k, v) :: rest => if String.eqb name k then Some v else lookup name rest
  end.

(** The writes of a built-in, each on the stream its channel is bound to. *)
Fixpoint perform (ws : list (chan * string)) (w : world) : world :=
  match ws with
  | [] => w
  | (Out, text) :: rest => perform rest (write (sys_stdout w) text w)
  | (Err, text) :: rest => perform rest (write (sys_stderr w) text w)
  end.

(** [execute(name, args)]: the built-in runs against the streams bound at
    the call; the exception it ends with, if any, is returned next to the
    state. *)
Definition execute `{Env} `{OsBuiltins} (name : string) (args : list string)
    (w : world) : world * option raised :=
  match lookup name registry with
  | Some f =>
      let input := readable (sys_stdin w) w in
      let eff := f args input (history_manager w) in
      let w := log_call (BuiltinCall name args (sys_stdin w) (sys_stdout w)
                           (sys_stderr w) input (e_writes eff)) w in
      let w := perform (e_writes eff) w in
      let w := set_appended (appended w ++ e_appended eff) w in
      (set_history (e_history eff) w, e_raised eff)
  | None => (w, None)
  end.

End BuiltinHandler.

(** ** 4. Executor *)

Module Executor.

Import BuiltinHandler.

(** The [for d in path_env.split(os.pathsep)] loop of [find_executable]. *)
Fixpoint find_in_path `{Env} (name : string) (dirs : list string) : option string :=
  match dirs with
  | [] => None
  | d :: rest =>
      let full := os_path_join d name in
      if os_path_isfile full then Some full
      else if win32 && os_path_isfile (full ++ ".exe") then Some (full ++ ".exe")%string
      else find_in_path name rest
  end.

Definition find_executable `{Env} (name : string) : option string :=
  if (os_path_isabs name || truthy (os_path_dirname name)) && os_path_isfile name
  then Some name
  else find_in_path name PATH.

(** [l.index(x)], for [x in l]. *)
Fixpoint index (x : string) (l : list string) : nat :=
  match l with
  | [] => 0
  | y :: rest => if String.eqb y x then 0 else S (index x rest)
  end.

(** [sub in s] on strings. *)
Fixpoint contains (sub s : string) : bool :=
  String.prefix sub s
  || match s with String _ rest => contains sub rest | EmptyString => false end.

(** [del l[i:j]]. *)
Definition del_slice {A} (i j : nat) (l : list A) : list A := firstn i l ++ skipn j l.

(** One [for op in (...)] loop of [parse_redirections]: the first operator of
    [ops] that occurs in the tokens decides, at its leftmost occurrence; the
    loop ends there ([break]) whether or not a path follows it.  [inr] is the
    text of the exception [open] raised. *)
Fixpoint redirect_loop `{Env} (ops : list string) (clean_tokens : list string)
    (w : world) : world * (list string * option stream + string) :=
  match ops with
  | [] => (w, inl (clean_tokens, None))
  | op :: ops' =>
      if mem op clean_tokens then
        let idx := index op clean_tokens in
        if (idx + 1 <? List.length clean_tokens)%nat then
          let mode := if contains ">>" op then "a" else "w" in
          match open (nth (idx + 1) clean_tokens EmptyString) mode w with
          | (w', inl f) => (w', inl (del_slice idx (idx + 2) clean_tokens, Some f))
          | (w', inr msg) => (w', inr msg)
          end
        else (w, inl (clean_tokens, None))
      else redirect_loop ops' clean_tokens w
  end.

Definition stderr_ops : list string := ["2>>"; "2>"].
Definition stdout_ops : list string := ["1>>"; ">>"; "1>"; ">"].

(** The five values [parse_redirections] returns. *)
Record redirections := {
  clean_tokens : list string;
  stdout_dest : option stream;
  stderr_dest : option stream;
  file_out : option stream;
  file_err : option stream
}.

(** [None] is the tuple of five [None] returned after an exception. *)
Definition parse_redirections `{Env} (tokens : list string) (w : world)
    : world * option redirections :=
  match redirect_loop stderr_ops tokens w with
  | (w1, inr msg) => (print_error ("Redirection error: " ++ msg) w1, None)
  | (w1, inl (clean1, f_err)) =>
      match redirect_loop stdout_ops clean1 w1 with
      | (w2, inr msg) => (print_error ("Redirection error: " ++ msg) w2, None)
      | (w2, inl (clean2, f_out)) =>
          (w2, Some {| clean_tokens := clean2; stdout_dest := f_out;
                       stderr_dest := f_err; file_out := f_out; file_err := f_err |})
      end
  end.

Definition rebind (set : stream -> world -> world) (o : option stream) (w : world) : world :=
  match o with Some s => set s w | None => w end.

Definition close_opt (o : option stream) (w : world) : world :=
  match o with Some s => close s w | None => w end.

(** [subprocess.run(tokens, executable=exe, stdout=..., stderr=...)] inside
    [try / except Exception]. *)
Definition subprocess_run `{Env} (tokens : list string) (exe : string)
    (stdout stderr : option stream) (w : world) : world :=
  match popen_fails tokens exe with
  | Some msg => print_error ("Execution error: " ++ msg) w
  | None => log_call (Run tokens exe (target_of stdout) (target_of stderr)) w
  end.

(** The result pairs the state with the exception that leaves the function,
    if any. *)
Definition run_single_command `{Env} `{OsBuiltins} (tokens : list string) (w : world)
    : world * option raised :=
  if negb (nonempty tokens) then (w, None) else
  match parse_redirections tokens w with
  | (w, None) => (w, None)
  | (w, Some r) =>
      match clean_tokens r with
      | [] => (w, Some (Exception "list index out of range"))
      | cmd :: args =>
          let '(w, leaving) :=
            if is_builtin cmd then
              let old_out := sys_stdout w in
              let old_err := sys_stderr w in
              (* try *)
              let w := rebind set_stdout (stdout_dest r) w in
              let w := rebind set_stderr (stderr_dest r) w in
              let '(w, e) := execute cmd args w in
              (* except Exception as e *)
              let '(w, e) :=
                match e with
                | Some (Exception msg) => (print_error ("Error: " ++ msg) w, None)
                | other => (w, other)
                end in
              (* finally *)
              (set_stderr old_err (set_stdout old_out w), e)
            else
              match find_executable cmd with
              | Some exe =>
                  if truthy exe
                  then (subprocess_run (clean_tokens r) exe (stdout_dest r) (stderr_dest r) w, None)
                  else (print_error (cmd ++ ": command not found") w, None)
              | None => (print_error (cmd ++ ": command not found") w, None)
              end in
          match leaving with
          | Some e => (w, Some e)
          | None => (close_opt (file_err r) (close_opt (file_out r) w), None)
          end
      end
  end.

(** The variables of [run_pipeline] that live across iterations. *)
Record pipe_state := { prev_stdin : option stream; to_close : list stream }.

(** How an iteration of the [for i, cmd_tokens in enumerate(commands)] loop
    ends. *)
Inductive flow := Next | Break | Raise (e : raised).

Definition push (o : option stream) (l : list stream) : list stream :=
  match o with Some s => l ++ [s] | None => l end.

(** One iteration, for stage [i] of [n]. *)
Definition stage `{Env} `{OsBuiltins} (n i : nat) (cmd_tokens : list string)
    (ps : pipe_state) (w : world) : world * pipe_state * flow :=
  let is_last := (i =? n - 1)%nat in
  match parse_redirections cmd_tokens w with
  | (w, None) => (w, ps, Break)
  | (w, Some r) =>
      match clean_tokens r with
      | [] => (w, ps, Break)
      | cmd_name :: args =>
          let to_close := push (file_err r) (push (file_out r) (to_close ps)) in
          let current_stdout := if is_last then target_of (stdout_dest r) else PIPE in
          if is_builtin cmd_name then
            let old_stdin := sys_stdin w in
            let w := rebind set_stdin (prev_stdin ps) w in
            let old_stdout := sys_stdout w in
            (* The buffer is allocated here, before the try: an OSError of
               tempfile.TemporaryFile leaves the function at this point. *)
            match (if negb is_last
                   then match TemporaryFile w with
                        | (w, inl t) => inl (set_stdout t w, Some t)
                        | (w, inr msg) => inr (w, msg)
                        end
                   else inl (rebind set_stdout (stdout_dest r) w, None)) with
            | inr (w, msg) =>
                (w, {| prev_stdin := prev_stdin ps; to_close := to_close |},
                 Raise (Exception msg))
            | inl (w, temp_out) =>
                (* try *)
                let '(w, e) := execute cmd_name args w in
                (* except Exception as e *)
                let '(w, e) :=
                  match e with
                  | Some (Exception msg) => (print_error ("Pipeline error: " ++ msg) w, None)
                  | other => (w, other)
                  end in
                (* finally *)
                let w := set_stdin old_stdin (set_stdout old_stdout w) in
                match e with
                | Some e => (w, {| prev_stdin := prev_stdin ps; to_close := to_close |}, Raise e)
                | None =>
                    match temp_out with
                    | Some t =>
                        (seek0 t w, {| prev_stdin := Some t; to_close := to_close ++ [t] |}, Next)
                    | None => (w, {| prev_stdin := None; to_close := to_close |}, Next)
                    end
                end
            end
          else
            let not_found :=
              (print_error (cmd_name ++ ": command not found") w,
               {| prev_stdin := prev_stdin ps; to_close := to_close |}, Break) in
            match find_executable cmd_name with
            | None => not_found
            | Some exe =>
                if negb (truthy exe) then not_found else
                match popen_fails (clean_tokens r) exe with
                | Some msg =>
                    (print_error ("Pipeline error: " ++ msg) w,
                     {| prev_stdin := prev_stdin ps; to_close := to_close |}, Break)
                | None =>
                    let proc := nprocs w in
                    let input :=
                      match prev_stdin ps with Some s => readable s w | None => None end in
                    let w := log_call (Popen (clean_tokens r) exe (target_of (prev_stdin ps))
                                         current_stdout (target_of (stderr_dest r)) input) w in
                    if negb is_last
                    then (w, {| prev_stdin := Some (ProcStdout proc); to_close := to_close |}, Next)
                    else (log_call (Wait proc) w,
                          {| prev_stdin := prev_stdin ps; to_close := to_close |}, Next)
                end
            end
      end
  end.

(** The loop over [enumerate(commands)], from index [i]. *)
Fixpoint stages `{Env} `{OsBuiltins} (n i : nat) (commands : list (list string))
    (ps : pipe_state) (w : world) : world * pipe_state * option raised :=
  match commands with
  | [] => (w, ps, None)
  | cmd_tokens :: rest =>
      match stage n i cmd_tokens ps w with
      | (w, ps, Next) => stages n (S i) rest ps w
      | (w, ps, Break) => (w, ps, None)
      | (w, ps, Raise e) => (w, ps, Some e)
      end
  end.

(** The cleanup loop: [for f in to_close: f.close()]. *)
Definition close_all (l : list stream) (w : world) : world :=
  fold_left (fun w f => close f w) l w.

Definition run_pipeline `{Env} `{OsBuiltins} (commands : list (list string)) (w : world)
    : world * option raised :=
  if negb (nonempty commands) then (w, None) else
  match stages (List.length commands) 0 commands
          {| prev_stdin := None; to_close := [] |} w with
  | (w, ps, None) => (close_all (to_close ps) w, None)
  | (w, ps, Some e) => (w, Some e)
  end.

End Executor.

(** ** 6. Main Shell Controller *)

Module Shell.

Import CommandParser Executor.

Definition process_line `{Env} `{OsBuiltins} (line : string) (w : world)
    : world * option raised :=
  if negb (truthy (strip line)) then (w, None) else
  let tokens := tokenize (strip line) in
  match split_pipeline tokens with
  | Some (c :: cs) => run_pipeline (c :: cs) w
  | _ => run_single_command tokens w
  end.

End Shell.

Import CommandParser BuiltinHandler Executor Shell.

(** ** A sample system

    A POSIX machine whose only executable is [/bin/sort], on which the path
    [/no/such] cannot be opened, temporary files can always be created and
    the operating-system built-ins print nothing; used to run the model on
    sample command lines. *)

Definition sample_env : Env := {|
  HISTFILE := Some ".history";
  PATH := ["/bin"];
  win32 := false;
  open_fails := fun path _ =>
    if String.eqb path "/no/such"
    then Some "[Errno 2] No such file or directory: '/no/such'" else None;
  popen_fails := fun _ _ => None;
  tempfile_fails := fun _ => None;
  os_path_isabs := String.prefix "/";
  os_path_dirname := fun s => if contains "/" s then "." else EmptyString;
  os_path_join := fun d n => (d ++ "/" ++ n)%string;
  os_path_isfile := fun path => String.eqb path "/bin/sort";
  os_access_X_OK := fun _ => true
|}.

Definition sample_builtins : OsBuiltins := {|
  os_builtin := fun _ _ _ hm =>
    {| e_writes := []; e_appended := []; e_history := hm; e_raised := None |}
|}.

(** The same machine when it runs out of file descriptors once an object
    has been created: the first temporary file of a run is created, a later
    one is not. *)
Definition crowded_env : Env := {|
  HISTFILE := @HISTFILE sample_env;
  PATH := @PATH sample_env;
  win32 := @win32 sample_env;
  open_fails := @open_fails sample_env;
  popen_fails := @popen_fails sample_env;
  tempfile_fails := fun k =>
    if (1 <=? k)%nat then Some "[Errno 24] Too many open files: '/tmp'" else None;
  os_path_isabs := @os_path_isabs sample_env;
  os_path_dirname := @os_path_dirname sample_env;
  os_path_join := @os_path_join sample_env;
  os_path_isfile := @os_path_isfile sample_env;
  os_access_X_OK := @os_access_X_OK sample_env
|}.

(** ** Vocabulary of the properties *)

Fixpoint all_chars (p : ascii -> bool) (s : string) : bool :=
  match s with
  | EmptyString => true
  | String c rest => p c && all_chars p rest
  end.

(** A line without quote characters, and one without backslashes. *)
Definition quote_free (line : string) : bool :=
  all_chars (fun c => negb (Ascii.eqb c squote || Ascii.eqb c dquote)) line.

Definition backslash_free (line : string) : bool :=
  all_chars (fun c => negb (Ascii.eqb c backslash)) line.

(** A character that is copied to the current token as it is: no separator,
    no quote, no backslash. *)
Definition word_char (c : ascii) : bool :=
  negb (isspace c) && negb (Ascii.eqb c squote) && negb (Ascii.eqb c dquote)
  && negb (Ascii.eqb c backslash).

Definition word (t : string) : Prop := truthy t = true /\ all_chars word_char t = true.

(** The number of pipe characters of a line that stand outside single and
    double quotes and are not escaped by a backslash. *)
Fixpoint unquoted_pipes (line : string) (in_single in_double : bool) : nat :=
  match line with
  | EmptyString => 0
  | String ch rest =>
      if in_single then unquoted_pipes rest (negb (Ascii.eqb ch squote)) in_double
      else if in_double then
        if Ascii.eqb ch backslash then
          match rest with
          | String _ rest' => unquoted_pipes rest' in_single in_double
          | EmptyString => 0
          end
        else unquoted_pipes rest in_single (negb (Ascii.eqb ch dquote))
      else if Ascii.eqb ch backslash then
        match rest with
        | String _ rest' => unquoted_pipes rest' in_single in_double
        | EmptyString => 0
        end
      else if Ascii.eqb ch squote then unquoted_pipes rest true in_double
      else if Ascii.eqb ch dquote then unquoted_pipes rest in_single true
      else (if Ascii.eqb ch "|"%char then 1 else 0) + unquoted_pipes rest in_single in_double
  end.

(** The specification's splitter: the groups of tokens delimited by the
    tokens equal to the pipe, the pipes discarded, the empty groups kept. *)
Fixpoint groups (tokens : list string) : list (list string) :=
  match tokens with
  | [] => [[]]
  | t :: rest =>
      if String.eqb t "|" then [] :: groups rest
      else match groups rest with
           | g :: gs => (t :: g) :: gs
           | [] => [[t]]
           end
  end.

(** ... and with the empty groups omitted. *)
Definition split_spec (tokens : list string) : list (list string) :=
  filter nonempty (groups tokens).

Definition is_pipe (t : string) : bool := String.eqb t "|".

(** The six redirection operators, and those that open their target in
    append mode. *)
Definition redirection_ops : list string := stderr_ops ++ stdout_ops.

Definition append_ops : list string := ["2>>"; "1>>"; ">>"].

Definition spec_mode (op : string) : string :=
  if mem op append_ops then "a" else "w".

(** What the scan for one class of operators, listed in [ops] by priority,
    finds in [tokens]: the remaining tokens and the target with its mode.
    Either no operator of the class occurs; or the first operator of [ops]
    that occurs has its leftmost occurrence at the very end, and nothing is
    honoured; or that occurrence is followed by a path, and the pair is taken
    out, the tokens before and after it staying as they are. *)
Inductive scan (ops tokens : list string)
  : list string -> option (string * string) -> Prop :=
| scan_absent :
    Forall (fun op => ~ In op tokens) ops ->
    scan ops tokens tokens None
| scan_no_path higher op lower pre :
    ops = higher ++ op :: lower ->
    Forall (fun o => ~ In o tokens) higher ->
    tokens = pre ++ [op] -> ~ In op pre ->
    scan ops tokens tokens None
| scan_pair higher op lower pre path post :
    ops = higher ++ op :: lower ->
    Forall (fun o => ~ In o tokens) higher ->
    tokens = pre ++ op :: path :: post -> ~ In op pre ->
    scan ops tokens (pre ++ post) (Some (path, spec_mode op)).

(** Where one [for op in (...)] loop of [parse_redirections] honours an
    operator: at the leftmost occurrence of the first operator of [ops] that
    occurs in [tokens], when a token follows that occurrence ([idx + 1 <
    len(clean_tokens)]); the token at the next index is the path. *)
Fixpoint honoured (ops tokens : list string) : option nat :=
  match ops with
  | [] => None
  | op :: ops' =>
      if mem op tokens then
        let idx := index op tokens in
        if (idx + 1 <? List.length tokens)%nat then Some idx else None
      else honoured ops' tokens
  end.

(** The tokens that loop leaves: [del clean_tokens[idx:idx + 2]]. *)
Definition left_by (ops tokens : list string) : list string :=
  match honoured ops tokens with
  | Some idx => del_slice idx (idx + 2) tokens
  | None => tokens
  end.

(** The loop takes the last token as the path of the operator it honours:
    that operator stands directly before it. *)
Definition takes_last (ops tokens : list string) : bool :=
  match honoured ops tokens with
  | Some idx => (idx + 2 =? List.length tokens)%nat
  | None => false
  end.

(** The last token is taken as a path by the loop for stderr, or by the loop
    for stdout on the tokens the first loop left. *)
Definition last_taken_as_path (tokens : list string) : bool :=
  takes_last stderr_ops tokens || takes_last stdout_ops (left_by stderr_ops tokens).

(** [taken toks t rest]: the target [t] is the path and the mode of an
    operator that stands in [toks] directly before its path, and [rest] is
    [toks] without the two; or there is no target and [rest] is [toks]. *)
Inductive taken (toks : list string) : option (string * string) -> list string -> Prop :=
| taken_none : taken toks None toks
| taken_pair pre op path post :
    In op redirection_ops ->
    toks = pre ++ op :: path :: post ->
    taken toks (Some (path, spec_mode op)) (pre ++ post).

(** Opening the target a scan found, if any. *)
Definition open_target `{Env} (t : option (string * string)) (w : world)
    : world * (option stream + string) :=
  match t with
  | None => (w, inl None)
  | Some (path, mode) =>
      match open path mode w with
      | (w', inl f) => (w', inl (Some f))
      | (w', inr msg) => (w', inr msg)
      end
  end.

(** The result of resolution when the scans found the targets [e] for
    stderr and [o] for stdout and left the tokens [clean]: the stderr target
    is opened first, then the stdout target; the first failure is reported
    and ends resolution. *)
Definition resolved `{Env} (e o : option (string * string)) (clean : list string)
    (w : world) : world * option redirections :=
  match open_target e w with
  | (w1, inr msg) => (print_error ("Redirection error: " ++ msg) w1, None)
  | (w1, inl f_err) =>
      match open_target o w1 with
      | (w2, inr msg) => (print_error ("Redirection error: " ++ msg) w2, None)
      | (w2, inl f_out) =>
          (w2, Some {| clean_tokens := clean; stdout_dest := f_out;
                       stderr_dest := f_err; file_out := f_out; file_err := f_err |})
      end
  end.

(** The text a built-in emitted on its standard output: its writes to
    [sys.stdout], in order. *)
Fixpoint out_text (ws : list (chan * string)) : string :=
  match ws with
  | [] => EmptyString
  | (Out, text) :: rest => text ++ out_text rest
  | (Err, _) :: rest => out_text rest
  end.

(** A stream that is a console stream, a pipe, or an object that exists. *)
Definition valid_stream (s : stream) (w : world) : Prop :=
  match s with
  | Handle h => h < List.length (objects w)
  | _ => True
  end.

(** The stream a dispatched command reads, and the text it finds there when
    the stream is a buffer. *)
Definition call_stdin (c : call) : option stream :=
  match c with
  | BuiltinCall _ _ s _ _ _ _ => Some s
  | Popen _ _ (To s) _ _ _ => Some s
  | _ => None
  end.

Definition call_input (c : call) : option string :=
  match c with
  | BuiltinCall _ _ _ _ _ input _ => input
  | Popen _ _ _ _ _ input => input
  | _ => None
  end.

(** The state after the iterations for the stages [pre], from index [i],
    when every one of them went on to the next stage: no [break], no
    exception. *)
Fixpoint dispatched_through `{Env} `{OsBuiltins} (n i : nat) (pre : list (list string))
    (ps : pipe_state) (w : world) : option (world * pipe_state) :=
  match pre with
  | [] => Some (w, ps)
  | cmd_tokens :: rest =>
      match stage n i cmd_tokens ps w with
      | (w', ps', Next) => dispatched_through n (S i) rest ps' w'
      | _ => None
      end
  end.

(** A temporary buffer holding [data], open and rewound to its start. *)
Definition temp_buffer (data : string) : file_obj :=
  {| f_name := None; f_mode := "w+"; f_data := data; f_pos := 0; f_closed := false |}.

(** The object [open] creates for the target a scan found. *)
Definition new_object (t : option (string * string)) : list file_obj :=
  match t with
  | Some (path, mode) =>
      [{| f_name := Some path; f_mode := mode; f_data := EmptyString;
          f_pos := 0; f_closed := false |}]
  | None => []
  end.

(** The default streams of [w'] are bound as they are in [w]. *)
Definition same_streams (w w' : world) : Prop :=
  sys_stdin w' = sys_stdin w /\ sys_stdout w' = sys_stdout w
  /\ sys_stderr w' = sys_stderr w.

(** The groups of [gs] with the tokens [cur] put before the first one. *)
Definition attach (cur : list string) (gs : list (list string)) : list (list string) :=
  match gs with
  | g :: gs' => (cur ++ g) :: gs'
  | [] => [cur]
  end.

From Stdlib Require Import DecimalString.

(** ** More vocabulary *)

(** The characters of [s] that satisfy [p], in order. *)
Fixpoint filter_chars (p : ascii -> bool) (s : string) : string :=
  match s with
  | EmptyString => EmptyString
  | String c rest => if p c then String c (filter_chars p rest) else filter_chars p rest
  end.

(** The tokens of the stages, a pipe token between consecutive stages. *)
Fixpoint join_stages (stages : list (list string)) : list string :=
  match stages with
  | [] => []
  | [g] => g
  | g :: rest => g ++ "|" :: join_stages rest
  end.

(** The text a built-in wrote to [sys.stderr], in order. *)
Fixpoint err_text (ws : list (chan * string)) : string :=
  match ws with
  | [] => EmptyString
  | (Err, text) :: rest => text ++ err_text rest
  | (Out, _) :: rest => err_text rest
  end.

(** [repr(s)] for a [str] of code points below 256.  The text stands between
    single quotes, or between double quotes when it holds a single quote and
    no double quote; the quote used and the backslash are escaped by a
    backslash; tab, newline and carriage return are written with their
    letter, and every other character that is not printable (the control
    characters, the code points from 128 to 160 and the soft hyphen) as
    [\xhh]. *)
Fixpoint has_char (c : ascii) (s : string) : bool :=
  match s with
  | EmptyString => false
  | String d rest => Ascii.eqb d c || has_char c rest
  end.

Definition hex_digit (n : nat) : ascii :=
  ascii_of_nat (if (n <? 10)%nat then 48 + n else 87 + n).

Definition printable (c : ascii) : bool :=
  let n := nat_of_ascii c in
  (((32 <=? n) && (n <? 127)) || ((161 <=? n) && negb (n =? 173)))%nat.

Definition repr_char (quote c : ascii) : string :=
  let n := nat_of_ascii c in
  if Ascii.eqb c quote || Ascii.eqb c backslash then String backslash (String c EmptyString)
  else if Ascii.eqb c "009"%char then String backslash "t"
  else if Ascii.eqb c newline then String backslash "n"
  else if Ascii.eqb c "013"%char then String backslash "r"
  else if printable c then String c EmptyString
  else String backslash
         (String "x"%char
            (String (hex_digit (n / 16)) (String (hex_digit (n mod 16)) EmptyString))).

Fixpoint repr_chars (quote : ascii) (s : string) : string :=
  match s with
  | EmptyString => EmptyString
  | String c rest => (repr_char quote c ++ repr_chars quote rest)%string
  end.

Definition repr (s : string) : string :=
  let quote := if has_char squote s && negb (has_char dquote s) then dquote else squote in
  String quote (repr_chars quote s ++ String quote EmptyString).

(** The number of targets a resolution opened: 0, 1 or 2. *)
Definition targets (r : redirections) : nat :=
  (match file_err r with Some _ => 1 | None => 0 end)
  + (match file_out r with Some _ => 1 | None => 0 end).

(** ** History files

    The methods of [HistoryManager] that read and write files, over a model
    of the text files on disk.  A file is written as it is (the line
    separator of the system is the newline) and read in text mode with
    universal newlines. *)

Module HistoryFiles.

Import HistoryManager.

(** The content of each path that exists; the first binding of a path is
    the current one. *)
Definition disk := list (string * string).

Definition content (path : string) (d : disk) : option string := lookup path d.

(** [os.path.exists(path)]. *)
Definition os_path_exists (path : string) (d : disk) : bool :=
  match content path d with Some _ => true | None => false end.

Definition carriage_return : ascii := "013"%char.

(** What a text-mode read delivers: carriage return followed by line feed,
    and a lone carriage return, both become a newline. *)
Fixpoint universal_newlines (s : string) : string :=
  match s with
  | EmptyString => EmptyString
  | String c rest =>
      if Ascii.eqb c carriage_return then
        match rest with
        | String c2 rest' =>
            if Ascii.eqb c2 newline
            then String newline (universal_newlines rest')
            else String newline (universal_newlines rest)
        | EmptyString => String newline EmptyString
        end
      else String c (universal_newlines rest)
  end.

(** [for line in f]: the lines of a text, each with its newline, the last
    one as it is when the text does not end with a newline. *)
Fixpoint lines_from (s : string) (cur : string) : list string :=
  match s with
  | EmptyString => if truthy cur then [cur] else []
  | String c rest =>
      if Ascii.eqb c newline
      then snoc cur c :: lines_from rest EmptyString
      else lines_from rest (snoc cur c)
  end.

Definition file_lines (text : string) : list string :=
  lines_from (universal_newlines text) EmptyString.

(** [open(path, 'r')] and the text read from it, or [str(e)] of the
    exception: the one the system gives for the path, or the one of a
    missing file, which shows the path as [repr] does; a path that holds a
    null character is refused before the system is asked. *)
Definition read_text `{Env} (path : string) (d : disk) : string + string :=
  match open_fails path "r" with
  | Some msg => inr msg
  | None =>
      match content path d with
      | Some text => inl text
      | None =>
          if has_char zero path then inr "embedded null byte"
          else inr ("[Errno 2] No such file or directory: " ++ repr path)%string
      end
  end.

(** [open(path, 'w')] followed by the writes of [text]. *)
Definition write_text (path text : string) (d : disk) : disk := (path, text) :: d.

(** [open(path, 'a')] followed by the writes of [text]. *)
Definition append_text (path text : string) (d : disk) : disk :=
  (path, (match content path d with Some old => old | None => EmptyString end ++ text)%string)
  :: d.

(** The loop [for line in f: line = line.strip(); if line: append(line)]. *)
Definition read_into (text : string) (history : list string) : list string :=
  fold_left (fun h line => let line := strip line in
                           if truthy line then h ++ [line] else h)
            (file_lines text) history.

(** The text [for cmd in lines: f.write(cmd + newline)] writes. *)
Definition written (lines : list string) : string :=
  String.concat EmptyString (map line_of lines).

Definition get_all (hm : t) : list string := history hm.

Definition load `{Env} (d : disk) (hm : t) : t :=
  match HISTFILE with
  | Some path =>
      if truthy path && os_path_exists path d then
        match read_text path d with
        | inl text =>
            let h := read_into text (history hm) in
            {| history := h; written_count := List.length h |}
        | inr _ => hm
        end
      else hm
  | None => hm
  end.

(** [save], with the text it appends put on the disk. *)
Definition save `{Env} (d : disk) (hm : t) : t * disk :=
  let '(hm', persisted) := HistoryManager.save hm in
  (hm', fold_left (fun d pt => append_text (fst pt) (snd pt) d) persisted d).

(** The three methods behind [history -r], [-w] and [-a]; the last
    component is what they print. *)
Definition load_from_file `{Env} (filename : string) (d : disk) (hm : t)
    : t * list (chan * string) :=
  match read_text filename d with
  | inl text =>
      ({| history := read_into text (history hm); written_count := written_count hm |}, [])
  | inr msg => (hm, [(Err, error_text ("history: " ++ msg))])
  end.

Definition write_to_file `{Env} (filename : string) (d : disk) (hm : t)
    : disk * list (chan * string) :=
  match open_fails filename "w" with
  | Some msg => (d, [(Err, error_text ("history: " ++ msg))])
  | None => (write_text filename (written (history hm)) d, [])
  end.

Definition append_to_file `{Env} (filename : string) (d : disk) (hm : t)
    : t * disk * list (chan * string) :=
  match open_fails filename "a" with
  | Some msg => (hm, d, [(Err, error_text ("history: " ++ msg))])
  | None =>
      ({| history := history hm; written_count := List.length (history hm) |},
       append_text filename (written (skipn (written_count hm) (history hm))) d, [])
  end.

(** A history line that survives a trip through a file: not empty, no white
    space at either end, no line break inside. *)
Definition tidy (line : string) : Prop :=
  truthy line = true /\ strip line = line
  /\ all_chars (fun c => negb (Ascii.eqb c newline || Ascii.eqb c carriage_return)) line = true.

End HistoryFiles.

(** ** More built-ins

    [grep] and [history], which the registry takes from the operating system
    above, modelled over the disk of [HistoryFiles]; each gives what it
    prints, [history] also the manager and the disk it leaves and the
    exception it ends with. *)

Module MoreBuiltins.

Import HistoryManager HistoryFiles.

(** The lines [for line in f] yields that hold [pattern], each printed with
    [print(line, end='')]. *)
Definition matching (pattern text : string) : list (chan * string) :=
  map (fun line => (Out, line)) (filter (contains pattern) (file_lines text)).

(** [cmd_grep]; [input] is the text on standard input. *)
Definition cmd_grep `{Env} (d : disk) (args : list string) (input : string)
    : list (chan * string) :=
  match args with
  | [] => [(Err, error_text "grep: missing search pattern")]
  | pattern :: files =>
      if nonempty files then
        flat_map (fun filename =>
                    match read_text filename d with
                    | inl text => matching pattern text
                    | inr msg => [(Err, error_text ("grep: " ++ filename ++ ": " ++ msg))]
                    end) files
      else matching pattern input
  end.

(** [str.isdigit] for code points below 256: the decimal digits and the
    superscripts two, three and one. *)
Definition isdigit_char (c : ascii) : bool :=
  let n := nat_of_ascii c in
  (((48 <=? n) && (n <=? 57)) || (n =? 178) || (n =? 179) || (n =? 185))%nat.

Definition isdigit (s : string) : bool := truthy s && all_chars isdigit_char s.

(** [f"{n:5}"]: the decimal digits of [n], right-aligned in five columns. *)
Definition decimal (n : nat) : string := NilZero.string_of_uint (Nat.to_uint n).

Fixpoint spaces (n : nat) : string :=
  match n with O => EmptyString | S n' => String " " (spaces n') end.

Definition rjust (width : nat) (s : string) : string :=
  (spaces (width - String.length s) ++ s)%string.

(** The loop [for i in range(start, len(full_history))] of [cmd_history],
    over the entries from index [i] on. *)
Fixpoint listing (i : nat) (entries : list string) : list (chan * string) :=
  match entries with
  | [] => []
  | entry :: rest =>
      (Out, line_of (rjust 5 (decimal (i + 1)) ++ "  " ++ entry)) :: listing (S i) rest
  end.

Record history_result := {
  h_manager : t;
  h_disk : disk;
  h_writes : list (chan * string);
  h_raised : option raised
}.

Definition cmd_history `{Env} (d : disk) (args : list string) (hm : t) : history_result :=
  let list_from (start : nat) :=
    {| h_manager := hm; h_disk := d;
       h_writes := listing start (skipn start (history hm)); h_raised := None |} in
  match args with
  | flag :: filename :: _ =>
      if String.eqb flag "-r" then
        let '(hm', ws) := load_from_file filename d hm in
        {| h_manager := hm'; h_disk := d; h_writes := ws; h_raised := None |}
      else if String.eqb flag "-w" then
        let '(d', ws) := write_to_file filename d hm in
        {| h_manager := hm; h_disk := d'; h_writes := ws; h_raised := None |}
      else if String.eqb flag "-a" then
        let '(hm', d', ws) := append_to_file filename d hm in
        {| h_manager := hm'; h_disk := d'; h_writes := ws; h_raised := None |}
      else if isdigit flag then
        match py_int flag with
        | Some n => list_from (List.length (history hm) - Z.to_nat n)
        | None => {| h_manager := hm; h_disk := d; h_writes := [];
                     h_raised := Some (Exception ("invalid literal for int() with base 10: "
                                                  ++ repr flag)) |}
        end
      else list_from 0
  | [flag] =>
      if isdigit flag then
        match py_int flag with
        | Some n => list_from (List.length (history hm) - Z.to_nat n)
        | None => {| h_manager := hm; h_disk := d; h_writes := [];
                     h_raised := Some (Exception ("invalid literal for int() with base 10: "
                                                  ++ repr flag)) |}
        end
      else list_from 0
  | [] => list_from 0
  end.

End MoreBuiltins.

(** ** The read loop

    [Shell.start] over the keys the user presses at the prompt: a line
    followed by return, end of input, or an interrupt. *)

Module ShellLoop.

Import HistoryFiles.

Inductive key := Line (line : string) | EndOfInput | Interrupt.

(** How the loop stands: still at the prompt with no key left, ended by end
    of input, or left by an exception nothing catches. *)
Inductive ending := AtPrompt | Ended | Left (e : raised).

(** [input] shows the prompt on the standard output. *)
Definition prompt (w : world) : world := write (sys_stdout w) "$ " w.

(** [self.history_manager.save()] on the state. *)
Definition save_history `{Env} (w : world) : world :=
  let '(hm, persisted) := HistoryManager.save (history_manager w) in
  set_history hm (set_appended (appended w ++ persisted) w).

(** The [while True] loop.  [EOFError] and [KeyboardInterrupt] are caught,
    also a [KeyboardInterrupt] raised while the line is processed; any other
    exception that leaves [process_line] leaves the loop. *)
Fixpoint loop `{Env} `{OsBuiltins} (keys : list key) (w : world) : world * ending :=
  match keys with
  | [] => (w, AtPrompt)
  | Line line :: rest =>
      let w := prompt w in
      if truthy line then
        let w := set_history (HistoryManager.add line (history_manager w)) w in
        match process_line line w with
        | (w, None) => loop rest w
        | (w, Some KeyboardInterrupt) => loop rest (print EmptyString w)
        | (w, Some e) => (w, Left e)
        end
      else loop rest w
  | EndOfInput :: _ => (save_history (print EmptyString (prompt w)), Ended)
  | Interrupt :: rest => loop rest (print EmptyString (prompt w))
  end.

(** [start]: the history file is loaded, then the loop runs. *)
Definition start `{Env} `{OsBuiltins} (d : disk) (keys : list key) : world * ending :=
  loop keys (set_history (load d (history_manager initial_world)) initial_world).

(** The lines entered before the first end of input. *)
Fixpoint typed (keys : list key) : list string :=
  match keys with
  | Line line :: rest => line :: typed rest
  | Interrupt :: rest => typed rest
  | EndOfInput :: _ => []
  | [] => []
  end.

End ShellLoop.

(** The operating-system built-ins when the working directory of the shell
    has been removed: [os.getcwd()] raises in [pwd]; the others print
    nothing. *)
Definition removed_cwd_builtins : OsBuiltins := {|
  os_builtin := fun name _ _ hm =>
    {| e_writes := []; e_appended := []; e_history := hm;
       e_raised := if String.eqb name "pwd"
                   then Some (Exception "[Errno 2] No such file or directory")
                   else None |}
|}.

(** What outlives the process: the history of the manager and the text
    appended to files. *)
Definition persistent (w : world) : HistoryManager.t * list (string * string) :=
  (history_manager w, appended w).

(** Built-ins of the operating system that leave the history alone and
    append to no file. *)
Definition quiet_builtins `{OsBuiltins} : Prop :=
  forall name args input hm,
    e_history (os_builtin name args input hm) = hm
    /\ e_appended (os_builtin name args input hm) = [].

(** * Properties *)

(** ** Strings *)

Lemma append_nil_r (s : string) : (s ++ EmptyString)%string = s.
Proof. induction s as [|c s IH]; simpl; [reflexivity | now rewrite IH]. Qed.

Lemma append_assoc (a b c : string) : ((a ++ b) ++ c)%string = (a ++ b ++ c)%string.
Proof. induction a as [|x a IH]; simpl; [reflexivity | now rewrite IH]. Qed.

Lemma snoc_append (cur : string) (ch : ascii) (t : string) :
  (snoc cur ch ++ t)%string = (cur ++ String ch t)%string.
Proof. unfold snoc. now rewrite append_assoc. Qed.

Lemma truthy_snoc (cur : string) (ch : ascii) : truthy (snoc cur ch) = true.
Proof. destruct cur; reflexivity. Qed.

Lemma truthy_false (s : string) : truthy s = false -> s = EmptyString.
Proof. destruct s; [reflexivity | discriminate]. Qed.

Lemma all_chars_snoc p (cur : string) (ch : ascii) :
  all_chars p (snoc cur ch) = all_chars p cur && p ch.
Proof.
  induction cur as [|c cur IH]; simpl.
  - now rewrite andb_true_r.
  - unfold snoc in IH. now rewrite IH, andb_assoc.
Qed.

(** Induction on a string two characters at a time, as the tokenizer
    advances. *)
Lemma string_ind2 (P : string -> Prop) :
  P EmptyString ->
  (forall c, P (String c EmptyString)) ->
  (forall c1 c2 r, P r -> P (String c2 r) -> P (String c1 (String c2 r))) ->
  forall s, P s.
Proof.
  intros H0 H1 H2 s.
  assert (H : P s /\ forall c, P (String c s)).
  { induction s as [|c s [IHs IHc]].
    - split; [exact H0 | exact H1].
    - split; [apply IHc | intro c'; apply H2; [exact IHs | apply IHc]]. }
  exact (proj1 H).
Qed.

(** ** Tokenizer *)

(** Whatever holds of the tokens emitted so far and is kept by emitting a
    non-empty token holds of the result. *)
Lemma tokenize_loop_invariant (P : list string -> Prop) :
  (forall args cur, P args -> truthy cur = true -> P (args ++ [cur])) ->
  forall line in_single in_double args cur,
    P args -> P (tokenize_loop line in_single in_double args cur).
Proof.
  intros Hemit line.
  induction line as [| c | c1 c2 r IHr IH2] using string_ind2;
    intros s d args cur HP.
  - simpl. destruct (truthy cur) eqn:E; auto.
  - simpl.
    repeat match goal with
           | |- context [if ?b then _ else _] => destruct b eqn:?
           end; auto using truthy_snoc.
  - remember (String c2 r) as rest eqn:Erest.
    simpl.
    destruct s.
    { destruct (Ascii.eqb c1 squote); apply IH2; exact HP. }
    destruct d.
    { destruct (Ascii.eqb c1 dquote); [apply IH2; exact HP|].
      destruct (Ascii.eqb c1 backslash); [|apply IH2; exact HP].
      rewrite Erest.
      destruct (dq_escapable c2); [apply IHr | rewrite <- Erest; apply IH2]; exact HP. }
    destruct (Ascii.eqb c1 squote); [apply IH2; exact HP|].
    destruct (Ascii.eqb c1 dquote); [apply IH2; exact HP|].
    destruct (Ascii.eqb c1 backslash); [rewrite Erest; apply IHr; exact HP|].
    destruct (isspace c1); [|apply IH2; exact HP].
    destruct (truthy cur) eqn:E; apply IH2; auto.
Qed.

Lemma tokenize_loop_nonempty line in_single in_double args cur :
  Forall (fun t => t <> EmptyString) args ->
  Forall (fun t => t <> EmptyString) (tokenize_loop line in_single in_double args cur).
Proof.
  apply tokenize_loop_invariant.
  intros a c Ha Hc. apply Forall_app. split; [exact Ha|].
  constructor; [|constructor]. intro E. subst c. discriminate.
Qed.

(** C9: [tokenize] never emits an empty token, for any line; read right after
    a separator a quoted empty string, in single or in double quotes, leaves
    the scanner as it was, so it contributes no token; and [echo ''] runs the
    built-in with no argument at all. *)
Theorem tokenize_never_emits_empty_token :
  (forall line, Forall (fun t => t <> EmptyString) (tokenize line))
  /\ (forall rest args,
        tokenize_loop (String squote (String squote rest)) false false args EmptyString
        = tokenize_loop rest false false args EmptyString)
  /\ (forall rest args,
        tokenize_loop (String dquote (String dquote rest)) false false args EmptyString
        = tokenize_loop rest false false args EmptyString)
  /\ tokenize "echo ''" = ["echo"]
  /\ tokenize (String "e" (String "c" (String "h" (String "o" (String " "
        (String dquote (String dquote EmptyString))))))) = ["echo"]
  /\ calls (fst (@process_line sample_env sample_builtins "echo ''" initial_world))
     = [BuiltinCall "echo" [] (Console Stdin) (Console Stdout) (Console Stderr) None
          [(Out, line_of EmptyString)]].
Proof.
  split; [|repeat split; reflexivity].
  intro line. apply tokenize_loop_nonempty. constructor.
Qed.

(** On a character that is neither a quote nor a backslash the scanner,
    outside quotes, either ends the current token or extends it. *)
Lemma tokenize_loop_plain ch rest args cur :
  Ascii.eqb ch squote = false -> Ascii.eqb ch dquote = false ->
  Ascii.eqb ch backslash = false ->
  tokenize_loop (String ch rest) false false args cur =
  if isspace ch
  then if truthy cur
       then tokenize_loop rest false false (args ++ [cur]) EmptyString
       else tokenize_loop rest false false args cur
  else tokenize_loop rest false false args (snoc cur ch).
Proof. intros H1 H2 H3. simpl. now rewrite H1, H2, H3. Qed.

Lemma word_char_plain ch :
  word_char ch = true ->
  isspace ch = false /\ Ascii.eqb ch squote = false
  /\ Ascii.eqb ch dquote = false /\ Ascii.eqb ch backslash = false.
Proof.
  unfold word_char. intro H.
  repeat (apply andb_prop in H; destruct H as [H ?]).
  repeat split; now apply negb_true_iff.
Qed.

(** The tokens of a line without quotes and backslashes are words. *)
Lemma tokenize_loop_words line :
  quote_free line = true -> backslash_free line = true ->
  forall args cur,
    Forall word args -> all_chars word_char cur = true ->
    Forall word (tokenize_loop line false false args cur).
Proof.
  unfold quote_free, backslash_free.
  induction line as [|ch rest IH]; intros Hq Hb args cur Hargs Hcur.
  - simpl. destruct (truthy cur) eqn:E; [|exact Hargs].
    apply Forall_app. split; [exact Hargs|]. constructor; [|constructor]. now split.
  - simpl in Hq, Hb.
    apply andb_prop in Hq. destruct Hq as [Hq1 Hq].
    apply andb_prop in Hb. destruct Hb as [Hb1 Hb].
    apply negb_true_iff in Hq1, Hb1. apply orb_false_elim in Hq1. destruct Hq1 as [Hs Hd].
    rewrite tokenize_loop_plain by assumption.
    destruct (isspace ch) eqn:Esp.
    + destruct (truthy cur) eqn:E.
      * apply IH; try assumption; [|reflexivity].
        apply Forall_app. split; [exact Hargs|]. constructor; [|constructor]. now split.
      * apply IH; assumption.
    + apply IH; try assumption.
      rewrite all_chars_snoc, Hcur. unfold word_char. now rewrite Esp, Hs, Hd, Hb1.
Qed.

(** Reading a run of word characters extends the current token by it. *)
Lemma tokenize_loop_word t :
  all_chars word_char t = true ->
  forall rest args cur,
    tokenize_loop (t ++ rest) false false args cur
    = tokenize_loop rest false false args (cur ++ t).
Proof.
  induction t as [|ch t IH]; intros Ht rest args cur.
  - simpl. now rewrite append_nil_r.
  - simpl in Ht. apply andb_prop in Ht. destruct Ht as [Hch Ht].
    destruct (word_char_plain ch Hch) as (Hsp & Hs & Hd & Hb).
    change (String ch t ++ rest)%string with (String ch (t ++ rest)%string).
    rewrite tokenize_loop_plain by assumption. rewrite Hsp.
    rewrite IH by assumption. now rewrite snoc_append.
Qed.

(** Tokenizing words joined by single spaces gives the words back. *)
Lemma tokenize_loop_join ts :
  Forall word ts ->
  forall args, tokenize_loop (join " " ts) false false args EmptyString = args ++ ts.
Proof.
  induction ts as [|t ts IH]; intros Hts args.
  - simpl. now rewrite app_nil_r.
  - inversion Hts as [|? ? [Hne Hw] Hrest]; subst.
    destruct ts as [|u ts].
    + simpl join. rewrite <- (append_nil_r t) at 1.
      rewrite tokenize_loop_word by assumption. simpl. now rewrite Hne.
    + change (join " " (t :: u :: ts)) with (t ++ String " " (join " " (u :: ts)))%string.
      rewrite tokenize_loop_word by assumption.
      rewrite tokenize_loop_plain by reflexivity.
      change (isspace " ") with true. cbn iota. simpl append. rewrite Hne.
      rewrite IH by assumption. now rewrite <- app_assoc.
Qed.

(** C8, as the program has it: on a line without quote characters and
    without backslashes, joining [tokenize line] with single spaces and
    tokenizing the result gives the same tokens. *)
Theorem tokenize_idempotent_on_plain_lines (line : string) :
  quote_free line = true -> backslash_free line = true ->
  tokenize (join " " (tokenize line)) = tokenize line.
Proof.
  intros Hq Hb. unfold tokenize at 1.
  rewrite tokenize_loop_join; [reflexivity|].
  apply tokenize_loop_words; auto.
Qed.

Lemma tokenize_idempotent_on_plain_lines_witness :
  quote_free "ls  -l   /tmp " = true /\ backslash_free "ls  -l   /tmp " = true
  /\ tokenize (join " " (tokenize "ls  -l   /tmp ")) = tokenize "ls  -l   /tmp ".
Proof.
  split; [reflexivity|]. split; [reflexivity|].
  apply (tokenize_idempotent_on_plain_lines "ls  -l   /tmp "); reflexivity.
Defined.

(** C8 fails as stated: the line [a\ b] has no quote, its one token is [a b],
    and the re-joined text tokenizes to the two tokens [a] and [b]. *)
Lemma tokenize_not_idempotent_with_backslash :
  quote_free "a\ b" = true
  /\ tokenize "a\ b" = ["a b"]
  /\ tokenize (join " " (tokenize "a\ b")) = ["a"; "b"]
  /\ tokenize (join " " (tokenize "a\ b")) <> tokenize "a\ b".
Proof. repeat split; try reflexivity. discriminate. Qed.

(** ** Pipeline splitter *)

Lemma groups_not_nil tokens : groups tokens <> [].
Proof.
  destruct tokens as [|t rest]; simpl; [discriminate|].
  destruct (String.eqb t "|"); [discriminate|].
  destruct (groups rest); discriminate.
Qed.

Lemma split_loop_groups tokens :
  forall commands current_cmd,
    split_loop tokens commands current_cmd
    = commands ++ filter nonempty (attach current_cmd (groups tokens)).
Proof.
  induction tokens as [|t rest IH]; intros commands cur.
  - simpl. rewrite app_nil_r. destruct (nonempty cur); [reflexivity | now rewrite app_nil_r].
  - simpl. destruct (String.eqb t "|").
    + rewrite IH. simpl attach. rewrite app_nil_r.
      assert (E : attach [] (groups rest) = groups rest).
      { destruct (groups rest) eqn:G; [now apply groups_not_nil in G | reflexivity]. }
      rewrite E. simpl filter.
      destruct (nonempty cur); [now rewrite <- app_assoc | reflexivity].
    + rewrite IH. destruct (groups rest) as [|g gs] eqn:G; [now apply groups_not_nil in G|].
      simpl attach. now rewrite <- app_assoc.
Qed.

Lemma mem_cons x y l : mem x (y :: l) = String.eqb x y || mem x l.
Proof. reflexivity. Qed.

Lemma groups_pipe_free tokens :
  Forall (fun g => mem "|" g = false) (groups tokens).
Proof.
  induction tokens as [|t rest IH]; cbn [groups].
  - constructor; [reflexivity | constructor].
  - destruct (String.eqb t "|") eqn:E.
    + constructor; [reflexivity | exact IH].
    + rewrite String.eqb_sym in E.
      destruct (groups rest) as [|g gs].
      * constructor; [|constructor]. now rewrite mem_cons, E.
      * inversion IH; subst. constructor; [|assumption].
        now rewrite mem_cons, E.
Qed.

Lemma groups_concat tokens :
  List.concat (groups tokens) = filter (fun t => negb (is_pipe t)) tokens.
Proof.
  induction tokens as [|t rest IH]; simpl; [reflexivity|].
  unfold is_pipe at 1. destruct (String.eqb t "|"); simpl; [exact IH|].
  destruct (groups rest) as [|g gs]; simpl in *; now rewrite <- IH.
Qed.

Lemma concat_filter_nonempty (gs : list (list string)) :
  List.concat (filter nonempty gs) = List.concat gs.
Proof.
  induction gs as [|g gs IH]; simpl; [reflexivity|].
  destruct g; simpl; now rewrite IH.
Qed.

(** C5, as the program has it: the separators are exactly the tokens equal
    to the pipe, whatever quoting produced them.  Without such a token there
    is no pipeline; with one, the stages are the non-empty groups of tokens
    between those tokens: none is empty, none holds a pipe token, and together
    they are the other tokens in order.  So a quoted pipe standing alone as a
    word splits, and a pipe inside a longer word does not. *)
Theorem split_pipeline_splits_at_pipe_tokens (line : string) :
  split_pipeline (tokenize line)
  = (if mem "|" (tokenize line) then Some (split_spec (tokenize line)) else None)
  /\ Forall (fun stage => stage <> [] /\ mem "|" stage = false) (split_spec (tokenize line))
  /\ List.concat (split_spec (tokenize line))
     = filter (fun t => negb (is_pipe t)) (tokenize line)
  /\ split_pipeline (tokenize "echo '|' x") = Some [["echo"]; ["x"]]
  /\ split_pipeline (tokenize "echo a|b") = None
  /\ split_pipeline (tokenize "echo 'a|b'") = None.
Proof.
  split; [|split; [|split; [|repeat split; reflexivity]]].
  - unfold split_pipeline, split_spec.
    destruct (mem "|" (tokenize line)); [|reflexivity].
    simpl negb. cbn iota. rewrite split_loop_groups. simpl.
    assert (E : attach [] (groups (tokenize line)) = groups (tokenize line)).
    { destruct (groups (tokenize line)) eqn:G; [now apply groups_not_nil in G | reflexivity]. }
    now rewrite E.
  - unfold split_spec. apply Forall_forall. intros g Hg.
    apply filter_In in Hg. destruct Hg as [Hin Hne]. split.
    + intro E. subst g. discriminate.
    + pose proof (groups_pipe_free (tokenize line)) as F.
      rewrite Forall_forall in F. now apply F.
  - unfold split_spec. now rewrite concat_filter_nonempty, groups_concat.
Qed.

(** C5 fails as stated, both ways: in [echo '|' x] the only pipe is inside
    single quotes and the line still splits into two stages; in [echo a|b]
    the pipe is unquoted and the line is not split. *)
Lemma quoted_pipe_splits_and_unquoted_pipe_does_not :
  unquoted_pipes "echo '|' x" false false = 0
  /\ split_pipeline (tokenize "echo '|' x") = Some [["echo"]; ["x"]]
  /\ unquoted_pipes "echo a|b" false false = 1
  /\ split_pipeline (tokenize "echo a|b") = None.
Proof. repeat split; reflexivity. Qed.

(** ** Built-ins *)

(** C1 fails in the program: [exit] does persist the history first, but the
    bare [except] around [sys.exit(int(args[0]))] catches the [SystemExit] it
    has just raised, so the process ends with code 0 whatever the argument:
    [int] reads 5 from the argument of [exit 5], and the shell exits with 0. *)
Theorem exit_code_argument_is_discarded :
  (forall (E : Env) args input hm,
     e_raised (cmd_exit args input hm) = Some (SystemExit 0)
     /\ e_history (cmd_exit args input hm) = fst (HistoryManager.save hm)
     /\ e_appended (cmd_exit args input hm) = snd (HistoryManager.save hm))
  /\ py_int "5" = Some 5%Z
  /\ snd (@process_line sample_env sample_builtins "exit 5" initial_world)
     = Some (SystemExit 0)
  /\ snd (@process_line sample_env sample_builtins "exit 5" initial_world)
     <> Some (SystemExit 5).
Proof.
  split; [|repeat split; try reflexivity; discriminate].
  intros E args input hm. unfold cmd_exit.
  destruct (HistoryManager.save hm) as [hm' persisted]. simpl.
  repeat split.
  destruct args as [|a rest]; [reflexivity|].
  destruct (py_int a); reflexivity.
Qed.

(** ** The default streams *)

Section Streams.
Context {E : Env} {B : OsBuiltins}.

Lemma write_stdin s t w : sys_stdin (write s t w) = sys_stdin w.
Proof. destruct s; reflexivity. Qed.
Lemma write_stdout s t w : sys_stdout (write s t w) = sys_stdout w.
Proof. destruct s; reflexivity. Qed.
Lemma write_stderr s t w : sys_stderr (write s t w) = sys_stderr w.
Proof. destruct s; reflexivity. Qed.

Lemma print_error_stdin m w : sys_stdin (print_error m w) = sys_stdin w.
Proof. apply write_stdin. Qed.
Lemma print_error_stdout m w : sys_stdout (print_error m w) = sys_stdout w.
Proof. apply write_stdout. Qed.
Lemma print_error_stderr m w : sys_stderr (print_error m w) = sys_stderr w.
Proof. apply write_stderr. Qed.

Lemma close_stdin s w : sys_stdin (close s w) = sys_stdin w.
Proof. destruct s; reflexivity. Qed.
Lemma close_stdout s w : sys_stdout (close s w) = sys_stdout w.
Proof. destruct s; reflexivity. Qed.
Lemma close_stderr s w : sys_stderr (close s w) = sys_stderr w.
Proof. destruct s; reflexivity. Qed.

Lemma close_opt_stdin o w : sys_stdin (close_opt o w) = sys_stdin w.
Proof. destruct o; [apply close_stdin | reflexivity]. Qed.
Lemma close_opt_stdout o w : sys_stdout (close_opt o w) = sys_stdout w.
Proof. destruct o; [apply close_stdout | reflexivity]. Qed.
Lemma close_opt_stderr o w : sys_stderr (close_opt o w) = sys_stderr w.
Proof. destruct o; [apply close_stderr | reflexivity]. Qed.

Lemma seek0_stdin s w : sys_stdin (seek0 s w) = sys_stdin w.
Proof. destruct s; reflexivity. Qed.
Lemma seek0_stdout s w : sys_stdout (seek0 s w) = sys_stdout w.
Proof. destruct s; reflexivity. Qed.
Lemma seek0_stderr s w : sys_stderr (seek0 s w) = sys_stderr w.
Proof. destruct s; reflexivity. Qed.

Lemma close_all_streams l : forall w,
  sys_stdin (close_all l w) = sys_stdin w
  /\ sys_stdout (close_all l w) = sys_stdout w
  /\ sys_stderr (close_all l w) = sys_stderr w.
Proof.
  unfold close_all. induction l as [|f l IH]; intro w; simpl; [auto|].
  destruct (IH (close f w)) as (H1 & H2 & H3).
  rewrite H1, H2, H3. now rewrite close_stdin, close_stdout, close_stderr.
Qed.

Lemma perform_streams ws : forall w,
  sys_stdin (perform ws w) = sys_stdin w
  /\ sys_stdout (perform ws w) = sys_stdout w
  /\ sys_stderr (perform ws w) = sys_stderr w.
Proof.
  induction ws as [|[c t] ws IH]; intro w; simpl; [auto|].
  destruct c;
    match goal with |- context [perform ws ?w'] => destruct (IH w') as (H1 & H2 & H3) end;
    rewrite H1, H2, H3; now rewrite write_stdin, write_stdout, write_stderr.
Qed.

(** No built-in rebinds a default stream. *)
Lemma execute_streams name args w :
  sys_stdin (fst (execute name args w)) = sys_stdin w
  /\ sys_stdout (fst (execute name args w)) = sys_stdout w
  /\ sys_stderr (fst (execute name args w)) = sys_stderr w.
Proof.
  unfold execute. destruct (lookup name registry) as [f|]; [|auto].
  cbn [fst set_history set_appended sys_stdin sys_stdout sys_stderr].
  match goal with |- context [perform ?ws ?w'] => destruct (perform_streams ws w') as (H1 & H2 & H3) end.
  rewrite H1, H2, H3. auto.
Qed.

Lemma open_streams path mode w :
  sys_stdin (fst (open path mode w)) = sys_stdin w
  /\ sys_stdout (fst (open path mode w)) = sys_stdout w
  /\ sys_stderr (fst (open path mode w)) = sys_stderr w.
Proof. unfold open. destruct (open_fails path mode); auto. Qed.

Lemma redirect_loop_streams ops toks w :
  sys_stdin (fst (redirect_loop ops toks w)) = sys_stdin w
  /\ sys_stdout (fst (redirect_loop ops toks w)) = sys_stdout w
  /\ sys_stderr (fst (redirect_loop ops toks w)) = sys_stderr w.
Proof.
  induction ops as [|op ops IH]; simpl; [auto|].
  destruct (mem op toks); [|exact IH].
  destruct (index op toks + 1 <? List.length toks)%nat; [|auto].
  match goal with |- context [open ?p ?m w] =>
    pose proof (open_streams p m w) as H; destruct (open p m w) as [w' [f|msg]] end;
    exact H.
Qed.

Lemma parse_redirections_streams toks w :
  sys_stdin (fst (parse_redirections toks w)) = sys_stdin w
  /\ sys_stdout (fst (parse_redirections toks w)) = sys_stdout w
  /\ sys_stderr (fst (parse_redirections toks w)) = sys_stderr w.
Proof.
  unfold parse_redirections.
  pose proof (redirect_loop_streams stderr_ops toks w) as H1.
  destruct (redirect_loop stderr_ops toks w) as [w1 [[clean1 ferr]|msg]]; simpl in H1.
  - pose proof (redirect_loop_streams stdout_ops clean1 w1) as H2.
    destruct (redirect_loop stdout_ops clean1 w1) as [w2 [[clean2 fout]|msg]]; simpl in *.
    + intuition congruence.
    + rewrite print_error_stdin, print_error_stdout, print_error_stderr.
      intuition congruence.
  - simpl. rewrite print_error_stdin, print_error_stdout, print_error_stderr. exact H1.
Qed.

Lemma log_call_streams c w :
  sys_stdin (log_call c w) = sys_stdin w
  /\ sys_stdout (log_call c w) = sys_stdout w
  /\ sys_stderr (log_call c w) = sys_stderr w.
Proof. auto. Qed.

Lemma subprocess_run_streams tokens exe o e w :
  sys_stdin (subprocess_run tokens exe o e w) = sys_stdin w
  /\ sys_stdout (subprocess_run tokens exe o e w) = sys_stdout w
  /\ sys_stderr (subprocess_run tokens exe o e w) = sys_stderr w.
Proof.
  unfold subprocess_run. destruct (popen_fails tokens exe); [|auto].
  now rewrite print_error_stdin, print_error_stdout, print_error_stderr.
Qed.

Ltac restore_streams :=
  repeat first
    [ rewrite close_opt_stdin | rewrite close_opt_stdout | rewrite close_opt_stderr
    | rewrite print_error_stdin | rewrite print_error_stdout | rewrite print_error_stderr
    | rewrite seek0_stdin | rewrite seek0_stdout | rewrite seek0_stderr
    | progress cbn [fst snd sys_stdin sys_stdout sys_stderr set_stdin set_stdout
                    set_stderr log_call rebind] ].

Lemma run_single_command_streams tokens w :
  same_streams w (fst (run_single_command tokens w)).
Proof.
  unfold run_single_command, same_streams.
  destruct (nonempty tokens); [|simpl; auto].
  simpl negb. cbn iota.
  pose proof (parse_redirections_streams tokens w) as Hp.
  destruct (parse_redirections tokens w) as [w1 [r|]]; simpl in Hp; [|exact Hp].
  destruct (clean_tokens r) as [|cmd args]; [exact Hp|].
  destruct (is_builtin cmd).
  - match goal with |- context [execute cmd args ?w'] =>
      pose proof (execute_streams cmd args w') as He;
      destruct (execute cmd args w') as [w2 e] end.
    simpl in He. destruct He as (He1 & He2 & He3).
    assert (Hin : sys_stdin w2 = sys_stdin w).
    { rewrite He1. destruct (stderr_dest r), (stdout_dest r); simpl; apply Hp. }
    destruct e as [[msg|code|]|]; restore_streams; intuition.
  - destruct (find_executable cmd) as [exe|]; [destruct (truthy exe)|];
      restore_streams;
      try match goal with |- context [subprocess_run ?t ?x ?o ?e ?w'] =>
        destruct (subprocess_run_streams t x o e w') as (-> & -> & ->) end;
      exact Hp.
Qed.

(** An iteration of the pipeline loop restores [sys.stdout] and
    [sys.stderr] always, and [sys.stdin] unless it is left by the exception of
    [tempfile.TemporaryFile], the only [Exception] that leaves an iteration:
    then [sys.stdin] stays bound to the stream of the previous stage. *)
Lemma stage_streams n i toks ps w :
  sys_stdout (fst (fst (stage n i toks ps w))) = sys_stdout w
  /\ sys_stderr (fst (fst (stage n i toks ps w))) = sys_stderr w
  /\ match snd (stage n i toks ps w) with
     | Raise (Exception _) =>
         sys_stdin (fst (fst (stage n i toks ps w)))
         = match prev_stdin ps with Some s => s | None => sys_stdin w end
     | _ => sys_stdin (fst (fst (stage n i toks ps w))) = sys_stdin w
     end.
Proof.
  unfold stage.
  pose proof (parse_redirections_streams toks w) as Hp.
  destruct (parse_redirections toks w) as [w1 [r|]]; simpl in Hp;
    [|cbn [fst snd]; intuition].
  destruct (clean_tokens r) as [|cmd args]; [cbn [fst snd]; intuition|].
  destruct Hp as (Hp1 & Hp2 & Hp3).
  assert (Hout : forall x, sys_stdout (rebind set_stdin x w1) = sys_stdout w).
  { intros [x|]; simpl; exact Hp2. }
  assert (Herr0 : forall x, sys_stderr (rebind set_stdin x w1) = sys_stderr w).
  { intros [x|]; simpl; exact Hp3. }
  destruct (is_builtin cmd).
  - destruct (negb (i =? n - 1)%nat).
    + unfold TemporaryFile.
      destruct (tempfile_fails _) as [msg|].
      * cbn [fst snd]. rewrite Hout, Herr0.
        destruct (prev_stdin ps); cbn [rebind sys_stdin set_stdin]; auto.
      * match goal with |- context [execute cmd args ?w'] =>
          pose proof (execute_streams cmd args w') as He;
          destruct (execute cmd args w') as [w2 e] end.
        simpl in He. destruct He as (He1 & He2 & He3).
        assert (Herr : sys_stderr w2 = sys_stderr w) by (rewrite He3; apply Herr0).
        destruct e as [[msg|code|]|]; restore_streams; rewrite ?Hout; auto.
    + match goal with |- context [execute cmd args ?w'] =>
        pose proof (execute_streams cmd args w') as He;
        destruct (execute cmd args w') as [w2 e] end.
      simpl in He. destruct He as (He1 & He2 & He3).
      assert (Herr : sys_stderr w2 = sys_stderr w).
      { rewrite He3. destruct (stdout_dest r), (prev_stdin ps); simpl; exact Hp3. }
      destruct e as [[msg|code|]|]; restore_streams; rewrite ?Hout; auto.
  - destruct (find_executable cmd) as [exe|]; [|restore_streams; auto].
    destruct (negb (truthy exe)); [restore_streams; auto|].
    destruct (popen_fails _ exe); [restore_streams; auto|].
    destruct (negb (i =? n - 1)%nat); restore_streams; auto.
Qed.

Lemma stages_streams commands : forall n i ps w,
  sys_stdout (fst (fst (stages n i commands ps w))) = sys_stdout w
  /\ sys_stderr (fst (fst (stages n i commands ps w))) = sys_stderr w
  /\ match snd (stages n i commands ps w) with
     | Some (Exception _) => True
     | _ => sys_stdin (fst (fst (stages n i commands ps w))) = sys_stdin w
     end.
Proof.
  induction commands as [|c rest IH]; intros n i ps w; simpl; [auto|].
  pose proof (stage_streams n i c ps w) as Hs.
  destruct (stage n i c ps w) as [[w1 ps1] fl]. cbn [fst snd] in Hs.
  destruct Hs as (Ho & He & Hi). destruct fl as [| |e]; cbn [fst snd].
  - specialize (IH n (S i) ps1 w1). destruct IH as (Io & Ie & Ii).
    rewrite Io, Ie. repeat split; auto.
    destruct (snd (stages n (S i) rest ps1 w1)) as [[msg|code|]|]; congruence.
  - auto.
  - destruct e; auto.
Qed.

Lemma run_pipeline_streams commands w :
  sys_stdout (fst (run_pipeline commands w)) = sys_stdout w
  /\ sys_stderr (fst (run_pipeline commands w)) = sys_stderr w
  /\ match snd (run_pipeline commands w) with
     | Some (Exception _) => True
     | _ => sys_stdin (fst (run_pipeline commands w)) = sys_stdin w
     end.
Proof.
  unfold run_pipeline.
  destruct (nonempty commands); simpl; [|auto].
  pose proof (stages_streams commands (List.length commands) 0
                {| prev_stdin := None; to_close := [] |} w) as Hs.
  destruct (stages _ _ _ _ _) as [[w1 ps1] [e|]]; cbn [fst snd] in *; [exact Hs|].
  destruct (close_all_streams (to_close ps1) w1) as (H1 & H2 & H3).
  rewrite H1, H2, H3. exact Hs.
Qed.

End Streams.

(** C3 fails in the program on one exit path.  [run_single_command] binds
    [sys.stdout] and [sys.stderr] as before the call on every path, and an
    iteration of the loop of [run_pipeline] does so for [sys.stdout] and
    [sys.stderr] on every path and for [sys.stdin] whenever the built-in
    returned or raised.  But the iteration rebinds [sys.stdin] and calls
    [tempfile.TemporaryFile] before its [try]: when that call raises, the
    exception is the only [Exception] that leaves the iteration, and
    [sys.stdin] stays bound to the stream of the previous stage.  In
    [echo hi | cat | wc], with the second temporary file refused,
    [run_pipeline] ends with [sys.stdin] bound to the buffer of [echo]. *)
Theorem stdin_stays_rebound_when_buffer_fails :
  (forall (E : Env) (B : OsBuiltins) tokens w,
     same_streams w (fst (run_single_command tokens w)))
  /\ (forall (E : Env) (B : OsBuiltins) n i cmd_tokens ps w,
        let after := fst (fst (stage n i cmd_tokens ps w)) in
        sys_stdout after = sys_stdout w
        /\ sys_stderr after = sys_stderr w
        /\ match snd (stage n i cmd_tokens ps w) with
           | Raise (Exception _) =>
               sys_stdin after
               = match prev_stdin ps with Some s => s | None => sys_stdin w end
           | _ => sys_stdin after = sys_stdin w
           end)
  /\ (forall (E : Env) (B : OsBuiltins) commands w,
        let after := fst (run_pipeline commands w) in
        sys_stdout after = sys_stdout w
        /\ sys_stderr after = sys_stderr w
        /\ match snd (run_pipeline commands w) with
           | Some (Exception _) => True
           | _ => sys_stdin after = sys_stdin w
           end)
  /\ (let ran := @process_line crowded_env sample_builtins "echo hi | cat | wc"
                   initial_world in
      snd ran = Some (Exception "[Errno 24] Too many open files: '/tmp'")
      /\ sys_stdin initial_world = Console Stdin
      /\ sys_stdin (fst ran) = Handle 0
      /\ nth_error (objects (fst ran)) 0 = Some (temp_buffer (line_of "hi"))
      /\ calls (fst ran)
         = [BuiltinCall "echo" ["hi"] (Console Stdin) (Handle 0) (Console Stderr) None
              [(Out, line_of "hi")]]).
Proof.
  split; [intros; apply run_single_command_streams|].
  split; [intros; apply stage_streams|].
  split; [intros; apply run_pipeline_streams|].
  vm_compute. repeat split; reflexivity.
Qed.


(** ** Redirection resolver *)

Lemma mem_false_iff x l : mem x l = false <-> ~ In x l.
Proof.
  induction l as [|y l IH]; simpl; [tauto|].
  rewrite orb_false_iff, IH, String.eqb_neq. intuition congruence.
Qed.

(** [l.index(x)] splits [l] at the leftmost occurrence of [x]. *)
Lemma index_split x l :
  mem x l = true ->
  exists pre post,
    l = pre ++ x :: post /\ ~ In x pre /\ index x l = List.length pre.
Proof.
  induction l as [|y l IH]; simpl; [discriminate|].
  intro H. destruct (String.eqb y x) eqn:Eyx.
  - apply String.eqb_eq in Eyx. subst y. exists [], l. simpl. auto.
  - rewrite String.eqb_sym, Eyx in H. simpl in H.
    destruct (IH H) as (pre & post & -> & Hpre & Hidx).
    exists (y :: pre), post. simpl. rewrite Hidx. repeat split; auto.
    apply String.eqb_neq in Eyx. intuition.
Qed.

Lemma del_slice_pair {A} (pre : list A) a b post :
  del_slice (List.length pre) (List.length pre + 2) (pre ++ a :: b :: post) = pre ++ post.
Proof.
  unfold del_slice. rewrite firstn_app, firstn_all, Nat.sub_diag. simpl.
  rewrite app_nil_r. f_equal.
  rewrite skipn_app, skipn_all2 by lia.
  replace (List.length pre + 2 - List.length pre) with 2 by lia. reflexivity.
Qed.

Lemma nth_after {A} (pre : list A) a b post d :
  nth (List.length pre + 1) (pre ++ a :: b :: post) d = b.
Proof.
  rewrite app_nth2 by lia.
  replace (List.length pre + 1 - List.length pre) with 1 by lia. reflexivity.
Qed.

Section Resolver.
Context {E : Env}.

(** The loop of the source finds what [scan] describes, whatever the state;
    the mode it computes from the spelling of the operator is the one of the
    operator's class. *)
Lemma redirect_loop_scan tokens lower : forall higher,
  Forall (fun o => ~ In o tokens) higher ->
  Forall (fun op => (if contains ">>" op then "a" else "w") = spec_mode op) lower ->
  exists clean t,
    scan (higher ++ lower) tokens clean t
    /\ forall w,
         redirect_loop lower tokens w =
         match open_target t w with
         | (w', inl f) => (w', inl (clean, f))
         | (w', inr msg) => (w', inr msg)
         end.
Proof.
  induction lower as [|op lower IH]; intros higher Hhigher Hmode.
  - exists tokens, None. split; [|reflexivity].
    apply scan_absent. now rewrite app_nil_r.
  - inversion Hmode as [|? ? Hop Hlower]; subst.
    cbn [redirect_loop]. destruct (mem op tokens) eqn:Hmem.
    + destruct (index_split op tokens Hmem) as (pre & post & Htok & Hpre & Hidx).
      rewrite Hidx. destruct post as [|path post].
      * exists tokens, None. split.
        -- now apply (scan_no_path _ _ higher op lower pre).
        -- intro w. subst tokens. rewrite length_app. simpl.
           replace (List.length pre + 1 <? List.length pre + 1)%nat with false
             by (symmetry; apply Nat.ltb_ge; lia).
           reflexivity.
      * exists (pre ++ post), (Some (path, spec_mode op)). split.
        -- now apply (scan_pair _ _ higher op lower pre path post).
        -- intro w. subst tokens. rewrite length_app. simpl List.length.
           replace (List.length pre + 1 <? List.length pre + S (S (List.length post)))%nat
             with true by (symmetry; apply Nat.ltb_lt; lia).
           rewrite nth_after, del_slice_pair, Hop. cbn [open_target].
           destruct (open path (spec_mode op) w) as [w' [f|msg]]; reflexivity.
    + destruct (IH (higher ++ [op])) as (clean & t & Hscan & Hloop).
      * apply Forall_app. split; [exact Hhigher|].
        constructor; [now apply mem_false_iff | constructor].
      * exact Hlower.
      * exists clean, t. split; [|exact Hloop].
        now rewrite <- app_assoc in Hscan.
Qed.

Lemma stderr_ops_modes :
  Forall (fun op => (if contains ">>" op then "a" else "w") = spec_mode op) stderr_ops.
Proof. repeat constructor. Qed.

Lemma stdout_ops_modes :
  Forall (fun op => (if contains ">>" op then "a" else "w") = spec_mode op) stdout_ops.
Proof. repeat constructor. Qed.

(** [parse_redirections] is the scan for the stderr operators followed by
    the scan for the stdout operators on what the first one left. *)
Lemma parse_redirections_scans tokens :
  exists tokens1 e clean o,
    scan stderr_ops tokens tokens1 e
    /\ scan stdout_ops tokens1 clean o
    /\ forall w, parse_redirections tokens w = resolved e o clean w.
Proof.
  destruct (redirect_loop_scan tokens stderr_ops [] (Forall_nil _) stderr_ops_modes)
    as (tokens1 & e & Hs1 & Hl1).
  destruct (redirect_loop_scan tokens1 stdout_ops [] (Forall_nil _) stdout_ops_modes)
    as (clean & o & Hs2 & Hl2).
  exists tokens1, e, clean, o. split; [exact Hs1|]. split; [exact Hs2|].
  intro w. unfold parse_redirections, resolved.
  rewrite Hl1. destruct (open_target e w) as [w1 [f_err|msg]]; [|reflexivity].
  rewrite Hl2. destruct (open_target o w1) as [w2 [f_out|msg]]; reflexivity.
Qed.

End Resolver.


(** *** A trailing operator *)

Lemma stderr_ops_incl : incl stderr_ops redirection_ops.
Proof. unfold redirection_ops. apply incl_appl, incl_refl. Qed.

Lemma stdout_ops_incl : incl stdout_ops redirection_ops.
Proof. unfold redirection_ops. apply incl_appr, incl_refl. Qed.

Lemma write_calls s t w : calls (write s t w) = calls w.
Proof. destruct s; reflexivity. Qed.

Lemma perform_calls ws : forall w, calls (perform ws w) = calls w.
Proof.
  induction ws as [|[c t] ws IH]; intro w; simpl; [reflexivity|].
  destruct c; rewrite IH; apply write_calls.
Qed.

Lemma close_opt_calls o w : calls (close_opt o w) = calls w.
Proof. destruct o as [[]|]; reflexivity. Qed.

Section Trailing.
Context {E : Env} {B : OsBuiltins}.

Lemma is_builtin_registry name :
  is_builtin name = true -> exists f, lookup name registry = Some f.
Proof.
  unfold is_builtin, builtin_names, registry. cbn [mem existsb lookup].
  intro H.
  repeat match goal with
         | |- context [String.eqb name ?k] => destruct (String.eqb name k); [eexists; reflexivity|]
         end.
  discriminate.
Qed.

(** What [open_target] adds to the objects when it succeeds. *)
Lemma open_target_objects t w w' f :
  open_target t w = (w', inl f) ->
  objects w' = objects w ++
    match t with
    | Some (path, mode) =>
        [{| f_name := Some path; f_mode := mode; f_data := EmptyString;
            f_pos := 0; f_closed := false |}]
    | None => []
    end.
Proof.
  destruct t as [[path mode]|]; simpl.
  - unfold open. destruct (open_fails path mode); [discriminate|].
    intro H. inversion H; subst. reflexivity.
  - intro H. inversion H; subst. now rewrite app_nil_r.
Qed.

Lemma resolved_objects e o clean w w' r :
  resolved e o clean w = (w', Some r) ->
  clean_tokens r = clean
  /\ objects w' = objects w ++
       match e with
       | Some (path, mode) =>
           [{| f_name := Some path; f_mode := mode; f_data := EmptyString;
               f_pos := 0; f_closed := false |}]
       | None => []
       end ++
       match o with
       | Some (path, mode) =>
           [{| f_name := Some path; f_mode := mode; f_data := EmptyString;
               f_pos := 0; f_closed := false |}]
       | None => []
       end.
Proof.
  unfold resolved.
  destruct (open_target e w) as [w1 [f_err|msg]] eqn:He; [|discriminate].
  destruct (open_target o w1) as [w2 [f_out|msg]] eqn:Ho; [|discriminate].
  intro H. inversion H; subst. split; [reflexivity|].
  rewrite (open_target_objects _ _ _ _ Ho), (open_target_objects _ _ _ _ He).
  now rewrite app_assoc.
Qed.

Lemma index_leftmost x pre post :
  ~ In x pre -> index x (pre ++ x :: post) = List.length pre.
Proof.
  induction pre as [|y pre IH]; intro Hpre; simpl.
  - now rewrite String.eqb_refl.
  - destruct (String.eqb y x) eqn:Eyx.
    + apply String.eqb_eq in Eyx. subst y. exfalso. apply Hpre. now left.
    + rewrite IH; [reflexivity|]. intro Hin. apply Hpre. now right.
Qed.

Lemma honoured_skip higher tokens rest :
  Forall (fun o => ~ In o tokens) higher ->
  honoured (higher ++ rest) tokens = honoured rest tokens.
Proof.
  induction 1 as [|o higher Ho _ IH]; [reflexivity|].
  cbn [app honoured]. apply mem_false_iff in Ho. now rewrite Ho.
Qed.

(** What a scan found, in terms of the index the loop honours. *)
Lemma scan_honoured ops tokens clean t :
  scan ops tokens clean t ->
  (t = None /\ clean = tokens /\ honoured ops tokens = None)
  \/ exists op pre path post,
       In op ops /\ tokens = pre ++ op :: path :: post
       /\ t = Some (path, spec_mode op) /\ clean = pre ++ post
       /\ honoured ops tokens = Some (List.length pre).
Proof.
  intro H. inversion H as [Habs | higher op lower pre Hops Hhigher Htok Hpre
                           | higher op lower pre path post Hops Hhigher Htok Hpre]; subst.
  - left. repeat split.
    rewrite <- (app_nil_r ops). now rewrite honoured_skip.
  - left. repeat split.
    rewrite honoured_skip by assumption. cbn [honoured].
    assert (Hm : mem op (pre ++ [op]) = true).
    { destruct (mem op (pre ++ [op])) eqn:Em; [reflexivity|].
      apply mem_false_iff in Em. exfalso. apply Em, in_or_app. right. now left. }
    rewrite Hm, index_leftmost by assumption. rewrite length_app. cbn [List.length].
    assert (Hlt : (List.length pre + 1 <? List.length pre + 1)%nat = false)
      by (apply Nat.ltb_ge; lia).
    now rewrite Hlt.
  - right. exists op, pre, path, post. repeat split; try reflexivity.
    + apply in_or_app. right. now left.
    + rewrite honoured_skip by assumption. cbn [honoured].
      assert (Hm : mem op (pre ++ op :: path :: post) = true).
      { destruct (mem op (pre ++ op :: path :: post)) eqn:Em; [reflexivity|].
        apply mem_false_iff in Em. exfalso. apply Em, in_or_app. right. now left. }
      rewrite Hm, index_leftmost by assumption. rewrite length_app. cbn [List.length].
      assert (Hlt : (List.length pre + 1 <? List.length pre + S (S (List.length post)))%nat
                    = true) by (apply Nat.ltb_lt; lia).
      now rewrite Hlt.
Qed.

(** A scan that does not take the last token as a path leaves it in place,
    and what it takes stands before it. *)
Lemma scan_keeps_last ops init op clean t :
  incl ops redirection_ops ->
  scan ops (init ++ [op]) clean t ->
  takes_last ops (init ++ [op]) = false ->
  exists c, clean = c ++ [op] /\ taken init t c /\ left_by ops (init ++ [op]) = clean.
Proof.
  intros Hincl Hscan Hlast. unfold takes_last, left_by in *.
  destruct (scan_honoured _ _ _ _ Hscan)
    as [(-> & -> & Hh) | (o & pre & path & post & Ho & Htok & -> & -> & Hh)];
    rewrite Hh in *.
  - exists init. repeat split. constructor.
  - apply Nat.eqb_neq in Hlast. rewrite Htok in Hlast |- *.
    rewrite length_app in Hlast. cbn [List.length] in Hlast.
    destruct post as [|x post] using rev_ind; [cbn [List.length] in Hlast; lia|].
    clear IHpost.
    change (pre ++ o :: path :: post ++ [x]) with (pre ++ [o; path] ++ post ++ [x]) in Htok.
    rewrite !app_assoc in Htok. apply app_inj_tail in Htok. destruct Htok as [Hinit <-].
    exists (pre ++ post). split; [now rewrite app_assoc|]. split.
    + rewrite Hinit, <- app_assoc. apply taken_pair; [now apply Hincl | reflexivity].
    + apply del_slice_pair.
Qed.

Lemma resolved_calls e o clean w w' r :
  resolved e o clean w = (w', Some r) ->
  calls w' = calls w
  /\ stdout_dest r = file_out r /\ stderr_dest r = file_err r.
Proof.
  assert (Hopen : forall t w0 w1 f, open_target t w0 = (w1, inl f) -> calls w1 = calls w0).
  { intros [[p m]|] w0 w1 f; simpl.
    - unfold open. destruct (open_fails p m); [discriminate|].
      intro H. inversion H; subst. reflexivity.
    - intro H. inversion H; subst. reflexivity. }
  unfold resolved.
  destruct (open_target e w) as [w1 [f_err|msg]] eqn:He; [|discriminate].
  destruct (open_target o w1) as [w2 [f_out|msg]] eqn:Ho; [|discriminate].
  intro H. inversion H; subst. cbn [stdout_dest stderr_dest file_out file_err].
  rewrite (Hopen _ _ _ _ Ho), (Hopen _ _ _ _ He). auto.
Qed.


End Trailing.



(** ** Pipelines *)

(** C2 fails in the program: a built-in stage of a pipeline runs with
    [sys.stderr] as it was, and the target of its [2>] is opened, left empty
    and closed.  In [type 2> err.txt | echo x] the message of [type] goes to
    the console; the same command run alone writes it to the file, and an
    external command in the same position is started with the file as its
    stderr. *)
Theorem pipeline_builtin_ignores_stderr_redirection :
  let run line := fst (@process_line sample_env sample_builtins line initial_world) in
  objects (run "type 2> err.txt | echo x")
  = [{| f_name := Some "err.txt"; f_mode := "w"; f_data := EmptyString;
        f_pos := 0; f_closed := true |};
     {| f_name := None; f_mode := "w+"; f_data := EmptyString;
        f_pos := 0; f_closed := true |}]
  /\ console (run "type 2> err.txt | echo x")
     = [(Stderr, error_text "type: missing argument"); (Stdout, line_of "x")]
  /\ calls (run "type 2> err.txt | echo x")
     = [BuiltinCall "type" [] (Console Stdin) (Handle 1) (Console Stderr) None
          [(Err, error_text "type: missing argument")];
        BuiltinCall "echo" ["x"] (Handle 1) (Console Stdout) (Console Stderr)
          (Some EmptyString) [(Out, line_of "x")]]
  /\ objects (run "type 2> err.txt")
     = [{| f_name := Some "err.txt"; f_mode := "w";
           f_data := error_text "type: missing argument";
           f_pos := 32; f_closed := true |}]
  /\ console (run "type 2> err.txt") = []
  /\ calls (run "sort 2> err.txt | echo x")
     = [Popen ["sort"] "/bin/sort" Inherit PIPE (To (Handle 0)) None;
        BuiltinCall "echo" ["x"] (ProcStdout 0) (Console Stdout) (Console Stderr)
          None [(Out, line_of "x")]].
Proof. repeat split; reflexivity. Qed.

(** *** Objects *)

Lemma update_nth_length {A} (f : A -> A) l : forall n,
  List.length (update_nth n f l) = List.length l.
Proof. induction l as [|x l IH]; intros [|n]; simpl; auto. Qed.

Lemma update_nth_same {A} (f : A -> A) l : forall n,
  nth_error (update_nth n f l) n = option_map f (nth_error l n).
Proof. induction l as [|x l IH]; intros [|n]; simpl; auto. Qed.

Lemma update_nth_other {A} (f : A -> A) l : forall n k,
  k <> n -> nth_error (update_nth n f l) k = nth_error l k.
Proof.
  induction l as [|x l IH]; intros [|n] [|k] H; simpl; auto; try congruence.
Qed.

Lemma write_length s t w : List.length (objects (write s t w)) = List.length (objects w).
Proof. destruct s; simpl; auto. apply update_nth_length. Qed.

Lemma write_other s t w h :
  s <> Handle h -> nth_error (objects (write s t w)) h = nth_error (objects w) h.
Proof.
  destruct s as [d|k|p]; simpl; auto.
  intro H. apply update_nth_other. congruence.
Qed.

Lemma perform_length ws : forall w,
  List.length (objects (perform ws w)) = List.length (objects w).
Proof.
  induction ws as [|[c t] ws IH]; intro w; simpl; [reflexivity|].
  destruct c; rewrite IH; apply write_length.
Qed.

Lemma close_length s w : List.length (objects (close s w)) = List.length (objects w).
Proof. destruct s; simpl; auto. apply update_nth_length. Qed.

Lemma close_closed s w h o :
  nth_error (objects w) h = Some o -> f_closed o = true ->
  exists o', nth_error (objects (close s w)) h = Some o' /\ f_closed o' = true.
Proof.
  intros Hn Hc. destruct s as [d|k|p]; simpl; eauto.
  destruct (Nat.eq_dec h k) as [->|Hne].
  - rewrite update_nth_same, Hn. simpl. eauto.
  - rewrite update_nth_other by exact Hne. eauto.
Qed.

Lemma close_closes h w o :
  nth_error (objects w) h = Some o ->
  exists o', nth_error (objects (close (Handle h) w)) h = Some o' /\ f_closed o' = true.
Proof. intro Hn. simpl. rewrite update_nth_same, Hn. simpl. eauto. Qed.

Lemma close_all_length l : forall w,
  List.length (objects (close_all l w)) = List.length (objects w).
Proof.
  unfold close_all. induction l as [|f l IH]; intro w; simpl; [reflexivity|].
  rewrite IH. apply close_length.
Qed.

Lemma close_all_keeps_closed l : forall w h o,
  nth_error (objects w) h = Some o -> f_closed o = true ->
  exists o', nth_error (objects (close_all l w)) h = Some o' /\ f_closed o' = true.
Proof.
  unfold close_all. induction l as [|f l IH]; intros w h o Hn Hc; simpl; [eauto|].
  destruct (close_closed f w h o Hn Hc) as (o' & Hn' & Hc'). eapply IH; eauto.
Qed.

(** The cleanup loop closes every object it is given. *)
Lemma close_all_closes l : forall w h,
  In (Handle h) l -> h < List.length (objects w) ->
  exists o, nth_error (objects (close_all l w)) h = Some o /\ f_closed o = true.
Proof.
  induction l as [|f l IH]; intros w h Hin Hlt; [contradiction|].
  destruct Hin as [-> | Hin].
  - destruct (nth_error (objects w) h) as [o|] eqn:Hn.
    + destruct (close_closes h w o Hn) as (o' & Hn' & Hc').
      change (close_all (Handle h :: l) w) with (close_all l (close (Handle h) w)).
      eapply close_all_keeps_closed; eauto.
    + apply nth_error_None in Hn. lia.
  - change (close_all (f :: l) w) with (close_all l (close f w)).
    apply IH; [exact Hin|]. now rewrite close_length.
Qed.

Lemma close_all_calls l : forall w, calls (close_all l w) = calls w.
Proof.
  unfold close_all. induction l as [|f l IH]; intro w; simpl; [reflexivity|].
  rewrite IH. destruct f; reflexivity.
Qed.

Lemma print_error_calls m w : calls (print_error m w) = calls w.
Proof. apply write_calls. Qed.

Lemma print_error_length m w :
  List.length (objects (print_error m w)) = List.length (objects w).
Proof. apply write_length. Qed.

(** While [sys.stdout] is an open buffer that [sys.stderr] is not bound to,
    the buffer receives exactly the text the built-in writes to its standard
    output. *)
Lemma perform_buffer ws : forall w h o,
  sys_stdout w = Handle h -> sys_stderr w <> Handle h ->
  nth_error (objects w) h = Some o -> f_closed o = false ->
  exists p,
    nth_error (objects (perform ws w)) h
    = Some {| f_name := f_name o; f_mode := f_mode o;
              f_data := f_data o ++ out_text ws; f_pos := p; f_closed := false |}.
Proof.
  induction ws as [|[c t] ws IH]; intros w h o Hout Herr Hn Hc.
  - simpl. exists (f_pos o). rewrite append_nil_r, Hn. destruct o; simpl in *. now subst.
  - destruct c; cbn [perform out_text].
    + destruct (IH (write (sys_stdout w) t w) h
                  {| f_name := f_name o; f_mode := f_mode o; f_data := f_data o ++ t;
                     f_pos := String.length (f_data o ++ t); f_closed := false |})
        as (p & Hp).
      * now rewrite write_stdout.
      * now rewrite write_stderr.
      * rewrite Hout. simpl. rewrite update_nth_same, Hn. simpl. now rewrite Hc.
      * reflexivity.
      * exists p. rewrite Hp. simpl. now rewrite append_assoc.
    + destruct (IH (write (sys_stderr w) t w) h o) as (p & Hp).
      * now rewrite write_stdout.
      * now rewrite write_stderr.
      * rewrite write_other; assumption.
      * exact Hc.
      * exists p. exact Hp.
Qed.

Lemma write_nprocs s t w : nprocs (write s t w) = nprocs w.
Proof. destruct s; reflexivity. Qed.

Lemma perform_nprocs ws : forall w, nprocs (perform ws w) = nprocs w.
Proof.
  induction ws as [|[c t] ws IH]; intro w; simpl; [reflexivity|].
  destruct c; rewrite IH; apply write_nprocs.
Qed.

Section Pipelines.
Context {E : Env} {B : OsBuiltins}.

Lemma open_target_success t w w' f :
  open_target t w = (w', inl f) ->
  w' = set_objects (objects w ++ new_object t) w
  /\ f = match t with Some _ => Some (Handle (List.length (objects w))) | None => None end.
Proof.
  destruct t as [[path mode]|]; simpl.
  - unfold open. destruct (open_fails path mode); [discriminate|].
    intro H. inversion H; subst. auto.
  - intro H. inversion H; subst. rewrite app_nil_r. destruct w'; auto.
Qed.

Lemma parse_success toks w w1 r :
  parse_redirections toks w = (w1, Some r) ->
  calls w1 = calls w
  /\ nprocs w1 = nprocs w
  /\ stdout_dest r = file_out r /\ stderr_dest r = file_err r
  /\ List.length (objects w) <= List.length (objects w1)
  /\ (forall k, k < List.length (objects w) ->
                nth_error (objects w1) k = nth_error (objects w) k)
  /\ (forall h, List.length (objects w) <= h < List.length (objects w1) ->
                file_err r = Some (Handle h) \/ file_out r = Some (Handle h)).
Proof.
  destruct (parse_redirections_scans toks) as (tokens1 & e & clean & o & _ & _ & Hp).
  rewrite Hp. unfold resolved.
  destruct (open_target e w) as [wa [fe|msg]] eqn:He; [|discriminate].
  destruct (open_target o wa) as [wb [fo|msg]] eqn:Ho; [|discriminate].
  intro H. inversion H; subst; clear H. cbn [stdout_dest stderr_dest file_out file_err].
  apply open_target_success in He, Ho. destruct He as [-> ->]. destruct Ho as [-> ->].
  cbn [calls nprocs objects set_objects]. rewrite !length_app.
  repeat split; try lia.
  - intros k Hk. rewrite <- app_assoc. now rewrite nth_error_app1 by lia.
  - intros h Hh.
    destruct e as [[pe me]|]; destruct o as [[po mo]|]; cbn in *.
    all: try (assert (h = List.length (objects w)) as -> by lia; auto).
    + destruct (Nat.eq_dec h (List.length (objects w))) as [->|Hne]; [auto|].
      right. f_equal. f_equal. lia.
    + right. f_equal. f_equal. lia.
    + lia.
Qed.

Lemma execute_builtin cmd args w :
  is_builtin cmd = true ->
  exists wrote,
    calls (fst (execute cmd args w))
    = calls w ++ [BuiltinCall cmd args (sys_stdin w) (sys_stdout w) (sys_stderr w)
                    (readable (sys_stdin w) w) wrote]
    /\ nprocs (fst (execute cmd args w)) = nprocs w
    /\ List.length (objects (fst (execute cmd args w))) = List.length (objects w)
    /\ (forall h o,
          sys_stdout w = Handle h -> sys_stderr w <> Handle h ->
          nth_error (objects w) h = Some o -> f_closed o = false ->
          exists p,
            nth_error (objects (fst (execute cmd args w))) h
            = Some {| f_name := f_name o; f_mode := f_mode o;
                      f_data := f_data o ++ out_text wrote; f_pos := p;
                      f_closed := false |}).
Proof.
  intro Hb. unfold execute. destruct (is_builtin_registry cmd Hb) as [f ->].
  set (eff := f args (readable (sys_stdin w) w) (history_manager w)).
  exists (e_writes eff). cbn [fst calls nprocs objects set_history set_appended].
  rewrite perform_calls, perform_length. repeat split.
  - now rewrite perform_nprocs.
  - intros h o Hout Herr Hn Hc.
    apply (perform_buffer (e_writes eff) _ h o); assumption.
Qed.

Lemma stage_builtin_buffer n i toks ps w w1 r cmd args w' ps' :
  valid_stream (sys_stderr w) w ->
  parse_redirections toks w = (w1, Some r) ->
  clean_tokens r = cmd :: args ->
  is_builtin cmd = true ->
  i <> n - 1 ->
  stage n i toks ps w = (w', ps', Next) ->
  exists wrote cin cerr input,
    calls w' = calls w1 ++ [BuiltinCall cmd args cin (Handle (List.length (objects w1)))
                              cerr input wrote]
    /\ nth_error (objects w1) (List.length (objects w1)) = None
    /\ nth_error (objects w') (List.length (objects w1)) = Some (temp_buffer (out_text wrote))
    /\ prev_stdin ps' = Some (Handle (List.length (objects w1)))
    /\ In (Handle (List.length (objects w1))) (to_close ps').
Proof.
  intros Hvalid Hparse Hclean Hb Hnl Hstage.
  pose proof (parse_redirections_streams toks w) as Hst. rewrite Hparse in Hst.
  cbn [fst] in Hst. destruct Hst as (Hin & Hout & Herr).
  destruct (parse_success _ _ _ _ Hparse) as (Hcalls & _ & _ & _ & Hlen & _ & _).
  unfold stage in Hstage. rewrite Hparse, Hclean, Hb in Hstage.
  apply Nat.eqb_neq in Hnl. rewrite Hnl in Hstage. cbn [negb] in Hstage.
  unfold TemporaryFile in Hstage.
  destruct (tempfile_fails _) as [refused|]; [discriminate|]. cbv beta iota in Hstage.
  set (h := List.length (objects w1)) in *.
  match type of Hstage with context [execute cmd args ?w0] => set (wC := w0) in * end.
  destruct (execute_builtin cmd args wC Hb) as (wrote & Hc & _ & Hl & Hbuf).
  assert (HobjC : objects wC = objects w1 ++ [temp_buffer EmptyString]).
  { unfold wC. destruct (prev_stdin ps); reflexivity. }
  assert (HerrC : sys_stderr wC = sys_stderr w).
  { unfold wC. destruct (prev_stdin ps); simpl; exact Herr. }
  assert (HoutC : sys_stdout wC = Handle h).
  { unfold wC. destruct (prev_stdin ps); reflexivity. }
  assert (HcallsC : calls wC = calls w1).
  { unfold wC. destruct (prev_stdin ps); reflexivity. }
  assert (Hne : sys_stderr wC <> Handle h).
  { rewrite HerrC. intro Hs. rewrite Hs in Hvalid. simpl in Hvalid. unfold h in Hvalid. lia. }
  destruct (Hbuf h (temp_buffer EmptyString) HoutC Hne) as (p & Hp).
  { rewrite HobjC, nth_error_app2 by (unfold h; lia). unfold h. now rewrite Nat.sub_diag. }
  { reflexivity. }
  cbn [temp_buffer f_name f_mode f_data append] in Hp.
  rewrite HoutC, HcallsC in Hc.
  pose proof (execute_streams cmd args wC) as (_ & _ & HerrD).
  assert (HlenA : List.length (objects (rebind set_stdin (prev_stdin ps) w1)) = h).
  { destruct (prev_stdin ps); reflexivity. }
  rewrite HlenA in Hstage.
  destruct (execute cmd args wC) as [wD e]. cbn [fst] in *.
  exists wrote, (sys_stdin wC), (sys_stderr wC), (readable (sys_stdin wC) wC).
  assert (Hfresh : nth_error (objects w1) h = None).
  { apply nth_error_None. unfold h. lia. }
  destruct e as [[msg|code|]|]; inversion Hstage; subst w' ps'; clear Hstage;
    cbn [prev_stdin to_close seek0 calls objects set_objects set_stdin set_stdout].
  - rewrite print_error_calls, update_nth_same.
    unfold print_error. rewrite write_other by (rewrite HerrD; exact Hne).
    rewrite Hp. repeat split; auto. apply in_or_app. right. now left.
  - rewrite update_nth_same, Hp. repeat split; auto. apply in_or_app. right. now left.
Qed.

Lemma parse_calls toks w : calls (fst (parse_redirections toks w)) = calls w.
Proof.
  destruct (parse_redirections_scans toks) as (tokens1 & e & clean & o & _ & _ & Hp).
  rewrite Hp. unfold resolved.
  destruct (open_target e w) as [wa [fe|msg]] eqn:He.
  - apply open_target_success in He. destruct He as [-> ->].
    destruct (open_target o _) as [wb [fo|msg]] eqn:Ho.
    + apply open_target_success in Ho. destruct Ho as [-> ->]. reflexivity.
    + cbn [fst]. rewrite print_error_calls.
      destruct o as [[po mo]|]; [|discriminate]. simpl in Ho. unfold open in Ho.
      destruct (open_fails po mo); inversion Ho; subst; reflexivity.
  - cbn [fst]. rewrite print_error_calls.
    destruct e as [[pe me]|]; [|discriminate]. simpl in He. unfold open in He.
    destruct (open_fails pe me); inversion He; subst; reflexivity.
Qed.

Lemma stage_reads_buffer n i toks ps w h data :
  prev_stdin ps = Some (Handle h) ->
  nth_error (objects w) h = Some (temp_buffer data) ->
  calls (fst (fst (stage n i toks ps w))) = calls w
  \/ exists c rest,
       calls (fst (fst (stage n i toks ps w))) = calls w ++ c :: rest
       /\ call_stdin c = Some (Handle h) /\ call_input c = Some data.
Proof.
  intros Hprev Hobj. unfold stage.
  pose proof (parse_calls toks w) as Hpc.
  destruct (parse_redirections toks w) as [w1 [r|]] eqn:Hparse; cbn [fst] in Hpc; [|now left].
  destruct (clean_tokens r) as [|cmd args] eqn:Hclean; [now left|].
  destruct (parse_success _ _ _ _ Hparse) as (_ & _ & _ & _ & Hlen & Hkeep & _).
  assert (Hh : h < List.length (objects w)).
  { apply nth_error_Some. rewrite Hobj. discriminate. }
  assert (Hobj1 : nth_error (objects w1) h = Some (temp_buffer data)).
  { rewrite Hkeep by exact Hh. exact Hobj. }
  rewrite Hprev. cbn [rebind].
  destruct (is_builtin cmd) eqn:Hb.
  - assert (Hgen : forall wC,
      sys_stdin wC = Handle h -> calls wC = calls w1 ->
      nth_error (objects wC) h = Some (temp_buffer data) ->
      exists wrote,
        calls (fst (execute cmd args wC))
        = calls w ++ [BuiltinCall cmd args (Handle h) (sys_stdout wC) (sys_stderr wC)
                        (Some data) wrote]).
    { intros wC HinC HcallsC HobjC.
      destruct (execute_builtin cmd args wC Hb) as (wrote & Hc & _).
      exists wrote. rewrite Hc, HinC, HcallsC, Hpc.
      unfold readable. rewrite HobjC. reflexivity. }
    destruct (negb (i =? n - 1)%nat).
    + unfold TemporaryFile. destruct (tempfile_fails _) as [refused|];
        [left; cbn [fst calls set_stdin]; exact Hpc|].
      right. cbv beta iota.
      match goal with |- context [execute cmd args ?w0] =>
        destruct (Hgen w0) as (wrote & Hc) end.
      * reflexivity.
      * reflexivity.
      * cbn. rewrite nth_error_app1 by lia. exact Hobj1.
      * destruct (execute cmd args _) as [wD e]. cbn [fst] in Hc.
        eexists. exists []. split.
        { destruct e as [[msg|code|]|]; cbn [fst calls seek0 set_objects set_stdin set_stdout];
            rewrite ?print_error_calls; exact Hc. }
        split; reflexivity.
    + right.
      match goal with |- context [execute cmd args ?w0] =>
        destruct (Hgen w0) as (wrote & Hc) end.
      * destruct (stdout_dest r); reflexivity.
      * destruct (stdout_dest r); reflexivity.
      * destruct (stdout_dest r); exact Hobj1.
      * destruct (execute cmd args _) as [wD e]. cbn [fst] in Hc.
        eexists. exists []. split.
        { destruct e as [[msg|code|]|]; cbn [fst calls seek0 set_objects set_stdin set_stdout];
            rewrite ?print_error_calls; exact Hc. }
        split; reflexivity.
  - destruct (find_executable cmd) as [exe|]; [|left; cbn [fst]; now rewrite print_error_calls].
    destruct (negb (truthy exe)); [left; cbn [fst]; now rewrite print_error_calls|].
    destruct (popen_fails (cmd :: args) exe); [left; cbn [fst]; now rewrite print_error_calls|].
    right. unfold readable. rewrite Hobj1. cbn [temp_buffer f_closed f_pos f_data drop].
    destruct (negb (i =? n - 1)%nat); cbn [fst calls log_call].
    + eexists. exists []. rewrite Hpc. split; [reflexivity|]. split; reflexivity.
    + eexists. eexists. rewrite Hpc, <- app_assoc. split; [reflexivity|]. split; reflexivity.
Qed.

(** C4: a built-in stage that is not the last one runs with [sys.stdout]
    bound to a temporary buffer that did not exist before the stage; when
    the built-in is done the buffer holds exactly the text it wrote to its
    standard output, it is open and rewound to its start, it is the input
    handed to the next iteration and it is scheduled for closing.  Whatever
    the next stage is, if it is dispatched at all it reads that buffer, and
    the text it finds there is the complete output of the built-in. *)
Theorem builtin_output_is_next_stage_input
    n i toks next ps w w1 r cmd args w' ps' :
  valid_stream (sys_stderr w) w ->
  parse_redirections toks w = (w1, Some r) ->
  clean_tokens r = cmd :: args ->
  is_builtin cmd = true ->
  i <> n - 1 ->
  stage n i toks ps w = (w', ps', Next) ->
  exists wrote cin cerr input,
    calls w' = calls w1 ++ [BuiltinCall cmd args cin (Handle (List.length (objects w1)))
                              cerr input wrote]
    /\ nth_error (objects w1) (List.length (objects w1)) = None
    /\ nth_error (objects w') (List.length (objects w1)) = Some (temp_buffer (out_text wrote))
    /\ readable (Handle (List.length (objects w1))) w' = Some (out_text wrote)
    /\ prev_stdin ps' = Some (Handle (List.length (objects w1)))
    /\ In (Handle (List.length (objects w1))) (to_close ps')
    /\ (calls (fst (fst (stage n (S i) next ps' w'))) = calls w'
        \/ exists c rest,
             calls (fst (fst (stage n (S i) next ps' w'))) = calls w' ++ c :: rest
             /\ call_stdin c = Some (Handle (List.length (objects w1)))
             /\ call_input c = Some (out_text wrote)).
Proof.
  intros Hvalid Hparse Hclean Hb Hnl Hstage.
  destruct (stage_builtin_buffer n i toks ps w w1 r cmd args w' ps'
              Hvalid Hparse Hclean Hb Hnl Hstage)
    as (wrote & cin & cerr & input & Hcalls & Hfresh & Hbuf & Hprev & Hclose).
  exists wrote, cin, cerr, input.
  repeat (split; [assumption|]).
  split; [unfold readable; now rewrite Hbuf|].
  repeat (split; [assumption|]).
  apply stage_reads_buffer; assumption.
Qed.

(** *** An unresolved command *)

Lemma execute_length name args w :
  List.length (objects (fst (execute name args w))) = List.length (objects w).
Proof.
  unfold execute. destruct (lookup name registry); [|reflexivity].
  cbn [fst objects set_history set_appended]. now rewrite perform_length.
Qed.

Lemma in_push x o l : In x l -> In x (push o l).
Proof. destruct o; simpl; [intro; apply in_or_app; now left | auto]. Qed.

Lemma in_push_same s l : In s (push (Some s) l).
Proof. simpl. apply in_or_app. right. now left. Qed.

(** Every object created in an iteration that goes on to the next stage is
    scheduled for closing. *)
Lemma stage_next_scheduled n i toks ps w w' ps' :
  stage n i toks ps w = (w', ps', Next) ->
  List.length (objects w) <= List.length (objects w')
  /\ (forall x, In x (to_close ps) -> In x (to_close ps'))
  /\ (forall h, List.length (objects w) <= h < List.length (objects w') ->
                In (Handle h) (to_close ps')).
Proof.
  unfold stage.
  destruct (parse_redirections toks w) as [w1 [r|]] eqn:Hparse; [|discriminate].
  destruct (clean_tokens r) as [|cmd args] eqn:Hclean; [discriminate|].
  destruct (parse_success _ _ _ _ Hparse) as (_ & _ & _ & _ & Hlen & _ & Hnew).
  assert (Htc : forall h, List.length (objects w) <= h < List.length (objects w1) ->
                In (Handle h) (push (file_err r) (push (file_out r) (to_close ps)))).
  { intros h Hh. destruct (Hnew h Hh) as [He | Ho].
    - rewrite He. apply in_push_same.
    - apply in_push. rewrite Ho. apply in_push_same. }
  destruct (is_builtin cmd).
  - destruct (negb (i =? n - 1)%nat).
    + unfold TemporaryFile. destruct (tempfile_fails _) as [refused|]; [discriminate|].
      cbv beta iota.
      match goal with |- context [execute cmd args ?w0] =>
        pose proof (execute_length cmd args w0) as Hl;
        destruct (execute cmd args w0) as [wD e] end.
      cbn [fst objects set_stdout set_objects] in Hl.
      assert (HlA : List.length (objects (rebind set_stdin (prev_stdin ps) w1))
                    = List.length (objects w1)).
      { destruct (prev_stdin ps); reflexivity. }
      rewrite length_app, HlA in Hl. cbn [List.length] in Hl. rewrite HlA.
      destruct e as [[msg|code|]|]; intro H; inversion H; subst w' ps'; clear H;
        cbn [to_close seek0 objects set_objects set_stdin set_stdout];
        rewrite update_nth_length, ?print_error_length, Hl.
      all: split; [lia|]; split;
        [ intros x Hx; apply in_or_app; left; now do 2 apply in_push
        | intros h Hh;
          destruct (Nat.eq_dec h (List.length (objects w1))) as [->|Hne];
          [ apply in_or_app; right; now left
          | apply in_or_app; left; apply Htc; lia ] ].
    + match goal with |- context [execute cmd args ?w0] =>
        pose proof (execute_length cmd args w0) as Hl;
        destruct (execute cmd args w0) as [wD e] end.
      cbn [fst] in Hl.
      assert (HlA : List.length (objects (rebind set_stdout (stdout_dest r)
                                   (rebind set_stdin (prev_stdin ps) w1)))
                    = List.length (objects w1)).
      { destruct (prev_stdin ps), (stdout_dest r); reflexivity. }
      rewrite HlA in Hl.
      destruct e as [[msg|code|]|]; intro H; inversion H; subst w' ps'; clear H;
        cbn [to_close objects set_stdin set_stdout];
        rewrite ?print_error_length, Hl.
      all: split; [lia|]; split;
        [ intros x Hx; now do 2 apply in_push | intros h Hh; apply Htc; lia ].
  - destruct (find_executable cmd) as [exe|]; [|discriminate].
    destruct (negb (truthy exe)); [discriminate|].
    destruct (popen_fails (cmd :: args) exe); [discriminate|].
    destruct (negb (i =? n - 1)%nat); intro H; inversion H; subst w' ps'; clear H;
      cbn [to_close objects log_call].
    all: split; [lia|]; split;
      [ intros x Hx; now do 2 apply in_push | intros h Hh; apply Htc; lia ].
Qed.

Lemma dispatched_through_scheduled pre : forall n i ps w w1 ps1,
  dispatched_through n i pre ps w = Some (w1, ps1) ->
  List.length (objects w) <= List.length (objects w1)
  /\ (forall x, In x (to_close ps) -> In x (to_close ps1))
  /\ (forall h, List.length (objects w) <= h < List.length (objects w1) ->
                In (Handle h) (to_close ps1)).
Proof.
  induction pre as [|c pre IH]; intros n i ps w w1 ps1 H; simpl in H.
  - inversion H; subst. repeat split; auto. intros h Hh. lia.
  - destruct (stage n i c ps w) as [[wa psa] fl] eqn:Hs.
    destruct fl; try discriminate.
    destruct (stage_next_scheduled _ _ _ _ _ _ _ Hs) as (L1 & K1 & N1).
    destruct (IH _ _ _ _ _ _ H) as (L2 & K2 & N2).
    split; [lia|]. split; [auto|].
    intros h Hh. destruct (Nat.lt_ge_cases h (List.length (objects wa))).
    + apply K2, N1. lia.
    + apply N2. lia.
Qed.

Lemma dispatched_through_stderr pre : forall n i ps w w1 ps1,
  dispatched_through n i pre ps w = Some (w1, ps1) -> sys_stderr w1 = sys_stderr w.
Proof.
  induction pre as [|c pre IH]; intros n i ps w w1 ps1 H; simpl in H.
  - now inversion H.
  - pose proof (stage_streams n i c ps w) as (_ & Hs & _).
    destruct (stage n i c ps w) as [[wa psa] fl]. cbn [fst] in Hs.
    destruct fl; try discriminate.
    rewrite (IH _ _ _ _ _ _ H). exact Hs.
Qed.

(** The loop, once the stages [pre] have all gone on to the next stage,
    continues with the stages after them. *)
Lemma stages_after pre : forall n i rest ps w w1 ps1,
  dispatched_through n i pre ps w = Some (w1, ps1) ->
  stages n i (pre ++ rest) ps w = stages n (i + List.length pre) rest ps1 w1.
Proof.
  induction pre as [|c pre IH]; intros n i rest ps w w1 ps1 H; simpl in H.
  - inversion H; subst. simpl. now rewrite Nat.add_0_r.
  - simpl. destruct (stage n i c ps w) as [[wa psa] fl].
    destruct fl; try discriminate.
    rewrite (IH _ _ _ _ _ _ _ H). f_equal. lia.
Qed.

Lemma close_all_console l : forall w, console (close_all l w) = console w.
Proof.
  unfold close_all. induction l as [|f l IH]; intro w; simpl; [reflexivity|].
  rewrite IH. destruct f; reflexivity.
Qed.

(** C7: when the stages before it have all been dispatched and the command
    of a stage is neither a built-in nor resolved to an executable, the loop
    ends there.  The pipeline returns normally; its final state is the state
    after that stage's redirections were resolved, with the error printed on
    [sys.stderr] and everything scheduled for closing closed, so it does not
    depend on the stages after it: nothing is dispatched and no file is
    opened for them.  Every object created since the pipeline started, by a
    redirection or as an inter-stage buffer, is closed. *)
Theorem unresolved_command_ends_pipeline
    pre bad post w w1 ps1 w2 r cmd args :
  dispatched_through (List.length (pre ++ bad :: post)) 0 pre
    {| prev_stdin := None; to_close := [] |} w = Some (w1, ps1) ->
  parse_redirections bad w1 = (w2, Some r) ->
  clean_tokens r = cmd :: args ->
  is_builtin cmd = false ->
  find_executable cmd = None ->
  let final := fst (run_pipeline (pre ++ bad :: post) w) in
  run_pipeline (pre ++ bad :: post) w
  = (close_all (push (file_err r) (push (file_out r) (to_close ps1)))
       (print_error (cmd ++ ": command not found") w2), None)
  /\ (sys_stderr w = Console Stderr ->
      console final = console w2 ++ [(Stderr, error_text (cmd ++ ": command not found"))])
  /\ calls final = calls w1
  /\ List.length (objects final) = List.length (objects w2)
  /\ (forall h o, List.length (objects w) <= h ->
                  nth_error (objects final) h = Some o -> f_closed o = true).
Proof.
  intros Hpre Hparse Hclean Hb Hexe final.
  assert (Hrun : run_pipeline (pre ++ bad :: post) w
                 = (close_all (push (file_err r) (push (file_out r) (to_close ps1)))
                      (print_error (cmd ++ ": command not found") w2), None)).
  { unfold run_pipeline.
    assert (Hne : nonempty (pre ++ bad :: post) = true) by (destruct pre; reflexivity).
    rewrite Hne. cbn [negb].
    rewrite (stages_after pre _ _ _ _ _ _ _ Hpre). cbn [stages].
    unfold stage. rewrite Hparse, Hclean, Hb, Hexe. reflexivity. }
  split; [exact Hrun|].
  unfold final. rewrite Hrun. cbn [fst].
  destruct (parse_success _ _ _ _ Hparse) as (Hcalls & _ & _ & _ & Hlen & _ & Hnew).
  destruct (dispatched_through_scheduled _ _ _ _ _ _ _ Hpre) as (L & _ & N).
  split; [|split; [|split]].
  - intro Herr. rewrite close_all_console. unfold print_error.
    pose proof (parse_redirections_streams bad w1) as (_ & _ & He2).
    rewrite Hparse in He2. cbn [fst] in He2.
    rewrite He2, (dispatched_through_stderr _ _ _ _ _ _ _ Hpre), Herr. reflexivity.
  - now rewrite close_all_calls, print_error_calls.
  - now rewrite close_all_length, print_error_length.
  - intros h o Hh Hn.
    assert (Hlt : h < List.length (objects w2)).
    { rewrite <- (print_error_length (cmd ++ ": command not found") w2).
      rewrite <- (close_all_length (push (file_err r) (push (file_out r) (to_close ps1)))).
      apply nth_error_Some. rewrite Hn. discriminate. }
    assert (Hin : In (Handle h) (push (file_err r) (push (file_out r) (to_close ps1)))).
    { destruct (Nat.lt_ge_cases h (List.length (objects w1))).
      - do 2 apply in_push. apply N. lia.
      - destruct (Hnew h (conj H Hlt)) as [He | Ho].
        + rewrite He. apply in_push_same.
        + apply in_push. rewrite Ho. apply in_push_same. }
    destruct (close_all_closes _ (print_error (cmd ++ ": command not found") w2) h Hin)
      as (o' & Hn' & Hc').
    { now rewrite print_error_length. }
    rewrite Hn in Hn'. inversion Hn'; subst. exact Hc'.
Qed.

End Pipelines.

(** [echo hi | type] on the sample system: [echo] writes its line to the
    buffer, object 0, and [type] is run with that buffer as its input. *)
Lemma builtin_output_is_next_stage_input_witness :
  let ps0 := {| prev_stdin := None; to_close := [] |} in
  let st := @stage sample_env sample_builtins 2 0 ["echo"; "hi"] ps0 initial_world in
  let w' := fst (fst st) in
  let ps' := snd (fst st) in
  valid_stream (sys_stderr initial_world) initial_world
  /\ is_builtin "echo" = true
  /\ 0 <> 2 - 1
  /\ snd st = Next
  /\ exists wrote cin cerr input,
       calls w' = [BuiltinCall "echo" ["hi"] cin (Handle 0) cerr input wrote]
       /\ nth_error (objects w') 0 = Some (temp_buffer (out_text wrote))
       /\ prev_stdin ps' = Some (Handle 0)
       /\ (calls (fst (fst (@stage sample_env sample_builtins 2 1 ["type"] ps' w'))) = calls w'
           \/ exists c rest,
                calls (fst (fst (@stage sample_env sample_builtins 2 1 ["type"] ps' w')))
                = calls w' ++ c :: rest
                /\ call_stdin c = Some (Handle 0)
                /\ call_input c = Some (out_text wrote)).
Proof.
  intros ps0 st w' ps'.
  split; [exact I|]. split; [reflexivity|]. split; [discriminate|]. split; [reflexivity|].
  destruct (@builtin_output_is_next_stage_input sample_env sample_builtins
              2 0 ["echo"; "hi"] ["type"] ps0 initial_world initial_world
              {| clean_tokens := ["echo"; "hi"]; stdout_dest := None; stderr_dest := None;
                 file_out := None; file_err := None |}
              "echo" ["hi"] w' ps' I eq_refl eq_refl eq_refl
              (fun H : 0 = 2 - 1 => O_S 0 H) eq_refl)
    as (wrote & cin & cerr & input & H1 & _ & H3 & _ & H5 & _ & H7).
  exists wrote, cin, cerr, input. repeat split; assumption.
Defined.

(** [echo hi | type > o.txt | nosuch a | sort] on the sample system: the
    third command is not found, [sort] is never started, and the two buffers
    and [o.txt] are closed. *)
Lemma unresolved_command_ends_pipeline_witness :
  let commands := [["echo"; "hi"]; ["type"; ">"; "o.txt"]; ["nosuch"; "a"]; ["sort"]] in
  let final := fst (@run_pipeline sample_env sample_builtins commands initial_world) in
  is_builtin "nosuch" = false
  /\ @find_executable sample_env "nosuch" = None
  /\ snd (@run_pipeline sample_env sample_builtins commands initial_world) = None
  /\ console final
     = [(Stderr, error_text "type: missing argument");
        (Stderr, error_text "nosuch: command not found")]
  /\ List.length (calls final) = 2
  /\ List.length (objects final) = 3
  /\ (forall h o, nth_error (objects final) h = Some o -> f_closed o = true).
Proof.
  intros commands final.
  destruct (@unresolved_command_ends_pipeline sample_env sample_builtins
              [["echo"; "hi"]; ["type"; ">"; "o.txt"]] ["nosuch"; "a"] [["sort"]]
              initial_world _ _ _ _ "nosuch" ["a"]
              eq_refl eq_refl eq_refl eq_refl eq_refl)
    as (Hrun & Hconsole & Hcalls & Hobjects & Hclosed).
  split; [reflexivity|]. split; [reflexivity|].
  split; [exact (f_equal snd Hrun)|].
  split; [exact (Hconsole eq_refl)|].
  split; [exact (f_equal (@List.length call) Hcalls)|].
  split; [exact Hobjects|].
  intros h o. apply Hclosed. apply Nat.le_0_l.
Defined.

(** * More of the program *)

(** ** Tokenizer: quoting *)

Lemma tokenize_loop_single ch rest d args cur :
  tokenize_loop (String ch rest) true d args cur =
  if Ascii.eqb ch squote
  then tokenize_loop rest false d args cur
  else tokenize_loop rest true d args (snoc cur ch).
Proof. reflexivity. Qed.

Lemma tokenize_loop_single_run s :
  all_chars (fun c => negb (Ascii.eqb c squote)) s = true ->
  forall rest d args cur,
    tokenize_loop (s ++ String squote rest) true d args cur
    = tokenize_loop rest false d args (cur ++ s).
Proof.
  induction s as [|c s IH]; intros Hs rest d args cur.
  - simpl append. rewrite tokenize_loop_single, append_nil_r.
    now rewrite Ascii.eqb_refl.
  - simpl in Hs. apply andb_prop in Hs. destruct Hs as [Hc Hs].
    apply negb_true_iff in Hc.
    change (String c s ++ String squote rest)%string
      with (String c (s ++ String squote rest)%string).
    rewrite tokenize_loop_single, Hc, IH by exact Hs.
    now rewrite snoc_append.
Qed.

Lemma tokenize_loop_single_open s :
  all_chars (fun c => negb (Ascii.eqb c squote)) s = true ->
  forall d args cur,
    tokenize_loop s true d args cur
    = if truthy (cur ++ s) then args ++ [(cur ++ s)%string] else args.
Proof.
  induction s as [|c s IH]; intros Hs d args cur.
  - simpl. now rewrite append_nil_r.
  - simpl in Hs. apply andb_prop in Hs. destruct Hs as [Hc Hs].
    apply negb_true_iff in Hc.
    rewrite tokenize_loop_single, Hc, IH by exact Hs.
    now rewrite snoc_append.
Qed.

(** X1: inside single quotes every character up to the closing quote goes
    to the current token as it is, backslashes, double quotes and spaces
    included, and the scanner is outside quotes after it; when the closing
    quote is missing the rest of the line goes to the token, which is emitted
    if it is not empty. *)
Theorem single_quoted_text_is_literal (s : string) :
  all_chars (fun c => negb (Ascii.eqb c squote)) s = true ->
  (forall rest d args cur,
     tokenize_loop (s ++ String squote rest) true d args cur
     = tokenize_loop rest false d args (cur ++ s))
  /\ (forall rest args cur,
        tokenize_loop (String squote (s ++ String squote rest)) false false args cur
        = tokenize_loop rest false false args (cur ++ s))
  /\ (forall args cur,
        tokenize_loop (String squote s) false false args cur
        = if truthy (cur ++ s) then args ++ [(cur ++ s)%string] else args).
Proof.
  intro Hs. split; [now apply tokenize_loop_single_run|]. split.
  - intros rest args cur.
    change (tokenize_loop (String squote (s ++ String squote rest)) false false args cur)
      with (tokenize_loop (s ++ String squote rest) true false args cur).
    now apply tokenize_loop_single_run.
  - intros args cur.
    change (tokenize_loop (String squote s) false false args cur)
      with (tokenize_loop s true false args cur).
    now apply tokenize_loop_single_open.
Qed.

Lemma single_quoted_text_is_literal_witness :
  all_chars (fun c => negb (Ascii.eqb c squote)) "a \ b | c" = true
  /\ tokenize "echo 'a \ b | c' d" = ["echo"; "a \ b | c"; "d"]
  /\ tokenize "echo 'a \ b | c" = ["echo"; "a \ b | c"].
Proof.
  split; [reflexivity|].
  pose proof (single_quoted_text_is_literal "a \ b | c" eq_refl) as (_ & H2 & H3).
  split.
  - change (tokenize "echo 'a \ b | c' d")
      with (tokenize_loop (String squote ("a \ b | c" ++ String squote " d"))
              false false ["echo"] EmptyString).
    rewrite H2. reflexivity.
  - change (tokenize "echo 'a \ b | c")
      with (tokenize_loop (String squote "a \ b | c") false false ["echo"] EmptyString).
    rewrite H3. reflexivity.
Defined.

(** ** Tokenizer: plain lines *)

Lemma join_empty_cons x l : join EmptyString (x :: l) = (x ++ join EmptyString l)%string.
Proof. destruct l; simpl; [now rewrite append_nil_r | reflexivity]. Qed.

Lemma join_empty_snoc l : forall x,
  join EmptyString (l ++ [x]) = (join EmptyString l ++ x)%string.
Proof.
  induction l as [|y l IH]; intro x.
  - reflexivity.
  - change ((y :: l) ++ [x]) with (y :: (l ++ [x])).
    rewrite !join_empty_cons, IH. now rewrite append_assoc.
Qed.

Lemma tokenize_loop_plain_text line :
  quote_free line = true -> backslash_free line = true ->
  forall args cur,
    join EmptyString (tokenize_loop line false false args cur)
    = (join EmptyString args ++ cur
       ++ filter_chars (fun c => negb (isspace c)) line)%string.
Proof.
  unfold quote_free, backslash_free.
  induction line as [|ch rest IH]; intros Hq Hb args cur.
  - simpl. rewrite append_nil_r. destruct (truthy cur) eqn:E.
    + apply join_empty_snoc.
    + apply truthy_false in E. subst. now rewrite append_nil_r.
  - simpl in Hq, Hb.
    apply andb_prop in Hq. destruct Hq as [Hq1 Hq].
    apply andb_prop in Hb. destruct Hb as [Hb1 Hb].
    apply negb_true_iff in Hq1, Hb1. apply orb_false_elim in Hq1. destruct Hq1 as [Hs Hd].
    rewrite tokenize_loop_plain by assumption.
    simpl filter_chars. destruct (isspace ch) eqn:Esp; simpl negb; cbn iota.
    + destruct (truthy cur) eqn:E.
      * rewrite IH by assumption. rewrite join_empty_snoc. simpl.
        now rewrite append_assoc.
      * now rewrite IH by assumption.
    + rewrite IH by assumption. now rewrite snoc_append.
Qed.

(** X2: on a line without quotes and backslashes tokenizing loses nothing
    but white space: the tokens, put end to end, are the characters of the
    line that are not white space, in order; and every token is a non-empty
    run of such characters. *)
Theorem tokenize_plain_line_keeps_all_but_spaces (line : string) :
  quote_free line = true -> backslash_free line = true ->
  join EmptyString (tokenize line) = filter_chars (fun c => negb (isspace c)) line
  /\ Forall (fun t => truthy t = true
                      /\ all_chars (fun c => negb (isspace c)) t = true) (tokenize line).
Proof.
  intros Hq Hb. split.
  - unfold tokenize. now rewrite tokenize_loop_plain_text.
  - assert (Hw : Forall word (tokenize line)).
    { apply tokenize_loop_words; auto. }
    eapply Forall_impl; [|exact Hw].
    intros t [Ht Hall]. split; [exact Ht|].
    clear Ht. induction t as [|c t IHt]; [reflexivity|].
    simpl in *. apply andb_prop in Hall. destruct Hall as [Hc Hall].
    rewrite (IHt Hall), andb_true_r.
    destruct (word_char_plain c Hc) as [-> _]. reflexivity.
Qed.

Lemma tokenize_plain_line_keeps_all_but_spaces_witness :
  quote_free "  cat  a.txt	b.txt " = true
  /\ backslash_free "  cat  a.txt	b.txt " = true
  /\ join EmptyString (tokenize "  cat  a.txt	b.txt ") = "cata.txtb.txt".
Proof.
  split; [reflexivity|]. split; [reflexivity|].
  exact (proj1 (tokenize_plain_line_keeps_all_but_spaces "  cat  a.txt	b.txt "
                  eq_refl eq_refl)).
Defined.

(** ** Pipeline splitter: composition *)

Lemma groups_app_pipe a : forall b,
  groups (a ++ "|" :: b) = groups a ++ groups b.
Proof.
  induction a as [|t a IH]; intro b.
  - reflexivity.
  - change ((t :: a) ++ "|" :: b) with (t :: (a ++ "|" :: b)).
    cbn [groups]. rewrite IH. destruct (String.eqb t "|"); [reflexivity|].
    destruct (groups a) as [|g gs] eqn:G; [now apply groups_not_nil in G | reflexivity].
Qed.

Lemma split_spec_app_pipe a b :
  split_spec (a ++ "|" :: b) = split_spec a ++ split_spec b.
Proof. unfold split_spec. now rewrite groups_app_pipe, filter_app. Qed.

Lemma groups_pipe_free_one g : mem "|" g = false -> groups g = [g].
Proof.
  induction g as [|t g IH]; intro H; [reflexivity|].
  rewrite mem_cons in H. apply orb_false_elim in H. destruct H as [Ht Hg].
  cbn [groups]. rewrite String.eqb_sym, Ht, (IH Hg). reflexivity.
Qed.

Lemma split_pipeline_spec tokens :
  mem "|" tokens = true -> split_pipeline tokens = Some (split_spec tokens).
Proof.
  intro H. unfold split_pipeline, split_spec. rewrite H. cbn [negb].
  rewrite split_loop_groups. cbn [app]. f_equal. f_equal.
  destruct (groups tokens) eqn:G; [now apply groups_not_nil in G | reflexivity].
Qed.

Lemma mem_app x a b : mem x (a ++ b) = mem x a || mem x b.
Proof. unfold mem. apply existsb_app. Qed.

Lemma mem_pipe_middle a b : mem "|" (a ++ "|" :: b) = true.
Proof. rewrite mem_app, mem_cons. cbn. apply orb_true_r. Qed.

Lemma split_spec_join_stages stages :
  Forall (fun g => g <> [] /\ mem "|" g = false) stages ->
  split_spec (join_stages stages) = stages.
Proof.
  induction stages as [|g rest IH]; intro H; [reflexivity|].
  inversion H as [|? ? [Hne Hfree] Hrest]; subst.
  destruct rest as [|g' rest].
  - cbn [join_stages]. unfold split_spec. rewrite (groups_pipe_free_one g Hfree).
    destruct g; [contradiction | reflexivity].
  - change (join_stages (g :: g' :: rest)) with (g ++ "|" :: join_stages (g' :: rest)).
    rewrite split_spec_app_pipe, (IH Hrest).
    unfold split_spec. rewrite (groups_pipe_free_one g Hfree).
    destruct g; [contradiction | reflexivity].
Qed.

(** X3: splitting undoes joining.  For two or more stages, none empty and
    none holding a pipe token, the tokens of the stages with a pipe token
    between consecutive stages split back into exactly those stages. *)
Theorem split_pipeline_of_joined_stages (g1 g2 : list string) (rest : list (list string)) :
  Forall (fun g => g <> [] /\ mem "|" g = false) (g1 :: g2 :: rest) ->
  split_pipeline (join_stages (g1 :: g2 :: rest)) = Some (g1 :: g2 :: rest).
Proof.
  intro H. rewrite split_pipeline_spec.
  - now rewrite split_spec_join_stages.
  - change (join_stages (g1 :: g2 :: rest)) with (g1 ++ "|" :: join_stages (g2 :: rest)).
    apply mem_pipe_middle.
Qed.

Lemma split_pipeline_of_joined_stages_witness :
  Forall (fun g => g <> [] /\ mem "|" g = false) [["cat"; "f"]; ["grep"; "x"]; ["wc"; "-l"]]
  /\ split_pipeline ["cat"; "f"; "|"; "grep"; "x"; "|"; "wc"; "-l"]
     = Some [["cat"; "f"]; ["grep"; "x"]; ["wc"; "-l"]].
Proof.
  assert (H : Forall (fun g => g <> [] /\ mem "|" g = false)
                [["cat"; "f"]; ["grep"; "x"]; ["wc"; "-l"]]).
  { repeat constructor; discriminate. }
  split; [exact H|].
  exact (split_pipeline_of_joined_stages ["cat"; "f"] ["grep"; "x"] [["wc"; "-l"]] H).
Defined.

(** X4: empty groups are skipped without a word.  A doubled pipe splits
    like a single one; a pipe at the start or at the end of a sequence that
    has another pipe changes nothing; a command followed by a lone pipe is a
    pipeline of one stage; and a sequence made of pipes only is a pipeline of
    no stage at all. *)
Theorem split_pipeline_skips_empty_groups :
  (forall a b, split_pipeline (a ++ "|" :: "|" :: b) = split_pipeline (a ++ "|" :: b))
  /\ (forall t, mem "|" t = true -> split_pipeline ("|" :: t) = split_pipeline t)
  /\ (forall t, mem "|" t = true -> split_pipeline (t ++ ["|"]) = split_pipeline t)
  /\ (forall t, t <> [] -> mem "|" t = false ->
                split_pipeline (t ++ ["|"]) = Some [t]
                /\ split_pipeline ("|" :: t) = Some [t])
  /\ (forall k, split_pipeline (repeat "|" (S k)) = Some []).
Proof.
  split; [|split; [|split; [|split]]].
  - intros a b. rewrite !split_pipeline_spec by apply mem_pipe_middle.
    rewrite !split_spec_app_pipe.
    change ("|" :: b) with ([] ++ "|" :: b). now rewrite split_spec_app_pipe.
  - intros t Ht. rewrite (split_pipeline_spec t Ht).
    change ("|" :: t) with ([] ++ "|" :: t).
    rewrite split_pipeline_spec by apply mem_pipe_middle.
    now rewrite split_spec_app_pipe.
  - intros t Ht. rewrite (split_pipeline_spec t Ht).
    rewrite split_pipeline_spec by apply mem_pipe_middle.
    rewrite split_spec_app_pipe. cbn. now rewrite app_nil_r.
  - intros t Hne Hfree.
    assert (Hone : split_spec t = [t]).
    { unfold split_spec. rewrite (groups_pipe_free_one t Hfree).
      destruct t; [contradiction | reflexivity]. }
    split.
    + rewrite split_pipeline_spec by apply mem_pipe_middle.
      rewrite split_spec_app_pipe, Hone. reflexivity.
    + change ("|" :: t) with ([] ++ "|" :: t).
      rewrite split_pipeline_spec by apply mem_pipe_middle.
      rewrite split_spec_app_pipe, Hone. reflexivity.
  - intro k. rewrite split_pipeline_spec by reflexivity.
    f_equal. induction k as [|k IH]; [reflexivity|].
    change (repeat "|" (S (S k))) with ([] ++ "|" :: repeat "|" (S k)).
    rewrite split_spec_app_pipe, IH. reflexivity.
Qed.

Lemma split_pipeline_skips_empty_groups_witness :
  mem "|" ["a"; "|"; "b"] = true
  /\ ["ls"] <> []
  /\ mem "|" ["ls"] = false
  /\ split_pipeline ["|"; "a"; "|"; "b"] = split_pipeline ["a"; "|"; "b"]
  /\ split_pipeline ["a"; "|"; "b"; "|"] = split_pipeline ["a"; "|"; "b"]
  /\ split_pipeline ["ls"; "|"] = Some [["ls"]].
Proof.
  destruct split_pipeline_skips_empty_groups as (_ & H2 & H3 & H4 & _).
  split; [reflexivity|]. split; [discriminate|]. split; [reflexivity|].
  split; [exact (H2 ["a"; "|"; "b"] eq_refl)|].
  split; [exact (H3 ["a"; "|"; "b"] eq_refl)|].
  exact (proj1 (H4 ["ls"] ltac:(discriminate) eq_refl)).
Defined.

(** ** Redirection resolver: accounting and failures *)

Lemma scan_without_operator ops tokens clean t :
  incl ops redirection_ops ->
  Forall (fun x => ~ In x redirection_ops) tokens ->
  scan ops tokens clean t ->
  clean = tokens /\ t = None.
Proof.
  intros Hincl Hnone H.
  inversion H as [ | | higher o lower pre path post Hops Hhigher Htok Hpre]; subst; auto.
  exfalso. rewrite Forall_forall in Hnone. apply (Hnone o).
  - apply in_or_app. right. now left.
  - apply Hincl. apply in_or_app. right. now left.
Qed.

Lemma scan_accounting ops tokens clean t :
  scan ops tokens clean t ->
  List.length clean + (match t with Some _ => 2 | None => 0 end) = List.length tokens
  /\ incl clean tokens.
Proof.
  intro H.
  inversion H as [ | | higher o lower pre path post Hops Hhigher Htok Hpre]; subst.
  - split; [lia | apply incl_refl].
  - split; [lia | apply incl_refl].
  - split.
    + rewrite !length_app. simpl. lia.
    + intros x Hx. apply in_app_or in Hx. apply in_or_app.
      destruct Hx as [Hx | Hx]; [now left | right; right; now right].
Qed.

Section ResolverMore.
Context {E : Env} {B : OsBuiltins}.

(** X5: tokens that hold no redirection operator come back as they are: no
    file is opened, no target is set, nothing is printed and the state is the
    same. *)
Theorem parse_redirections_without_operator (tokens : list string) (w : world) :
  Forall (fun x => ~ In x redirection_ops) tokens ->
  parse_redirections tokens w =
  (w, Some {| clean_tokens := tokens; stdout_dest := None; stderr_dest := None;
              file_out := None; file_err := None |}).
Proof.
  intro Hnone.
  destruct (parse_redirections_scans tokens) as (tokens1 & e & clean & o & H1 & H2 & Hp).
  destruct (scan_without_operator _ _ _ _ stderr_ops_incl Hnone H1) as [-> ->].
  destruct (scan_without_operator _ _ _ _ stdout_ops_incl Hnone H2) as [-> ->].
  rewrite Hp. reflexivity.
Qed.

Lemma resolved_success e o clean w w' r :
  resolved e o clean w = (w', Some r) ->
  w' = set_objects (objects w ++ new_object e ++ new_object o) w
  /\ r = {| clean_tokens := clean;
            stdout_dest := match o with
                           | Some _ => Some (Handle (List.length (objects w ++ new_object e)))
                           | None => None
                           end;
            stderr_dest := match e with
                           | Some _ => Some (Handle (List.length (objects w)))
                           | None => None
                           end;
            file_out := match o with
                        | Some _ => Some (Handle (List.length (objects w ++ new_object e)))
                        | None => None
                        end;
            file_err := match e with
                        | Some _ => Some (Handle (List.length (objects w)))
                        | None => None
                        end |}.
Proof.
  unfold resolved.
  destruct (open_target e w) as [wa [fe|msg]] eqn:He; [|discriminate].
  destruct (open_target o wa) as [wb [fo|msg]] eqn:Ho; [|discriminate].
  intro H. inversion H; subst; clear H.
  apply open_target_success in He, Ho. destruct He as [-> ->]. destruct Ho as [-> ->].
  cbn [objects set_objects]. split; [|reflexivity].
  unfold set_objects. cbn. now rewrite app_assoc.
Qed.

(** X6: what a successful resolution takes and makes.  Each target opened
    costs two tokens, the operator and its path, and makes one object; the
    tokens returned are tokens of the input; at most two targets are opened. *)
Theorem parse_redirections_accounting tokens w w' r :
  parse_redirections tokens w = (w', Some r) ->
  List.length (clean_tokens r) + 2 * targets r = List.length tokens
  /\ List.length (objects w') = List.length (objects w) + targets r
  /\ incl (clean_tokens r) tokens
  /\ targets r <= 2.
Proof.
  destruct (parse_redirections_scans tokens) as (tokens1 & e & clean & o & H1 & H2 & Hp).
  rewrite Hp. intro H. apply resolved_success in H. destruct H as [-> ->].
  destruct (scan_accounting _ _ _ _ H1) as [L1 I1].
  destruct (scan_accounting _ _ _ _ H2) as [L2 I2].
  unfold targets. cbn [clean_tokens file_err file_out objects set_objects].
  rewrite !length_app.
  split; [|split; [|split]].
  - destruct e, o; lia.
  - destruct e as [[? ?]|], o as [[? ?]|]; simpl; lia.
  - intros x Hx. apply I1, I2, Hx.
  - destruct e, o; simpl; lia.
Qed.

End ResolverMore.

Lemma parse_redirections_accounting_witness :
  @parse_redirections sample_env ["sort"; "<"; "in"; "2>>"; "log"; ">"; "out"; "-r"] initial_world
  = (set_objects (new_object (Some ("log", "a")) ++ new_object (Some ("out", "w")))
       initial_world,
     Some {| clean_tokens := ["sort"; "<"; "in"; "-r"];
             stdout_dest := Some (Handle 1); stderr_dest := Some (Handle 0);
             file_out := Some (Handle 1); file_err := Some (Handle 0) |})
  /\ 4 + 2 * 2 = 8.
Proof.
  split; [reflexivity|].
  exact (proj1 (@parse_redirections_accounting sample_env
                  ["sort"; "<"; "in"; "2>>"; "log"; ">"; "out"; "-r"] initial_world
                  _ _ eq_refl)).
Defined.

Lemma parse_redirections_without_operator_witness :
  Forall (fun x => ~ In x redirection_ops) ["grep"; "-v"; "a>b"; "<"; "2"]
  /\ @parse_redirections sample_env ["grep"; "-v"; "a>b"; "<"; "2"] initial_world
     = (initial_world,
        Some {| clean_tokens := ["grep"; "-v"; "a>b"; "<"; "2"]; stdout_dest := None;
                stderr_dest := None; file_out := None; file_err := None |}).
Proof.
  assert (H : Forall (fun x => ~ In x redirection_ops) ["grep"; "-v"; "a>b"; "<"; "2"]).
  { repeat constructor; simpl; intuition discriminate. }
  split; [exact H|].
  exact (@parse_redirections_without_operator sample_env _ initial_world H).
Defined.

(** ** Single commands *)

Lemma write_closed_inv s t w h o :
  nth_error (objects (write s t w)) h = Some o ->
  exists o0, nth_error (objects w) h = Some o0
             /\ f_closed o0 = f_closed o /\ f_name o0 = f_name o
             /\ (s <> Handle h -> o0 = o).
Proof.
  destruct s as [d|k|p]; simpl; intro H; try (exists o; auto; fail).
  destruct (Nat.eq_dec h k) as [->|Hne].
  - rewrite update_nth_same in H.
    destruct (nth_error (objects w) k) as [o0|]; [|discriminate].
    simpl in H. exists o0. split; [reflexivity|].
    destruct (f_closed o0) eqn:Hc; inversion H; subst; simpl; repeat split; auto;
      intro Hs; congruence.
  - rewrite update_nth_other in H by exact Hne. exists o. auto.
Qed.

Lemma close_opt_length o w :
  List.length (objects (close_opt o w)) = List.length (objects w).
Proof. destruct o; [apply close_length | reflexivity]. Qed.

Lemma close_opt_keeps_closed s w h o :
  nth_error (objects w) h = Some o -> f_closed o = true ->
  exists o', nth_error (objects (close_opt s w)) h = Some o' /\ f_closed o' = true
             /\ f_data o' = f_data o.
Proof.
  intros Hn Hc. destruct s as [[d|k|p]|]; simpl; eauto.
  destruct (Nat.eq_dec h k) as [->|Hne].
  - rewrite update_nth_same, Hn. simpl. eauto.
  - rewrite update_nth_other by exact Hne. eauto.
Qed.

Lemma close_opt_data s w h o :
  nth_error (objects w) h = Some o ->
  exists o', nth_error (objects (close_opt s w)) h = Some o'
             /\ f_data o' = f_data o /\ f_name o' = f_name o /\ f_mode o' = f_mode o
             /\ (f_closed o = true \/ s = Some (Handle h) -> f_closed o' = true).
Proof.
  intro Hn. destruct s as [[d|k|p]|]; simpl.
  - exists o. repeat split; auto. intros [H|H]; [exact H | discriminate].
  - destruct (Nat.eq_dec h k) as [->|Hne].
    + rewrite update_nth_same, Hn. simpl. eexists. repeat split; auto.
    + rewrite update_nth_other by exact Hne. exists o. repeat split; auto.
      intros [H|H]; [exact H | congruence].
  - exists o. repeat split; auto. intros [H|H]; [exact H | discriminate].
  - exists o. repeat split; auto. intros [H|H]; [exact H | discriminate].
Qed.

Section SingleCommand.
Context {E : Env} {B : OsBuiltins}.

(** The shape of a successful resolution: the state differs only by the
    objects opened, the stderr target first. *)
Lemma parse_success_shape tokens w w1 r :
  parse_redirections tokens w = (w1, Some r) ->
  exists e o,
    w1 = set_objects (objects w ++ new_object e ++ new_object o) w
    /\ file_err r = match e with
                    | Some _ => Some (Handle (List.length (objects w)))
                    | None => None
                    end
    /\ file_out r = match o with
                    | Some _ => Some (Handle (List.length (objects w ++ new_object e)))
                    | None => None
                    end
    /\ stdout_dest r = file_out r /\ stderr_dest r = file_err r.
Proof.
  destruct (parse_redirections_scans tokens) as (tokens1 & e & clean & o & _ & _ & Hp).
  rewrite Hp. intro H. apply resolved_success in H. destruct H as [-> ->].
  exists e, o. repeat split; reflexivity.
Qed.


(** X8: a single command whose redirections were resolved and that ends
    without an exception leaving it has closed every object it opened. *)
Theorem run_single_command_closes_its_files tokens w w1 r :
  parse_redirections tokens w = (w1, Some r) ->
  snd (run_single_command tokens w) = None ->
  forall h o,
    List.length (objects w) <= h ->
    nth_error (objects (fst (run_single_command tokens w))) h = Some o ->
    f_closed o = true.
Proof.
  intros Hparse.
  destruct (parse_success _ _ _ _ Hparse) as (_ & _ & _ & _ & Hlen & _ & Hnew).
  unfold run_single_command.
  destruct (nonempty tokens); cbn [negb].
  2:{ intros _ h o Hh Hn. cbn [fst] in Hn.
      assert (h < List.length (objects w)); [|lia].
      apply nth_error_Some. rewrite Hn. discriminate. }
  rewrite Hparse. destruct (clean_tokens r) as [|cmd args]; [discriminate|].
  assert (Hgen : forall w2,
            List.length (objects w2) = List.length (objects w1) ->
            forall h o, List.length (objects w) <= h ->
              nth_error (objects (close_opt (file_err r) (close_opt (file_out r) w2))) h
              = Some o -> f_closed o = true).
  { intros w2 Hl h o Hh Hn.
    assert (Hlt : h < List.length (objects w1)).
    { rewrite <- Hl, <- (close_opt_length (file_out r) w2),
        <- (close_opt_length (file_err r)).
      apply nth_error_Some. rewrite Hn. discriminate. }
    destruct (nth_error (objects w2) h) as [o2|] eqn:H2.
    2:{ apply nth_error_None in H2. lia. }
    destruct (close_opt_data (file_out r) w2 h o2 H2) as (o3 & H3 & _ & _ & _ & C3).
    destruct (close_opt_data (file_err r) _ h o3 H3) as (o4 & H4 & _ & _ & _ & C4).
    rewrite Hn in H4. inversion H4; subst o4.
    apply C4. destruct (Hnew h (conj Hh Hlt)) as [He | Ho]; [now right|].
    left. apply C3. now right. }
  destruct (is_builtin cmd).
  - match goal with |- context [execute cmd args ?w0] =>
      pose proof (execute_length cmd args w0) as Hl;
      destruct (execute cmd args w0) as [wD e] end.
    cbn [fst] in Hl.
    assert (HlA : List.length (objects wD) = List.length (objects w1)).
    { rewrite Hl. destruct (stderr_dest r), (stdout_dest r); reflexivity. }
    destruct e as [[msg|code|]|]; cbn [fst snd]; try discriminate; intros _;
      apply Hgen; cbn [objects set_stderr set_stdout];
      rewrite ?print_error_length; exact HlA.
  - destruct (find_executable cmd) as [exe|]; [destruct (truthy exe)|];
      cbn [fst snd]; intros _; apply Hgen; rewrite ?print_error_length; try reflexivity.
    unfold subprocess_run. destruct (popen_fails _ exe);
      [apply print_error_length | reflexivity].
Qed.

End SingleCommand.


Lemma run_single_command_closes_its_files_witness :
  let tokens := ["echo"; "hi"; "2>"; "errors"; ">>"; "out"] in
  let w' := fst (@run_single_command sample_env sample_builtins tokens initial_world) in
  snd (@run_single_command sample_env sample_builtins tokens initial_world) = None
  /\ List.length (objects w') = 2
  /\ (forall h o, nth_error (objects w') h = Some o -> f_closed o = true).
Proof.
  intros tokens w'.
  split; [reflexivity|]. split; [reflexivity|].
  intros h o.
  apply (@run_single_command_closes_its_files sample_env sample_builtins
           tokens initial_world _ _ eq_refl eq_refl h o (Nat.le_0_l h)).
Defined.

Lemma close_opt_console o w : console (close_opt o w) = console w.
Proof. destruct o as [[]|]; reflexivity. Qed.

Section SingleCommandEdges.
Context {E : Env} {B : OsBuiltins}.

(** X9: a command that is not a built-in and is not found is reported on
    the stream [sys.stderr] of the shell, also when the command line redirects
    stderr: the targets are opened, stay empty and are closed, and nothing is
    dispatched. *)
Theorem unknown_command_is_reported_by_the_shell tokens w w1 r cmd args :
  valid_stream (sys_stderr w) w ->
  parse_redirections tokens w = (w1, Some r) ->
  clean_tokens r = cmd :: args ->
  is_builtin cmd = false ->
  find_executable cmd = None ->
  let final := fst (run_single_command tokens w) in
  snd (run_single_command tokens w) = None
  /\ calls final = calls w
  /\ (sys_stderr w = Console Stderr ->
      console final = console w ++ [(Stderr, error_text (cmd ++ ": command not found"))])
  /\ (forall h o, List.length (objects w) <= h ->
                  nth_error (objects final) h = Some o ->
                  f_closed o = true /\ f_data o = EmptyString).
Proof.
  intros Hvalid Hparse Hclean Hb Hexe final.
  assert (Hne : nonempty tokens = true).
  { destruct tokens; [|reflexivity].
    assert (Hnil : parse_redirections [] w
                   = (w, Some {| clean_tokens := []; stdout_dest := None;
                                 stderr_dest := None; file_out := None;
                                 file_err := None |})) by reflexivity.
    rewrite Hnil in Hparse. inversion Hparse; subst. discriminate. }
  assert (Hrun : run_single_command tokens w
                 = (close_opt (file_err r) (close_opt (file_out r)
                      (print_error (cmd ++ ": command not found") w1)), None)).
  { unfold run_single_command. rewrite Hne. cbn [negb].
    now rewrite Hparse, Hclean, Hb, Hexe. }
  unfold final. rewrite Hrun. cbn [fst snd].
  destruct (parse_success_shape _ _ _ _ Hparse) as (e & o & Hw1 & Hfe & Hfo & _ & _).
  split; [reflexivity|]. split; [|split].
  - rewrite !close_opt_calls, print_error_calls. now subst w1.
  - intro Herr. rewrite !close_opt_console. unfold print_error.
    subst w1. cbn [sys_stderr set_objects]. now rewrite Herr.
  - intros h o' Hh Hn.
    assert (Hs : sys_stderr w1 <> Handle h).
    { subst w1. cbn [sys_stderr set_objects]. intro Hs. rewrite Hs in Hvalid.
      simpl in Hvalid. lia. }
    assert (Hlt : h < List.length (objects w1)).
    { rewrite <- (print_error_length (cmd ++ ": command not found") w1),
        <- (close_opt_length (file_out r)), <- (close_opt_length (file_err r)).
      apply nth_error_Some. rewrite Hn. discriminate. }
    destruct (nth_error (objects w1) h) as [o1|] eqn:H1.
    2:{ apply nth_error_None in H1. lia. }
    assert (H2 : nth_error (objects (print_error (cmd ++ ": command not found") w1)) h
                 = Some o1).
    { unfold print_error. rewrite write_other by exact Hs. exact H1. }
    destruct (close_opt_data (file_out r) _ h o1 H2) as (o3 & H3 & D3 & _ & _ & C3).
    destruct (close_opt_data (file_err r) _ h o3 H3) as (o4 & H4 & D4 & _ & _ & C4).
    rewrite Hn in H4. inversion H4; subst o4. split.
    + apply C4.
      destruct (parse_success _ _ _ _ Hparse) as (_ & _ & _ & _ & _ & _ & Hnew).
      destruct (Hnew h (conj Hh Hlt)) as [He | Ho]; [now right|].
      left. apply C3. now right.
    + rewrite D4, D3. subst w1. cbn [objects set_objects] in H1.
      rewrite nth_error_app2 in H1 by exact Hh.
      apply nth_error_In in H1.
      destruct e as [[pe me]|], o as [[po mo]|]; simpl in H1;
        intuition (subst; reflexivity).
Qed.

Lemma redirect_loop_pair ops : forall op path w,
  ~ In path ops ->
  redirect_loop ops [op; path] w =
  if mem op ops
  then match open path (if contains ">>" op then "a" else "w") w with
       | (w', inl f) => (w', inl ([], Some f))
       | (w', inr msg) => (w', inr msg)
       end
  else (w, inl ([op; path], None)).
Proof.
  induction ops as [|o ops IH]; intros op path w Hpath; [reflexivity|].
  assert (Ho : String.eqb o path = false).
  { apply String.eqb_neq. intro Heq. apply Hpath. now left. }
  cbn [redirect_loop]. rewrite !mem_cons, Ho. cbn [mem existsb orb].
  rewrite orb_false_r. destruct (String.eqb o op) eqn:Eo.
  - apply String.eqb_eq in Eo. subst o.
    cbn [index]. rewrite String.eqb_refl. reflexivity.
  - rewrite (String.eqb_sym op o), Eo. cbn [orb].
    apply IH. intro Hin. apply Hpath. now right.
Qed.

Lemma redirection_ops_modes op :
  In op redirection_ops -> (if contains ">>" op then "a" else "w") = spec_mode op.
Proof.
  intro H. unfold redirection_ops in H. apply in_app_or in H.
  destruct H as [H | H].
  - pose proof stderr_ops_modes as F. rewrite Forall_forall in F. now apply F.
  - pose proof stdout_ops_modes as F. rewrite Forall_forall in F. now apply F.
Qed.

(** X10: a command line that holds nothing but one redirection, an
    operator and its path, opens the target and then fails: there is no
    command name left, [tokens[0]] raises, the exception leaves
    [run_single_command] and the object stays open. *)
Theorem redirection_alone_raises (op path : string) (w : world) :
  In op redirection_ops ->
  ~ In path redirection_ops ->
  open_fails path (spec_mode op) = None ->
  run_single_command [op; path] w
  = (set_objects (objects w ++ new_object (Some (path, spec_mode op))) w,
     Some (Exception "list index out of range")).
Proof.
  intros Hop Hpath Hopen.
  assert (Hparse : parse_redirections [op; path] w
          = (set_objects (objects w ++ new_object (Some (path, spec_mode op))) w,
             Some {| clean_tokens := [];
                     stdout_dest := if mem op stderr_ops then None
                                    else Some (Handle (List.length (objects w)));
                     stderr_dest := if mem op stderr_ops
                                    then Some (Handle (List.length (objects w))) else None;
                     file_out := if mem op stderr_ops then None
                                 else Some (Handle (List.length (objects w)));
                     file_err := if mem op stderr_ops
                                 then Some (Handle (List.length (objects w))) else None |})).
  { unfold parse_redirections.
    rewrite redirect_loop_pair
      by (intro Hin; apply Hpath; now apply stderr_ops_incl).
    rewrite (redirection_ops_modes op Hop).
    unfold open. rewrite Hopen.
    destruct (mem op stderr_ops) eqn:Hm.
    - reflexivity.
    - rewrite redirect_loop_pair
        by (intro Hin; apply Hpath; now apply stdout_ops_incl).
      rewrite (redirection_ops_modes op Hop).
      assert (Hm2 : mem op stdout_ops = true).
      { unfold redirection_ops in Hop. apply in_app_or in Hop.
        destruct Hop as [Hin | Hin].
        - apply mem_false_iff in Hm. contradiction.
        - destruct (mem op stdout_ops) eqn:Hm2; [reflexivity|].
          apply mem_false_iff in Hm2. contradiction. }
      rewrite Hm2. unfold open. rewrite Hopen. reflexivity. }
  unfold run_single_command. cbn [nonempty negb]. rewrite Hparse. reflexivity.
Qed.

End SingleCommandEdges.

Lemma unknown_command_is_reported_by_the_shell_witness :
  let tokens := ["frobnicate"; "-x"; "2>"; "errors"] in
  let final := fst (@run_single_command sample_env sample_builtins tokens initial_world) in
  valid_stream (sys_stderr initial_world) initial_world
  /\ is_builtin "frobnicate" = false
  /\ @find_executable sample_env "frobnicate" = None
  /\ console final = [(Stderr, error_text "frobnicate: command not found")]
  /\ (forall h o, nth_error (objects final) h = Some o ->
                  f_closed o = true /\ f_data o = EmptyString).
Proof.
  intros tokens final.
  destruct (@unknown_command_is_reported_by_the_shell sample_env sample_builtins
              tokens initial_world _ _ "frobnicate" ["-x"] I eq_refl eq_refl eq_refl eq_refl)
    as (_ & _ & Hconsole & Hfiles).
  split; [exact I|]. split; [reflexivity|]. split; [reflexivity|].
  split; [exact (Hconsole eq_refl)|].
  intros h o. apply Hfiles. apply Nat.le_0_l.
Defined.

Lemma redirection_alone_raises_witness :
  In ">" redirection_ops
  /\ ~ In "out" redirection_ops
  /\ @run_single_command sample_env sample_builtins [">"; "out"] initial_world
     = (set_objects [{| f_name := Some "out"; f_mode := "w"; f_data := EmptyString;
                        f_pos := 0; f_closed := false |}] initial_world,
        Some (Exception "list index out of range")).
Proof.
  assert (Hop : In ">" redirection_ops) by (simpl; tauto).
  assert (Hpath : ~ In "out" redirection_ops) by (simpl; intuition discriminate).
  split; [exact Hop|]. split; [exact Hpath|].
  exact (@redirection_alone_raises sample_env sample_builtins ">" "out" initial_world
           Hop Hpath eq_refl).
Defined.

(** ** Built-ins under redirection *)

Lemma perform_buffer_err ws : forall w h o,
  sys_stderr w = Handle h -> sys_stdout w <> Handle h ->
  nth_error (objects w) h = Some o -> f_closed o = false ->
  exists p,
    nth_error (objects (perform ws w)) h
    = Some {| f_name := f_name o; f_mode := f_mode o;
              f_data := f_data o ++ err_text ws; f_pos := p; f_closed := false |}.
Proof.
  induction ws as [|[c t] ws IH]; intros w h o Herr Hout Hn Hc.
  - simpl. exists (f_pos o). rewrite append_nil_r, Hn. destruct o; simpl in *. now subst.
  - destruct c; cbn [perform err_text].
    + destruct (IH (write (sys_stdout w) t w) h o) as (p & Hp).
      * now rewrite write_stderr.
      * now rewrite write_stdout.
      * rewrite write_other; assumption.
      * exact Hc.
      * exists p. exact Hp.
    + destruct (IH (write (sys_stderr w) t w) h
                  {| f_name := f_name o; f_mode := f_mode o; f_data := f_data o ++ t;
                     f_pos := String.length (f_data o ++ t); f_closed := false |})
        as (p & Hp).
      * now rewrite write_stderr.
      * now rewrite write_stdout.
      * rewrite Herr. simpl. rewrite update_nth_same, Hn. simpl. now rewrite Hc.
      * reflexivity.
      * exists p. rewrite Hp. simpl. now rewrite append_assoc.
Qed.

Section BuiltinRedirection.
Context {E : Env} {B : OsBuiltins}.

Lemma execute_builtin_files cmd args w :
  is_builtin cmd = true ->
  exists wrote,
    calls (fst (execute cmd args w))
    = calls w ++ [BuiltinCall cmd args (sys_stdin w) (sys_stdout w) (sys_stderr w)
                    (readable (sys_stdin w) w) wrote]
    /\ List.length (objects (fst (execute cmd args w))) = List.length (objects w)
    /\ (forall h o,
          sys_stdout w = Handle h -> sys_stderr w <> Handle h ->
          nth_error (objects w) h = Some o -> f_closed o = false ->
          exists p,
            nth_error (objects (fst (execute cmd args w))) h
            = Some {| f_name := f_name o; f_mode := f_mode o;
                      f_data := f_data o ++ out_text wrote; f_pos := p;
                      f_closed := false |})
    /\ (forall h o,
          sys_stderr w = Handle h -> sys_stdout w <> Handle h ->
          nth_error (objects w) h = Some o -> f_closed o = false ->
          exists p,
            nth_error (objects (fst (execute cmd args w))) h
            = Some {| f_name := f_name o; f_mode := f_mode o;
                      f_data := f_data o ++ err_text wrote; f_pos := p;
                      f_closed := false |}).
Proof.
  intro Hb. unfold execute. destruct (is_builtin_registry cmd Hb) as [f ->].
  set (eff := f args (readable (sys_stdin w) w) (history_manager w)).
  exists (e_writes eff). cbn [fst calls objects set_history set_appended].
  rewrite perform_calls, perform_length. repeat split.
  - intros h o Hout Herr Hn Hc.
    apply (perform_buffer (e_writes eff) _ h o); assumption.
  - intros h o Herr Hout Hn Hc.
    apply (perform_buffer_err (e_writes eff) _ h o); assumption.
Qed.

(** X11: a built-in run as a single command with its standard output
    redirected writes to the target and nowhere else: it is called with
    [sys.stdout] bound to the object just opened, and afterwards the data of
    that object is exactly the text the built-in wrote to standard output;
    the object is closed when the command returns. *)
Theorem builtin_stdout_goes_to_its_target tokens w w1 r cmd args h :
  valid_stream (sys_stderr w) w ->
  parse_redirections tokens w = (w1, Some r) ->
  clean_tokens r = cmd :: args ->
  is_builtin cmd = true ->
  file_out r = Some (Handle h) ->
  let final := fst (run_single_command tokens w) in
  exists wrote cin cerr input o,
    calls final = calls w ++ [BuiltinCall cmd args cin (Handle h) cerr input wrote]
    /\ List.length (objects w) <= h
    /\ nth_error (objects final) h = Some o
    /\ f_data o = out_text wrote
    /\ (snd (run_single_command tokens w) = None -> f_closed o = true).
Proof.
  intros Hvalid Hparse Hclean Hb Hfo final.
  destruct (parse_success_shape _ _ _ _ Hparse) as (e & o & Hw1 & Hfe & Hfo' & Hsd & Hse).
  rewrite Hfo in Hfo'. destruct o as [[po mo]|]; [|discriminate].
  inversion Hfo' as [Hh]. clear Hfo'.
  assert (Hne : nonempty tokens = true).
  { destruct tokens; [|reflexivity].
    assert (Hnil : parse_redirections [] w
                   = (w, Some {| clean_tokens := []; stdout_dest := None;
                                 stderr_dest := None; file_out := None;
                                 file_err := None |})) by reflexivity.
    rewrite Hnil in Hparse. inversion Hparse; subst. discriminate. }
  unfold final, run_single_command. rewrite Hne. cbn [negb].
  rewrite Hparse, Hclean, Hb, Hsd, Hse, Hfo. cbn [rebind].
  set (wA := rebind set_stderr (file_err r) (set_stdout (Handle h) w1)).
  assert (HoutA : sys_stdout wA = Handle h).
  { unfold wA. destruct (file_err r); reflexivity. }
  assert (HerrA : sys_stderr wA <> Handle h).
  { unfold wA. rewrite Hfe. destruct e as [[pe me]|]; cbn.
    - rewrite Hh, length_app. simpl. intro H. inversion H. lia.
    - subst w1. cbn. intro Hs. rewrite Hs in Hvalid. simpl in Hvalid.
      rewrite Hh, length_app in Hvalid. lia. }
  assert (HobjA : nth_error (objects wA) h
                  = Some {| f_name := Some po; f_mode := mo; f_data := EmptyString;
                            f_pos := 0; f_closed := false |}).
  { unfold wA. assert (Ho1 : nth_error (objects w1) h = Some
                    {| f_name := Some po; f_mode := mo; f_data := EmptyString;
                       f_pos := 0; f_closed := false |}).
    { subst w1. cbn [objects set_objects]. rewrite app_assoc, nth_error_app2 by lia.
      rewrite Hh, Nat.sub_diag. reflexivity. }
    destruct (file_err r); exact Ho1. }
  assert (HcallsA : calls wA = calls w).
  { unfold wA. subst w1. destruct (file_err r); reflexivity. }
  assert (HinA : sys_stdin wA = sys_stdin w).
  { unfold wA. subst w1. destruct (file_err r); reflexivity. }
  destruct (execute_builtin_files cmd args wA Hb) as (wrote & Hc & Hl & Hbuf & _).
  destruct (Hbuf h _ HoutA HerrA HobjA eq_refl) as (p & Hp).
  cbn [f_name f_mode f_data append] in Hp.
  pose proof (execute_streams cmd args wA) as (_ & _ & HerrD).
  rewrite HoutA, HcallsA in Hc.
  destruct (execute cmd args wA) as [wD ex]. cbn [fst] in *.
  exists wrote, (sys_stdin wA), (sys_stderr wA), (readable (sys_stdin wA) wA).
  assert (Hle : List.length (objects w) <= h) by (rewrite Hh, length_app; lia).
  rewrite <- ?Hh.
  destruct ex as [[msg|code|]|]; cbn [fst snd].
  - assert (H2 : nth_error (objects (set_stderr (sys_stderr w1)
                    (set_stdout (sys_stdout w1) (print_error ("Error: " ++ msg) wD)))) h
                 = Some {| f_name := Some po; f_mode := mo; f_data := out_text wrote;
                           f_pos := p; f_closed := false |}).
    { cbn [objects set_stderr set_stdout]. unfold print_error.
      rewrite write_other by (rewrite HerrD; exact HerrA). exact Hp. }
    destruct (close_opt_data (Some (Handle h)) _ h _ H2) as (o3 & H3 & D3 & _ & _ & C3).
    destruct (close_opt_data (file_err r) _ h o3 H3) as (o4 & H4 & D4 & _ & _ & C4).
    exists o4. rewrite !close_opt_calls. cbn [calls set_stderr set_stdout].
    rewrite print_error_calls.
    split; [exact Hc|]. split; [exact Hle|]. split; [exact H4|].
    split; [now rewrite D4, D3|].
    intros _. apply C4. left. apply C3. now right.
  - eexists. cbn [calls objects set_stderr set_stdout].
    split; [exact Hc|]. split; [exact Hle|]. split; [exact Hp|].
    split; [reflexivity | discriminate].
  - eexists. cbn [calls objects set_stderr set_stdout].
    split; [exact Hc|]. split; [exact Hle|]. split; [exact Hp|].
    split; [reflexivity | discriminate].
  - assert (H2 : nth_error (objects (set_stderr (sys_stderr w1)
                    (set_stdout (sys_stdout w1) wD))) h
                 = Some {| f_name := Some po; f_mode := mo; f_data := out_text wrote;
                           f_pos := p; f_closed := false |}) by exact Hp.
    destruct (close_opt_data (Some (Handle h)) _ h _ H2) as (o3 & H3 & D3 & _ & _ & C3).
    destruct (close_opt_data (file_err r) _ h o3 H3) as (o4 & H4 & D4 & _ & _ & C4).
    exists o4. rewrite !close_opt_calls. cbn [calls set_stderr set_stdout].
    split; [exact Hc|]. split; [exact Hle|]. split; [exact H4|].
    split; [now rewrite D4, D3|].
    intros _. apply C4. left. apply C3. now right.
Qed.

(** The effect of a built-in on the state, when it is called with
    [sys.stderr] bound to an open object. *)
Lemma execute_effect cmd args w f :
  lookup cmd registry = Some f ->
  let eff := f args (readable (sys_stdin w) w) (history_manager w) in
  snd (execute cmd args w) = e_raised eff
  /\ calls (fst (execute cmd args w))
     = calls w ++ [BuiltinCall cmd args (sys_stdin w) (sys_stdout w) (sys_stderr w)
                     (readable (sys_stdin w) w) (e_writes eff)]
  /\ (forall h o,
        sys_stderr w = Handle h -> sys_stdout w <> Handle h ->
        nth_error (objects w) h = Some o -> f_closed o = false ->
        exists p,
          nth_error (objects (fst (execute cmd args w))) h
          = Some {| f_name := f_name o; f_mode := f_mode o;
                    f_data := f_data o ++ err_text (e_writes eff); f_pos := p;
                    f_closed := false |}).
Proof.
  intros Hf eff. unfold execute. rewrite Hf. fold eff.
  cbn [fst snd calls objects set_history set_appended].
  rewrite perform_calls. repeat split.
  intros h o Herr Hout Hn Hc.
  apply (perform_buffer_err (e_writes eff) _ h o); assumption.
Qed.

(** X12: a built-in run as a single command with its standard error
    redirected is called with [sys.stderr] bound to the object just opened.
    Afterwards the data of that object is the text the built-in wrote to
    standard error, followed, exactly when the built-in raised an
    [Exception], by the line [Error: ...] that [run_single_command] prints
    for it, with the text of that exception; nothing follows when it returned
    or raised [SystemExit] or [KeyboardInterrupt], which leave the function.
    The object is closed when the command returns. *)
Theorem builtin_stderr_goes_to_its_target tokens w w1 r cmd args h :
  valid_stream (sys_stdout w) w ->
  parse_redirections tokens w = (w1, Some r) ->
  clean_tokens r = cmd :: args ->
  is_builtin cmd = true ->
  file_err r = Some (Handle h) ->
  let final := fst (run_single_command tokens w) in
  exists f cin cout input o,
    lookup cmd registry = Some f
    /\ let eff := f args input (history_manager w) in
       calls final
       = calls w ++ [BuiltinCall cmd args cin cout (Handle h) input (e_writes eff)]
       /\ List.length (objects w) <= h
       /\ nth_error (objects final) h = Some o
       /\ f_data o
          = (err_text (e_writes eff)
             ++ match e_raised eff with
                | Some (Exception msg) => error_text ("Error: " ++ msg)
                | _ => EmptyString
                end)%string
       /\ snd (run_single_command tokens w)
          = match e_raised eff with
            | Some (Exception _) => None
            | other => other
            end
       /\ (snd (run_single_command tokens w) = None -> f_closed o = true).
Proof.
  intros Hvalid Hparse Hclean Hb Hfe final.
  destruct (parse_success_shape _ _ _ _ Hparse) as (e & o & Hw1 & Hfe' & Hfo & Hsd & Hse).
  rewrite Hfe in Hfe'. destruct e as [[pe me]|]; [|discriminate].
  inversion Hfe' as [Hh]. clear Hfe'.
  assert (Hne : nonempty tokens = true).
  { destruct tokens; [|reflexivity].
    assert (Hnil : parse_redirections [] w
                   = (w, Some {| clean_tokens := []; stdout_dest := None;
                                 stderr_dest := None; file_out := None;
                                 file_err := None |})) by reflexivity.
    rewrite Hnil in Hparse. inversion Hparse; subst. discriminate. }
  unfold final, run_single_command. rewrite Hne. cbn [negb].
  rewrite Hparse, Hclean, Hb, Hsd, Hse, Hfe. cbn [rebind].
  set (wA := set_stderr (Handle h) (rebind set_stdout (file_out r) w1)).
  assert (HerrA : sys_stderr wA = Handle h) by reflexivity.
  assert (HoutA : sys_stdout wA <> Handle h).
  { unfold wA. rewrite Hfo. destruct o as [[po mo]|]; cbn.
    - rewrite Hh, length_app. simpl. intro H. inversion H. lia.
    - subst w1. cbn. intro Hs. rewrite Hs in Hvalid. simpl in Hvalid. lia. }
  assert (HobjA : nth_error (objects wA) h
                  = Some {| f_name := Some pe; f_mode := me; f_data := EmptyString;
                            f_pos := 0; f_closed := false |}).
  { unfold wA. assert (Ho1 : nth_error (objects w1) h = Some
                    {| f_name := Some pe; f_mode := me; f_data := EmptyString;
                       f_pos := 0; f_closed := false |}).
    { subst w1. cbn [objects set_objects]. rewrite nth_error_app2 by lia.
      rewrite Hh, Nat.sub_diag. reflexivity. }
    destruct (file_out r); exact Ho1. }
  assert (HcallsA : calls wA = calls w).
  { unfold wA. subst w1. destruct (file_out r); reflexivity. }
  assert (HhmA : history_manager wA = history_manager w).
  { unfold wA. subst w1. destruct (file_out r); reflexivity. }
  destruct (is_builtin_registry cmd Hb) as [f Hf].
  destruct (execute_effect cmd args wA f Hf) as (Hraised & Hc & Hbuf).
  destruct (Hbuf h _ HerrA HoutA HobjA eq_refl) as (p & Hp).
  cbn [f_name f_mode f_data append] in Hp.
  pose proof (execute_streams cmd args wA) as (_ & _ & HerrD).
  rewrite HerrA, HcallsA, HhmA in Hc. rewrite HerrA in HerrD.
  rewrite HhmA in Hraised, Hp.
  exists f, (sys_stdin wA), (sys_stdout wA), (readable (sys_stdin wA) wA).
  set (eff := f args (readable (sys_stdin wA) wA) (history_manager w)) in *.
  destruct (execute cmd args wA) as [wD ex]. cbn [fst snd] in *. subst ex.
  assert (Hle : List.length (objects w) <= h) by lia.
  rewrite <- ?Hh.
  destruct (e_raised eff) as [[msg|code|]|]; cbn [fst snd].
  - assert (H2 : nth_error (objects (set_stderr (sys_stderr w1)
                    (set_stdout (sys_stdout w1) (print_error ("Error: " ++ msg) wD)))) h
                 = Some {| f_name := Some pe; f_mode := me;
                           f_data := err_text (e_writes eff)
                                     ++ error_text ("Error: " ++ msg);
                           f_pos := String.length
                                      (err_text (e_writes eff)
                                       ++ error_text ("Error: " ++ msg));
                           f_closed := false |}).
    { cbn [objects set_stderr set_stdout]. unfold print_error. rewrite HerrD.
      cbn [write objects set_objects]. rewrite update_nth_same, Hp. reflexivity. }
    destruct (close_opt_data (file_out r) _ h _ H2) as (o3 & H3 & D3 & _ & _ & C3).
    destruct (close_opt_data (Some (Handle h)) _ h o3 H3) as (o4 & H4 & D4 & _ & _ & C4).
    exists o4. split; [exact Hf|].
    rewrite !close_opt_calls. cbn [calls set_stderr set_stdout].
    rewrite print_error_calls.
    split; [exact Hc|]. split; [lia|]. split; [exact H4|].
    split; [now rewrite D4, D3|]. split; [reflexivity|].
    intros _. apply C4. now right.
  - eexists. split; [exact Hf|]. cbn [calls objects set_stderr set_stdout].
    split; [exact Hc|]. split; [lia|]. split; [exact Hp|].
    split; [simpl; now rewrite append_nil_r|]. split; [reflexivity | discriminate].
  - eexists. split; [exact Hf|]. cbn [calls objects set_stderr set_stdout].
    split; [exact Hc|]. split; [lia|]. split; [exact Hp|].
    split; [simpl; now rewrite append_nil_r|]. split; [reflexivity | discriminate].
  - assert (H2 : nth_error (objects (set_stderr (sys_stderr w1)
                    (set_stdout (sys_stdout w1) wD))) h
                 = Some {| f_name := Some pe; f_mode := me;
                           f_data := err_text (e_writes eff);
                           f_pos := p; f_closed := false |}) by exact Hp.
    destruct (close_opt_data (file_out r) _ h _ H2) as (o3 & H3 & D3 & _ & _ & C3).
    destruct (close_opt_data (Some (Handle h)) _ h o3 H3) as (o4 & H4 & D4 & _ & _ & C4).
    exists o4. split; [exact Hf|].
    rewrite !close_opt_calls. cbn [calls set_stderr set_stdout].
    split; [exact Hc|]. split; [lia|]. split; [exact H4|].
    split; [rewrite D4, D3; simpl; now rewrite append_nil_r|]. split; [reflexivity|].
    intros _. apply C4. now right.
Qed.

End BuiltinRedirection.

(** [echo hello world > greeting] and [type 2>> log] on the sample system. *)
Lemma builtin_stdout_goes_to_its_target_witness :
  let tokens := ["echo"; "hello"; "world"; ">"; "greeting"] in
  let final := fst (@run_single_command sample_env sample_builtins tokens initial_world) in
  valid_stream (sys_stderr initial_world) initial_world
  /\ is_builtin "echo" = true
  /\ console final = []
  /\ exists wrote o,
       nth_error (objects final) 0 = Some o
       /\ f_data o = out_text wrote /\ f_closed o = true.
Proof.
  intros tokens final.
  destruct (@builtin_stdout_goes_to_its_target sample_env sample_builtins
              tokens initial_world _ _ "echo" ["hello"; "world"] 0
              I eq_refl eq_refl eq_refl eq_refl)
    as (wrote & cin & cerr & input & o & _ & _ & Hn & Hd & Hc).
  split; [exact I|]. split; [reflexivity|]. split; [reflexivity|].
  exists wrote, o. split; [exact Hn|]. split; [exact Hd|]. exact (Hc eq_refl).
Defined.

Lemma builtin_stderr_goes_to_its_target_witness :
  let tokens := ["pwd"; "2>>"; "log"] in
  let ran := @run_single_command sample_env removed_cwd_builtins tokens initial_world in
  valid_stream (sys_stdout initial_world) initial_world
  /\ is_builtin "pwd" = true
  /\ console (fst ran) = []
  /\ snd ran = None
  /\ exists o,
       nth_error (objects (fst ran)) 0 = Some o
       /\ f_data o = error_text "Error: [Errno 2] No such file or directory"
       /\ f_closed o = true.
Proof.
  intros tokens ran.
  destruct (@builtin_stderr_goes_to_its_target sample_env removed_cwd_builtins
              tokens initial_world _ _ "pwd" [] 0
              I eq_refl eq_refl eq_refl eq_refl)
    as (f & cin & cout & input & o & Hf & _ & _ & Hn & Hd & Hr & Hc).
  inversion Hf; subst f. cbn in Hd, Hr.
  split; [exact I|]. split; [reflexivity|]. split; [reflexivity|].
  split; [exact Hr|].
  exists o. split; [exact Hn|]. split; [exact Hd|]. exact (Hc Hr).
Defined.

(** ** Pipelines: completion, chaining, exit *)

Section PipelinesMore.
Context {E : Env} {B : OsBuiltins}.

(** X13: a pipeline whose stages were all dispatched ends with the cleanup
    loop: every object created since it started, redirection target or
    inter-stage buffer, is closed when [run_pipeline] returns. *)
Theorem completed_pipeline_closes_everything commands w w1 ps1 :
  dispatched_through (List.length commands) 0 commands
    {| prev_stdin := None; to_close := [] |} w = Some (w1, ps1) ->
  run_pipeline commands w = (close_all (to_close ps1) w1, None)
  /\ forall h o,
       List.length (objects w) <= h ->
       nth_error (objects (fst (run_pipeline commands w))) h = Some o ->
       f_closed o = true.
Proof.
  intro Hall.
  assert (Hrun : run_pipeline commands w = (close_all (to_close ps1) w1, None)).
  { unfold run_pipeline. destruct commands as [|c commands].
    - simpl in Hall. inversion Hall; subst. reflexivity.
    - cbn [nonempty negb].
      pose proof (stages_after (c :: commands) _ _ [] _ _ _ _ Hall) as Hs.
      rewrite app_nil_r in Hs. rewrite Hs. reflexivity. }
  split; [exact Hrun|].
  rewrite Hrun. cbn [fst]. intros h o Hh Hn.
  destruct (dispatched_through_scheduled _ _ _ _ _ _ _ Hall) as (_ & _ & N).
  assert (Hlt : h < List.length (objects w1)).
  { rewrite <- (close_all_length (to_close ps1)).
    apply nth_error_Some. rewrite Hn. discriminate. }
  destruct (close_all_closes (to_close ps1) w1 h (N h (conj Hh Hlt)) Hlt) as (o' & Hn' & Hc').
  rewrite Hn in Hn'. inversion Hn'; subst. exact Hc'.
Qed.

(** Whatever a stage dispatches reads the stream the previous iteration
    left. *)
Lemma stage_reads_previous n i toks ps w s :
  prev_stdin ps = Some s ->
  calls (fst (fst (stage n i toks ps w))) = calls w
  \/ exists c rest,
       calls (fst (fst (stage n i toks ps w))) = calls w ++ c :: rest
       /\ call_stdin c = Some s.
Proof.
  intros Hprev. unfold stage.
  pose proof (parse_calls toks w) as Hpc.
  destruct (parse_redirections toks w) as [w1 [r|]] eqn:Hparse; cbn [fst] in Hpc; [|now left].
  destruct (clean_tokens r) as [|cmd args] eqn:Hclean; [now left|].
  rewrite Hprev. cbn [rebind].
  destruct (is_builtin cmd) eqn:Hb.
  - assert (Hgen : forall wC,
      sys_stdin wC = s -> calls wC = calls w1 ->
      exists c,
        calls (fst (execute cmd args wC)) = calls w ++ [c] /\ call_stdin c = Some s).
    { intros wC HinC HcallsC.
      destruct (execute_builtin cmd args wC Hb) as (wrote & Hc & _).
      eexists. rewrite Hc, HinC, HcallsC, Hpc. split; reflexivity. }
    destruct (negb (i =? n - 1)%nat).
    + unfold TemporaryFile. destruct (tempfile_fails _) as [refused|];
        [left; cbn [fst calls set_stdin]; exact Hpc|].
      right. cbv beta iota.
      match goal with |- context [execute cmd args ?w0] =>
        destruct (Hgen w0) as (c & Hc & Hs) end; [reflexivity | reflexivity |].
      destruct (execute cmd args _) as [wD e]. cbn [fst] in Hc.
      exists c, []. split; [|exact Hs].
      destruct e as [[msg|code|]|]; cbn [fst calls seek0 set_objects set_stdin set_stdout];
        rewrite ?print_error_calls; exact Hc.
    + right.
      match goal with |- context [execute cmd args ?w0] =>
        destruct (Hgen w0) as (c & Hc & Hs) end;
        [destruct (stdout_dest r); reflexivity | destruct (stdout_dest r); reflexivity |].
      destruct (execute cmd args _) as [wD e]. cbn [fst] in Hc.
      exists c, []. split; [|exact Hs].
      destruct e as [[msg|code|]|]; cbn [fst calls seek0 set_objects set_stdin set_stdout];
        rewrite ?print_error_calls; exact Hc.
  - destruct (find_executable cmd) as [exe|]; [|left; cbn [fst]; now rewrite print_error_calls].
    destruct (negb (truthy exe)); [left; cbn [fst]; now rewrite print_error_calls|].
    destruct (popen_fails (cmd :: args) exe); [left; cbn [fst]; now rewrite print_error_calls|].
    right. destruct (negb (i =? n - 1)%nat); cbn [fst calls log_call].
    + eexists. exists []. rewrite Hpc. split; reflexivity.
    + eexists. eexists. rewrite Hpc, <- app_assoc. split; reflexivity.
Qed.

(** X14: an external command in a stage that is not the last is started
    without being waited for, its input the stream the previous stage left,
    its output a pipe also when the stage redirects its output, its stderr
    the stage's stderr target; the read end of that pipe is what the next
    stage, if it is dispatched, reads. *)
Theorem external_stage_pipes_into_the_next
    n i toks next ps w w1 r cmd args exe :
  parse_redirections toks w = (w1, Some r) ->
  clean_tokens r = cmd :: args ->
  is_builtin cmd = false ->
  find_executable cmd = Some exe ->
  truthy exe = true ->
  popen_fails (cmd :: args) exe = None ->
  i <> n - 1 ->
  exists input w' ps',
    stage n i toks ps w = (w', ps', Next)
    /\ calls w' = calls w ++ [Popen (cmd :: args) exe (target_of (prev_stdin ps)) PIPE
                               (target_of (file_err r)) input]
    /\ prev_stdin ps' = Some (ProcStdout (nprocs w))
    /\ nprocs w' = S (nprocs w)
    /\ (calls (fst (fst (stage n (S i) next ps' w'))) = calls w'
        \/ exists c rest,
             calls (fst (fst (stage n (S i) next ps' w'))) = calls w' ++ c :: rest
             /\ call_stdin c = Some (ProcStdout (nprocs w))).
Proof.
  intros Hparse Hclean Hb Hexe Htr Hpo Hnl.
  destruct (parse_success _ _ _ _ Hparse) as (Hcalls & Hnp & _ & Hse & _).
  apply Nat.eqb_neq in Hnl.
  eexists. eexists. eexists. split.
  - unfold stage. rewrite Hparse, Hclean, Hb, Hexe, Htr, Hpo, Hnl. reflexivity.
  - split; [cbn [calls log_call]; now rewrite Hcalls, Hse|].
    split; [cbn [prev_stdin]; now rewrite Hnp|].
    split; [cbn [nprocs log_call]; now rewrite Hnp|].
    apply stage_reads_previous. cbn [prev_stdin]. now rewrite Hnp.
Qed.

Lemma execute_exit args w :
  snd (execute "exit" args w) = Some (SystemExit 0).
Proof.
  unfold execute. cbn [lookup registry String.eqb Ascii.eqb Bool.eqb].
  cbn [snd]. unfold cmd_exit.
  destruct (HistoryManager.save (history_manager w)) as [hm' persisted].
  cbn [e_raised]. destruct args as [|a rest]; [reflexivity|].
  destruct (py_int a); reflexivity.
Qed.

Lemma is_last_stage {A} (pre : list A) bad post :
  (List.length pre =? List.length (pre ++ bad :: post) - 1)%nat
  = match post with [] => true | _ :: _ => false end.
Proof.
  rewrite length_app. cbn [List.length].
  destruct post; [apply Nat.eqb_eq | apply Nat.eqb_neq]; cbn [List.length]; lia.
Qed.

(** X15: [exit] in a stage of a pipeline ends the shell at once with status
    0: the exception leaves [run_pipeline] from inside the loop, so no later
    stage is dispatched and the cleanup loop does not run; the state is the
    one the iteration of [exit] left.  This is so when [exit] is the last
    stage or the buffer for its output could be created; when the buffer of
    an [exit] that is not the last stage is refused, the exception of
    [tempfile.TemporaryFile] leaves [run_pipeline] instead and [exit] is not
    called. *)
Theorem exit_in_a_pipeline_leaves_at_once pre bad post w w1 ps1 w2 r args :
  dispatched_through (List.length (pre ++ bad :: post)) 0 pre
    {| prev_stdin := None; to_close := [] |} w = Some (w1, ps1) ->
  parse_redirections bad w1 = (w2, Some r) ->
  clean_tokens r = "exit" :: args ->
  (post = [] \/ tempfile_fails (List.length (objects w2)) = None ->
   run_pipeline (pre ++ bad :: post) w
   = (fst (fst (stage (List.length (pre ++ bad :: post)) (List.length pre) bad ps1 w1)),
      Some (SystemExit 0))
   /\ exists cin cout cerr input wrote,
        calls (fst (run_pipeline (pre ++ bad :: post) w))
        = calls w1 ++ [BuiltinCall "exit" args cin cout cerr input wrote])
  /\ (forall refused,
        post <> [] -> tempfile_fails (List.length (objects w2)) = Some refused ->
        snd (run_pipeline (pre ++ bad :: post) w) = Some (Exception refused)
        /\ calls (fst (run_pipeline (pre ++ bad :: post) w)) = calls w1).
Proof.
  intros Hpre Hparse Hclean.
  destruct (parse_success _ _ _ _ Hparse) as (Hcalls & _).
  assert (Hne : nonempty (pre ++ bad :: post) = true) by (destruct pre; reflexivity).
  assert (HlenA : List.length (objects (rebind set_stdin (prev_stdin ps1) w2))
                  = List.length (objects w2)).
  { destruct (prev_stdin ps1); reflexivity. }
  split.
  - intro Halloc.
    assert (Hstage : exists w3 ps3 cin cout cerr input wrote,
              stage (List.length (pre ++ bad :: post)) (List.length pre) bad ps1 w1
              = (w3, ps3, Raise (SystemExit 0))
              /\ calls w3 = calls w1 ++ [BuiltinCall "exit" args cin cout cerr input wrote]).
    { unfold stage. rewrite Hparse, Hclean.
      change (is_builtin "exit") with true. cbv iota.
      assert (Hgen : forall wC, calls wC = calls w2 ->
                exists w3 cin cout cerr input wrote,
                  execute "exit" args wC = (w3, Some (SystemExit 0))
                  /\ calls w3 = calls w1 ++ [BuiltinCall "exit" args cin cout cerr input wrote]).
      { intros wC HC. pose proof (execute_exit args wC) as Hx.
        destruct (execute_builtin "exit" args wC eq_refl) as (wrote & Hc & _).
        destruct (execute "exit" args wC) as [w3 e]. cbn [fst snd] in *. subst e.
        exists w3. do 5 eexists. split; [reflexivity|]. rewrite Hc, HC, Hcalls. reflexivity. }
      rewrite is_last_stage.
      destruct post as [|p post]; cbn [negb].
      - match goal with |- context [execute "exit" args ?w0] =>
          destruct (Hgen w0) as (w3 & cin & cout & cerr & input & wrote & Hx & Hc) end.
        { destruct (prev_stdin ps1), (stdout_dest r); reflexivity. }
        rewrite Hx. do 7 eexists. split; [reflexivity|]. exact Hc.
      - destruct Halloc as [Hnil | Hok]; [discriminate|].
        unfold TemporaryFile. rewrite HlenA, Hok. cbv beta iota.
        match goal with |- context [execute "exit" args ?w0] =>
          destruct (Hgen w0) as (w3 & cin & cout & cerr & input & wrote & Hx & Hc) end.
        { destruct (prev_stdin ps1); reflexivity. }
        rewrite Hx. do 7 eexists. split; [reflexivity|]. exact Hc. }
    destruct Hstage as (w3 & ps3 & cin & cout & cerr & input & wrote & Hs & Hc).
    assert (Hrun : run_pipeline (pre ++ bad :: post) w = (w3, Some (SystemExit 0))).
    { unfold run_pipeline. rewrite Hne. cbn [negb].
      rewrite (stages_after pre _ _ _ _ _ _ _ Hpre). cbn [stages Nat.add].
      now rewrite Hs. }
    rewrite Hrun, Hs. cbn [fst]. split; [reflexivity|].
    now exists cin, cout, cerr, input, wrote.
  - intros refused Hpost Hfail.
    unfold run_pipeline. rewrite Hne. cbn [negb].
    rewrite (stages_after pre _ _ _ _ _ _ _ Hpre). cbn [stages Nat.add].
    unfold stage. rewrite Hparse, Hclean.
    change (is_builtin "exit") with true. cbv iota.
    rewrite is_last_stage. destruct post as [|p post]; [congruence|]. cbn [negb].
    unfold TemporaryFile. rewrite HlenA, Hfail. cbn [fst snd].
    split; [reflexivity|]. rewrite <- Hcalls. destruct (prev_stdin ps1); reflexivity.
Qed.

End PipelinesMore.

Lemma completed_pipeline_closes_everything_witness :
  let commands := [["echo"; "b"; "a"]; ["sort"; ">"; "sorted"]] in
  let final := fst (@run_pipeline sample_env sample_builtins commands initial_world) in
  List.length (objects final) = 2
  /\ forall h o, nth_error (objects final) h = Some o -> f_closed o = true.
Proof.
  intros commands final.
  destruct (@completed_pipeline_closes_everything sample_env sample_builtins
              commands initial_world _ _ eq_refl) as (_ & Hclosed).
  split; [reflexivity|].
  intros h o. apply Hclosed. apply Nat.le_0_l.
Defined.

Lemma external_stage_pipes_into_the_next_witness :
  is_builtin "sort" = false
  /\ @find_executable sample_env "sort" = Some "/bin/sort"
  /\ 0 <> 2 - 1
  /\ exists input w' ps',
       @stage sample_env sample_builtins 2 0 ["sort"; ">"; "ignored"]
         {| prev_stdin := None; to_close := [] |} initial_world = (w', ps', Next)
       /\ calls w' = [Popen ["sort"] "/bin/sort" Inherit PIPE Inherit input]
       /\ prev_stdin ps' = Some (ProcStdout 0).
Proof.
  split; [reflexivity|]. split; [reflexivity|]. split; [discriminate|].
  destruct (@external_stage_pipes_into_the_next sample_env sample_builtins
              2 0 ["sort"; ">"; "ignored"] ["sort"] {| prev_stdin := None; to_close := [] |}
              initial_world _ _ "sort" [] "/bin/sort"
              eq_refl eq_refl eq_refl eq_refl eq_refl eq_refl (fun H : 0 = 2 - 1 => O_S 0 H))
    as (input & w' & ps' & Hs & Hc & Hp & _).
  exists input, w', ps'. repeat split; assumption.
Defined.

Lemma exit_in_a_pipeline_leaves_at_once_witness :
  let commands := [["echo"; "hi"; ">"; "f"]; ["exit"; "7"]; ["sort"]] in
  (snd (@run_pipeline sample_env sample_builtins commands initial_world)
   = Some (SystemExit 0)
   /\ nth_error (objects (fst (@run_pipeline sample_env sample_builtins commands
                                 initial_world))) 0
      = Some {| f_name := Some "f"; f_mode := "w"; f_data := EmptyString;
                f_pos := 0; f_closed := false |})
  /\ snd (@run_pipeline crowded_env sample_builtins
            [["echo"; "hi"]; ["exit"; "7"]; ["sort"]] initial_world)
     = Some (Exception "[Errno 24] Too many open files: '/tmp'").
Proof.
  intro commands.
  destruct (@exit_in_a_pipeline_leaves_at_once sample_env sample_builtins
              [["echo"; "hi"; ">"; "f"]] ["exit"; "7"] [["sort"]] initial_world
              _ _ _ _ ["7"] eq_refl eq_refl eq_refl) as (Hok & _).
  destruct Hok as (Hrun & _); [right; reflexivity|].
  destruct (@exit_in_a_pipeline_leaves_at_once crowded_env sample_builtins
              [["echo"; "hi"]] ["exit"; "7"] [["sort"]] initial_world
              _ _ _ _ ["7"] eq_refl eq_refl eq_refl) as (_ & Hbad).
  split; [split; [exact (f_equal snd Hrun) | reflexivity]|].
  apply (Hbad "[Errno 24] Too many open files: '/tmp'"); [discriminate | reflexivity].
Defined.

(** ** Looking up executables *)

Section Lookup.
Context {E : Env}.

Lemma find_in_path_sound name dirs p :
  find_in_path name dirs = Some p ->
  os_path_isfile p = true
  /\ exists d, In d dirs
       /\ (p = os_path_join d name
           \/ (win32 = true /\ p = (os_path_join d name ++ ".exe")%string)).
Proof.
  induction dirs as [|d dirs IH]; simpl; [discriminate|].
  destruct (os_path_isfile (os_path_join d name)) eqn:Hf.
  - intro H. inversion H; subst. split; [exact Hf|]. exists d. auto.
  - destruct (win32 && os_path_isfile (os_path_join d name ++ ".exe")) eqn:Hw.
    + intro H. inversion H; subst. apply andb_prop in Hw. destruct Hw as [Hw Hx].
      split; [exact Hx|]. exists d. auto.
    + intro H. destruct (IH H) as (Hp & d' & Hin & Hd). split; [exact Hp|].
      exists d'. auto.
Qed.

Lemma find_in_path_complete name dirs d :
  In d dirs -> os_path_isfile (os_path_join d name) = true ->
  find_in_path name dirs <> None.
Proof.
  induction dirs as [|d' dirs IH]; simpl; [contradiction|].
  intros [-> | Hin] Hf.
  - rewrite Hf. discriminate.
  - destruct (os_path_isfile (os_path_join d' name)); [discriminate|].
    destruct (win32 && _); [discriminate|]. now apply IH.
Qed.

(** X16: what [find_executable] returns is a regular file: the name itself
    when it has a directory part and is a file, or else the name joined to a
    directory of [PATH], with [.exe] appended only on Windows.  It does not
    fail when some directory of [PATH] holds a file of that name. *)
Theorem find_executable_returns_a_file (name : string) :
  (forall p, find_executable name = Some p ->
     os_path_isfile p = true
     /\ ((p = name /\ (os_path_isabs name || truthy (os_path_dirname name)) = true)
         \/ exists d, In d PATH
              /\ (p = os_path_join d name
                  \/ (win32 = true /\ p = (os_path_join d name ++ ".exe")%string))))
  /\ (forall d, In d PATH -> os_path_isfile (os_path_join d name) = true ->
                find_executable name <> None).
Proof.
  unfold find_executable. split.
  - intros p.
    destruct ((os_path_isabs name || truthy (os_path_dirname name)) && os_path_isfile name)
      eqn:H1.
    + intro H. inversion H; subst. apply andb_prop in H1. destruct H1 as [Ha Hf]. auto.
    + intro H. destruct (find_in_path_sound _ _ _ H) as (Hf & Hd). auto.
  - intros d Hin Hf.
    destruct ((os_path_isabs name || truthy (os_path_dirname name)) && os_path_isfile name);
      [discriminate|].
    now apply (find_in_path_complete name PATH d).
Qed.

Lemma type_lookup_not_found name dirs :
  find_in_path name dirs = None ->
  type_lookup name dirs = [(Err, error_text (name ++ ": not found"))].
Proof.
  induction dirs as [|d dirs IH]; simpl; [reflexivity|].
  destruct (os_path_isfile (os_path_join d name)); [discriminate|].
  destruct (win32 && os_path_isfile (os_path_join d name ++ ".exe")); [discriminate|].
  simpl. exact IH.
Qed.

(** X17: [type] never reports a file for a name the shell could not run: if
    [find_executable] finds nothing for a name that is not a built-in, [type]
    prints its not-found line on standard error and nothing on standard
    output. *)
Theorem type_reports_not_found_when_lookup_fails name rest input hm :
  is_builtin name = false ->
  find_executable name = None ->
  e_writes (cmd_type (name :: rest) input hm) = [(Err, error_text (name ++ ": not found"))]
  /\ e_raised (cmd_type (name :: rest) input hm) = None.
Proof.
  intros Hb Hf. unfold cmd_type. cbn [e_writes e_raised]. rewrite Hb.
  split; [|reflexivity]. apply type_lookup_not_found.
  unfold find_executable in Hf.
  destruct ((os_path_isabs name || truthy (os_path_dirname name)) && os_path_isfile name);
    [discriminate | exact Hf].
Qed.

End Lookup.

Lemma find_executable_returns_a_file_witness :
  @find_executable sample_env "sort" = Some "/bin/sort"
  /\ @os_path_isfile sample_env "/bin/sort" = true
  /\ @find_executable sample_env "sort" <> None.
Proof.
  destruct (@find_executable_returns_a_file sample_env "sort") as (Hsound & Hcomplete).
  split; [reflexivity|].
  split; [exact (proj1 (Hsound "/bin/sort" eq_refl))|].
  apply (Hcomplete "/bin"); [now left | reflexivity].
Defined.

Lemma type_reports_not_found_when_lookup_fails_witness :
  is_builtin "frobnicate" = false
  /\ @find_executable sample_env "frobnicate" = None
  /\ e_writes (@cmd_type sample_env ["frobnicate"] None
                 {| HistoryManager.history := []; HistoryManager.written_count := 0 |})
     = [(Err, error_text "frobnicate: not found")].
Proof.
  split; [reflexivity|]. split; [reflexivity|].
  exact (proj1 (@type_reports_not_found_when_lookup_fails sample_env "frobnicate" [] None
                  _ eq_refl eq_refl)).
Defined.

(** ** echo *)

Lemma replace2_without a b new s :
  all_chars (fun c => negb (Ascii.eqb c a)) s = true ->
  replace2 a b new s = s.
Proof.
  induction s as [| c | c1 c2 r IHr IH2] using string_ind2; intro H.
  - reflexivity.
  - reflexivity.
  - simpl in H. apply andb_prop in H. destruct H as [H1 H2].
    apply negb_true_iff in H1.
    remember (String c2 r) as t eqn:Et.
    cbn [replace2]. rewrite Et at 1. rewrite H1. cbn [andb].
    f_equal. apply IH2. rewrite Et. simpl. exact H2.
Qed.

Lemma all_chars_append p s t :
  all_chars p (s ++ t) = all_chars p s && all_chars p t.
Proof.
  induction s as [|c s IH]; simpl; [reflexivity|]. now rewrite IH, andb_assoc.
Qed.

Lemma join_all_chars p sep ts :
  all_chars p sep = true ->
  Forall (fun t => all_chars p t = true) ts ->
  all_chars p (join sep ts) = true.
Proof.
  intros Hsep. induction ts as [|t ts IH]; intro H; [reflexivity|].
  inversion H as [|? ? Ht Hts]; subst.
  destruct ts as [|u ts]; [exact Ht|].
  change (join sep (t :: u :: ts)) with (t ++ sep ++ join sep (u :: ts))%string.
  rewrite !all_chars_append, Ht, Hsep, (IH Hts). reflexivity.
Qed.

(** X18: [echo] prints its arguments joined by single spaces and a
    newline, on standard output only, and never fails.  With [-e] as first
    argument the same holds for the arguments after it when they hold no
    backslash: there is nothing to translate. *)
Theorem echo_prints_its_arguments args input hm :
  (hd_error args <> Some "-e" ->
   cmd_echo args input hm
   = {| e_writes := [(Out, line_of (join SPACE args))]; e_appended := [];
        e_history := hm; e_raised := None |})
  /\ (Forall (fun t => backslash_free t = true) args ->
      cmd_echo ("-e" :: args) input hm
      = {| e_writes := [(Out, line_of (join SPACE args))]; e_appended := [];
           e_history := hm; e_raised := None |}).
Proof.
  split.
  - intro Hhd. unfold cmd_echo. destruct args as [|a rest]; [reflexivity|].
    destruct (String.eqb a "-e") eqn:Ea; [|reflexivity].
    apply String.eqb_eq in Ea. subst a. now elim Hhd.
  - intro Hfree. unfold cmd_echo. cbn [String.eqb Ascii.eqb Bool.eqb tl].
    assert (Hj : all_chars (fun c => negb (Ascii.eqb c backslash)) (join SPACE args) = true).
    { apply join_all_chars; [reflexivity | exact Hfree]. }
    rewrite (replace2_without backslash "n" newline _ Hj).
    rewrite (replace2_without backslash "t" "009" _ Hj).
    rewrite (replace2_without backslash backslash backslash _ Hj).
    reflexivity.
Qed.

Lemma echo_prints_its_arguments_witness :
  hd_error ["a"; "-e"; "b"] <> Some "-e"
  /\ Forall (fun t => backslash_free t = true) ["x y"; "z"]
  /\ e_writes (cmd_echo ["a"; "-e"; "b"] None
                 {| HistoryManager.history := []; HistoryManager.written_count := 0 |})
     = [(Out, line_of "a -e b")]
  /\ e_writes (cmd_echo ["-e"; "x y"; "z"] None
                 {| HistoryManager.history := []; HistoryManager.written_count := 0 |})
     = [(Out, line_of "x y z")].
Proof.
  assert (H1 : hd_error ["a"; "-e"; "b"] <> Some "-e") by discriminate.
  assert (H2 : Forall (fun t => backslash_free t = true) ["x y"; "z"])
    by (repeat constructor).
  split; [exact H1|]. split; [exact H2|]. split.
  - exact (f_equal e_writes (proj1 (echo_prints_its_arguments ["a"; "-e"; "b"] None _) H1)).
  - exact (f_equal e_writes (proj2 (echo_prints_its_arguments ["x y"; "z"] None _) H2)).
Defined.

(** ** History files *)

Import HistoryManager HistoryFiles.

Lemma universal_newlines_without_cr s :
  all_chars (fun c => negb (Ascii.eqb c carriage_return)) s = true ->
  universal_newlines s = s.
Proof.
  induction s as [|c s IH]; intro H; [reflexivity|].
  simpl in H. apply andb_prop in H. destruct H as [Hc Hs].
  apply negb_true_iff in Hc. cbn [universal_newlines]. rewrite Hc.
  now rewrite (IH Hs).
Qed.

Lemma lines_from_line l :
  all_chars (fun c => negb (Ascii.eqb c newline)) l = true ->
  forall rest cur,
    lines_from (l ++ String newline rest) cur
    = (cur ++ l ++ String newline EmptyString)%string :: lines_from rest EmptyString.
Proof.
  induction l as [|c l IH]; intros H rest cur.
  - simpl. reflexivity.
  - simpl in H. apply andb_prop in H. destruct H as [Hc Hl].
    apply negb_true_iff in Hc.
    change (String c l ++ String newline rest)%string
      with (String c (l ++ String newline rest)%string).
    cbn [lines_from]. rewrite Hc, (IH Hl). now rewrite snoc_append.
Qed.

Lemma concat_empty_cons x l :
  String.concat EmptyString (x :: l) = (x ++ String.concat EmptyString l)%string.
Proof. destruct l; simpl; [now rewrite append_nil_r | reflexivity]. Qed.

Lemma written_cons l ls : written (l :: ls) = (l ++ String newline (written ls))%string.
Proof.
  unfold written. cbn [map]. rewrite concat_empty_cons. unfold line_of.
  now rewrite append_assoc.
Qed.

Lemma lines_from_written ls :
  Forall (fun l => all_chars (fun c => negb (Ascii.eqb c newline)) l = true) ls ->
  lines_from (written ls) EmptyString = map line_of ls.
Proof.
  induction ls as [|l ls IH]; intro H; [reflexivity|].
  inversion H as [|? ? Hl Hls]; subst.
  rewrite written_cons, lines_from_line by exact Hl. cbn [map append].
  now rewrite (IH Hls).
Qed.

Lemma written_without_cr ls :
  Forall (fun l => all_chars (fun c => negb (Ascii.eqb c carriage_return)) l = true) ls ->
  all_chars (fun c => negb (Ascii.eqb c carriage_return)) (written ls) = true.
Proof.
  induction ls as [|l ls IH]; intro H; [reflexivity|].
  inversion H as [|? ? Hl Hls]; subst.
  rewrite written_cons, all_chars_append, Hl. simpl. exact (IH Hls).
Qed.

Lemma written_app a b : written (a ++ b) = (written a ++ written b)%string.
Proof.
  induction a as [|l a IH]; [reflexivity|].
  change ((l :: a) ++ b) with (l :: (a ++ b)).
  rewrite !written_cons, IH. now rewrite append_assoc.
Qed.

Lemma lstrip_length s : String.length (lstrip s) <= String.length s.
Proof.
  induction s as [|c s IH]; simpl; [lia|].
  destruct (isspace c); simpl; lia.
Qed.

Lemma rstrip_length s : String.length (rstrip s) <= String.length s.
Proof.
  induction s as [|c s IH]; simpl; [lia|].
  destruct (rstrip s); [destruct (isspace c)|]; simpl in *; lia.
Qed.

Lemma rstrip_append_space s ch :
  isspace ch = true -> rstrip (s ++ String ch EmptyString) = rstrip s.
Proof.
  intro H. induction s as [|c s IH]; simpl.
  - now rewrite H.
  - now rewrite IH.
Qed.

(** A non-empty string that [strip] leaves alone starts with a character
    that is not white space and is left alone by [rstrip]. *)
Lemma stripped_shape l :
  truthy l = true -> strip l = l ->
  exists c r, l = String c r /\ isspace c = false /\ rstrip l = l.
Proof.
  destruct l as [|c r]; [discriminate|]. intros _ Hs.
  unfold strip in Hs. cbn [lstrip] in Hs.
  destruct (isspace c) eqn:Hc.
  - exfalso. pose proof (rstrip_length (lstrip r)) as H1.
    pose proof (lstrip_length r) as H2. rewrite Hs in H1. simpl in H1. lia.
  - exists c, r. auto.
Qed.

Lemma strip_tidy_line l : tidy l -> strip (line_of l) = l /\ truthy l = true.
Proof.
  intros (Ht & Hs & _). split; [|exact Ht].
  destruct (stripped_shape l Ht Hs) as (c & r & -> & Hc & Hr).
  unfold strip, line_of.
  change (String c r ++ String newline EmptyString)%string
    with (String c (r ++ String newline EmptyString)%string).
  cbn [lstrip]. rewrite Hc.
  change (String c (r ++ String newline EmptyString)%string)
    with (String c r ++ String newline EmptyString)%string.
  rewrite rstrip_append_space by reflexivity. exact Hr.
Qed.

Lemma all_chars_weaken (p q : ascii -> bool) s :
  (forall c, p c = true -> q c = true) -> all_chars p s = true -> all_chars q s = true.
Proof.
  intro Hpq. induction s as [|c s IH]; simpl; [auto|].
  intro H. apply andb_prop in H. destruct H as [Hc Hs].
  now rewrite (Hpq c Hc), (IH Hs).
Qed.

Lemma tidy_no_breaks l :
  tidy l ->
  all_chars (fun c => negb (Ascii.eqb c newline)) l = true
  /\ all_chars (fun c => negb (Ascii.eqb c carriage_return)) l = true.
Proof.
  intros (_ & _ & H). split.
  - eapply all_chars_weaken; [|exact H]. intros c Hc. simpl in Hc.
    apply negb_true_iff in Hc. apply orb_false_elim in Hc. now rewrite (proj1 Hc).
  - eapply all_chars_weaken; [|exact H]. intros c Hc. simpl in Hc.
    apply negb_true_iff in Hc. apply orb_false_elim in Hc. now rewrite (proj2 Hc).
Qed.

(** Reading back what was written for tidy lines gives the lines. *)
Lemma read_into_written ls :
  Forall tidy ls -> forall h, read_into (written ls) h = h ++ ls.
Proof.
  intros Hls h. unfold read_into, file_lines.
  rewrite universal_newlines_without_cr.
  2:{ apply written_without_cr. eapply Forall_impl; [|exact Hls].
      intros l Hl. exact (proj2 (tidy_no_breaks l Hl)). }
  rewrite lines_from_written.
  2:{ eapply Forall_impl; [|exact Hls]. intros l Hl. exact (proj1 (tidy_no_breaks l Hl)). }
  revert h. induction Hls as [|l ls Hl Hls IH]; intro h.
  - simpl. now rewrite app_nil_r.
  - cbn [map fold_left]. destruct (strip_tidy_line l Hl) as [-> ->].
    rewrite IH. now rewrite <- app_assoc.
Qed.

Section HistoryRoundTrips.
Context {E : Env}.

(** X19: [history -w file] followed by [history -r file] gives the history
    back: the lines written, read into a manager, are appended to its history
    unchanged and in order, provided each line is tidy (not empty, no white
    space at its ends, no line break inside) and the file can be opened. *)
Theorem written_history_is_read_back filename d hm hm0 :
  open_fails filename "w" = None ->
  open_fails filename "r" = None ->
  Forall tidy (history hm) ->
  snd (write_to_file filename d hm) = []
  /\ load_from_file filename (fst (write_to_file filename d hm)) hm0
     = ({| history := history hm0 ++ history hm; written_count := written_count hm0 |}, []).
Proof.
  intros Hw Hr Htidy. unfold write_to_file. rewrite Hw. cbn [fst snd].
  split; [reflexivity|].
  unfold load_from_file, read_text, content, write_text. rewrite Hr.
  cbn [lookup]. rewrite String.eqb_refl.
  now rewrite (read_into_written _ Htidy).
Qed.

Lemma fold_add lines : forall hm,
  fold_left (fun h l => add l h) lines hm
  = {| history := history hm ++ filter truthy lines; written_count := written_count hm |}.
Proof.
  induction lines as [|l lines IH]; intro hm.
  - simpl. rewrite app_nil_r. now destruct hm.
  - cbn [fold_left filter]. rewrite IH. unfold add.
    destruct (truthy l); cbn [history written_count]; [|reflexivity].
    now rewrite <- app_assoc.
Qed.

Lemma load_written_count d hm :
  written_count hm = List.length (history hm) ->
  written_count (load d hm) = List.length (history (load d hm)).
Proof.
  intro H. unfold load. destruct HISTFILE as [path|]; [|exact H].
  destruct (truthy path && os_path_exists path d); [|exact H].
  destruct (read_text path d); [reflexivity | exact H].
Qed.


(** X21: what [save] wrote, [load] reads back.  When the history file does
    not exist yet, saving a history of tidy lines none of which was written
    before and loading the file into a new manager gives the same history,
    all of it marked as written. *)
Theorem saved_history_is_loaded_back path d hm :
  HISTFILE = Some path ->
  truthy path = true ->
  open_fails path "a" = None ->
  open_fails path "r" = None ->
  content path d = None ->
  written_count hm = 0 ->
  Forall tidy (history hm) ->
  load (snd (save d hm)) {| history := []; written_count := 0 |}
  = {| history := history hm; written_count := List.length (history hm) |}.
Proof.
  intros Hh Ht Ha Hr Hd Hwc Htidy.
  unfold save, HistoryManager.save. rewrite Hh, Ht, Ha, Hwc.
  cbn [negb skipn fold_left fst snd].
  unfold load. rewrite Hh, Ht.
  unfold os_path_exists, read_text, append_text, content in *. rewrite Hr, Hd.
  cbn [lookup]. rewrite String.eqb_refl. cbn [andb append history].
  fold (written (history hm)).
  now rewrite (read_into_written _ Htidy).
Qed.

End HistoryRoundTrips.

Lemma tidy_examples : Forall tidy ["ls -l"; "echo 'a  b'"; "cat f | wc"].
Proof. repeat constructor. Defined.

Lemma written_history_is_read_back_witness :
  Forall tidy ["ls -l"; "echo 'a  b'"; "cat f | wc"]
  /\ @load_from_file sample_env "h.txt"
       (fst (@write_to_file sample_env "h.txt" []
               {| history := ["ls -l"; "echo 'a  b'"; "cat f | wc"]; written_count := 1 |}))
       {| history := ["pwd"]; written_count := 0 |}
     = ({| history := ["pwd"; "ls -l"; "echo 'a  b'"; "cat f | wc"]; written_count := 0 |}, []).
Proof.
  split; [exact tidy_examples|].
  exact (proj2 (@written_history_is_read_back sample_env "h.txt" []
                  {| history := ["ls -l"; "echo 'a  b'"; "cat f | wc"]; written_count := 1 |}
                  {| history := ["pwd"]; written_count := 0 |}
                  eq_refl eq_refl tidy_examples)).
Defined.


Lemma saved_history_is_loaded_back_witness :
  Forall tidy ["ls -l"; "echo 'a  b'"; "cat f | wc"]
  /\ @load sample_env
       (snd (@save sample_env []
               {| history := ["ls -l"; "echo 'a  b'"; "cat f | wc"]; written_count := 0 |}))
       {| history := []; written_count := 0 |}
     = {| history := ["ls -l"; "echo 'a  b'"; "cat f | wc"]; written_count := 3 |}.
Proof.
  split; [exact tidy_examples|].
  exact (@saved_history_is_loaded_back sample_env ".history" []
           {| history := ["ls -l"; "echo 'a  b'"; "cat f | wc"]; written_count := 0 |}
           eq_refl eq_refl eq_refl eq_refl eq_refl eq_refl tidy_examples).
Defined.

(** ** grep *)

Import MoreBuiltins.

Lemma lines_from_whole s : forall cur,
  String.concat EmptyString (lines_from s cur) = (cur ++ s)%string.
Proof.
  induction s as [|c s IH]; intro cur.
  - simpl. rewrite append_nil_r. destruct (truthy cur) eqn:E; [reflexivity|].
    apply truthy_false in E. now subst.
  - cbn [lines_from]. destruct (Ascii.eqb c newline).
    + rewrite concat_empty_cons, IH. simpl. now rewrite snoc_append.
    + rewrite IH. now rewrite snoc_append.
Qed.

Lemma lines_from_no_break t :
  all_chars (fun c => negb (Ascii.eqb c newline)) t = true ->
  forall cur,
    lines_from t cur = if truthy (cur ++ t) then [(cur ++ t)%string] else [].
Proof.
  induction t as [|c t IH]; intros H cur.
  - simpl. now rewrite append_nil_r.
  - simpl in H. apply andb_prop in H. destruct H as [Hc Ht].
    apply negb_true_iff in Hc. cbn [lines_from]. rewrite Hc, (IH Ht).
    now rewrite snoc_append.
Qed.

(** The lines kept by a filter, put end to end, split into those lines
    again. *)
Lemma lines_from_kept (f : string -> bool) s : forall cur,
  all_chars (fun c => negb (Ascii.eqb c newline)) cur = true ->
  lines_from (String.concat EmptyString (filter f (lines_from s cur))) EmptyString
  = filter f (lines_from s cur).
Proof.
  induction s as [|c s IH]; intros cur Hcur.
  - cbn [lines_from]. destruct (truthy cur) eqn:Et; [|reflexivity].
    cbn [filter]. destruct (f cur); [|reflexivity].
    cbn [String.concat]. rewrite lines_from_no_break by exact Hcur.
    cbn [append]. now rewrite Et.
  - cbn [lines_from]. destruct (Ascii.eqb c newline) eqn:Ec.
    + apply Ascii.eqb_eq in Ec. subst c. cbn [filter].
      destruct (f (snoc cur newline)).
      * rewrite concat_empty_cons. unfold snoc at 1. rewrite append_assoc.
        cbn [append]. rewrite lines_from_line by exact Hcur.
        cbn [append]. unfold snoc. now rewrite (IH EmptyString eq_refl).
      * apply (IH EmptyString eq_refl).
    + apply IH. rewrite all_chars_snoc, Hcur, Ec. reflexivity.
Qed.

Lemma universal_newlines_step c rest :
  universal_newlines (String c rest) =
  if Ascii.eqb c carriage_return then
    match rest with
    | String c2 rest' =>
        if Ascii.eqb c2 newline
        then String newline (universal_newlines rest')
        else String newline (universal_newlines rest)
    | EmptyString => String newline EmptyString
    end
  else String c (universal_newlines rest).
Proof. reflexivity. Qed.

Lemma universal_newlines_no_cr s :
  all_chars (fun c => negb (Ascii.eqb c carriage_return)) (universal_newlines s) = true.
Proof.
  induction s as [| c | c1 c2 r IHr IH2] using string_ind2.
  - reflexivity.
  - rewrite universal_newlines_step.
    destruct (Ascii.eqb c carriage_return) eqn:E; [reflexivity|].
    cbn [universal_newlines all_chars]. now rewrite E.
  - rewrite universal_newlines_step.
    destruct (Ascii.eqb c1 carriage_return) eqn:E1.
    + destruct (Ascii.eqb c2 newline); cbn [all_chars]; [exact IHr | exact IH2].
    + cbn [all_chars]. rewrite E1. exact IH2.
Qed.

Lemma lines_from_no_cr s : forall cur,
  all_chars (fun c => negb (Ascii.eqb c carriage_return)) s = true ->
  all_chars (fun c => negb (Ascii.eqb c carriage_return)) cur = true ->
  Forall (fun l => all_chars (fun c => negb (Ascii.eqb c carriage_return)) l = true)
    (lines_from s cur).
Proof.
  induction s as [|c s IH]; intros cur Hs Hcur.
  - simpl. destruct (truthy cur); repeat constructor. exact Hcur.
  - simpl in Hs. apply andb_prop in Hs. destruct Hs as [Hc Hs].
    assert (Hsn : all_chars (fun c => negb (Ascii.eqb c carriage_return)) (snoc cur c) = true).
    { now rewrite all_chars_snoc, Hcur, Hc. }
    cbn [lines_from]. destruct (Ascii.eqb c newline).
    + constructor; [exact Hsn | now apply IH].
    + now apply IH.
Qed.

Lemma concat_no_cr ls :
  Forall (fun l => all_chars (fun c => negb (Ascii.eqb c carriage_return)) l = true) ls ->
  all_chars (fun c => negb (Ascii.eqb c carriage_return)) (String.concat EmptyString ls) = true.
Proof.
  induction ls as [|l ls IH]; intro H; [reflexivity|].
  inversion H as [|? ? Hl Hls]; subst.
  rewrite concat_empty_cons, all_chars_append, Hl. exact (IH Hls).
Qed.

Lemma out_text_lines ls :
  out_text (map (fun line => (Out, line)) ls) = String.concat EmptyString ls.
Proof.
  induction ls as [|l ls IH]; [reflexivity|].
  cbn [map out_text]. now rewrite concat_empty_cons, IH.
Qed.

Lemma Forall_filter {A} (P : A -> Prop) f l : Forall P l -> Forall P (filter f l).
Proof.
  intro H. apply Forall_forall. intros x Hx. apply filter_In in Hx.
  rewrite Forall_forall in H. now apply H.
Qed.

Lemma contains_empty s : contains EmptyString s = true.
Proof. destruct s; reflexivity. Qed.

Section Grep.
Context {E : Env}.

(** X22: [grep pattern] on its standard input.  Every line it prints is a
    line of the input that holds the pattern; running it again on what it
    printed prints the same, so a second [grep] of the same pattern in a
    pipeline changes nothing; with the empty pattern it prints the whole
    input as read. *)
Theorem grep_keeps_matching_lines (d : disk) (pattern input : string) :
  Forall (fun w => exists line,
            w = (Out, line) /\ contains pattern line = true
            /\ In line (file_lines input))
    (cmd_grep d [pattern] input)
  /\ cmd_grep d [pattern] (out_text (cmd_grep d [pattern] input))
     = cmd_grep d [pattern] input
  /\ out_text (cmd_grep d [EmptyString] input) = universal_newlines input.
Proof.
  unfold cmd_grep. cbn [nonempty]. unfold matching. split; [|split].
  - apply Forall_forall. intros w Hw. apply in_map_iff in Hw.
    destruct Hw as (line & <- & Hin). apply filter_In in Hin.
    exists line. tauto.
  - rewrite out_text_lines. unfold file_lines at 1.
    rewrite universal_newlines_without_cr.
    + unfold file_lines. rewrite lines_from_kept by reflexivity.
      f_equal. clear. induction (lines_from _ _) as [|l ls IH]; [reflexivity|].
      cbn [filter]. destruct (contains pattern l) eqn:El; [|exact IH].
      cbn [filter]. now rewrite El, IH.
    + apply concat_no_cr, Forall_filter, lines_from_no_cr;
        [apply universal_newlines_no_cr | reflexivity].
  - rewrite out_text_lines.
    assert (Hall : forall ls, filter (contains EmptyString) ls = ls).
    { induction ls as [|l ls IH]; [reflexivity|].
      cbn [filter]. now rewrite contains_empty, IH. }
    rewrite Hall. unfold file_lines. now rewrite lines_from_whole.
Qed.

End Grep.

(** ** history *)

Lemma listing_length entries : forall i, List.length (listing i entries) = List.length entries.
Proof. induction entries as [|e es IH]; intro i; simpl; [reflexivity | now rewrite IH]. Qed.

Lemma listing_nth entries : forall i k,
  k < List.length entries ->
  nth_error (listing i entries) k
  = Some (Out, line_of (rjust 5 (decimal (i + k + 1)) ++ "  "
                        ++ nth k entries EmptyString)).
Proof.
  induction entries as [|e es IH]; intros i k Hk; simpl in Hk; [lia|].
  destruct k as [|k].
  - cbn [listing nth_error nth]. now rewrite Nat.add_0_r.
  - cbn [listing nth_error nth]. rewrite IH by lia.
    replace (S i + k + 1) with (i + S k + 1) by lia. reflexivity.
Qed.

Section HistoryListing.
Context {E : Env}.


End HistoryListing.


(** ** The read loop *)

Import ShellLoop.

Lemma write_persistent s t w : persistent (write s t w) = persistent w.
Proof. destruct s; reflexivity. Qed.

Lemma print_error_persistent m w : persistent (print_error m w) = persistent w.
Proof. apply write_persistent. Qed.

Lemma print_persistent m w : persistent (print m w) = persistent w.
Proof. apply write_persistent. Qed.

Lemma perform_persistent ws : forall w, persistent (perform ws w) = persistent w.
Proof.
  induction ws as [|[c t] ws IH]; intro w; simpl; [reflexivity|].
  destruct c; rewrite IH; apply write_persistent.
Qed.

Lemma close_persistent s w : persistent (close s w) = persistent w.
Proof. destruct s; reflexivity. Qed.

Lemma close_opt_persistent o w : persistent (close_opt o w) = persistent w.
Proof. destruct o; [apply close_persistent | reflexivity]. Qed.

Lemma close_all_persistent l : forall w, persistent (close_all l w) = persistent w.
Proof.
  unfold close_all. induction l as [|f l IH]; intro w; simpl; [reflexivity|].
  rewrite IH. apply close_persistent.
Qed.

Lemma seek0_persistent s w : persistent (seek0 s w) = persistent w.
Proof. destruct s; reflexivity. Qed.

Lemma persistent_eq w1 w2 :
  persistent w1 = persistent w2 ->
  history_manager w1 = history_manager w2 /\ appended w1 = appended w2.
Proof. unfold persistent. intro H. now inversion H. Qed.

Section Session.
Context {E : Env} {B : OsBuiltins}.
Hypothesis quiet : quiet_builtins.

Lemma parse_persistent toks w :
  persistent (fst (parse_redirections toks w)) = persistent w.
Proof.
  destruct (parse_redirections_scans toks) as (tokens1 & e & clean & o & _ & _ & Hp).
  rewrite Hp. unfold resolved.
  assert (Hopen : forall t w0, persistent (fst (open_target t w0)) = persistent w0).
  { intros [[p m]|] w0; simpl; [|reflexivity].
    unfold open. destruct (open_fails p m); reflexivity. }
  pose proof (Hopen e w) as H1.
  destruct (open_target e w) as [wa [fe|msg]]; cbn [fst] in *.
  - pose proof (Hopen o wa) as H2.
    destruct (open_target o wa) as [wb [fo|msg]]; cbn [fst] in *.
    + congruence.
    + rewrite print_error_persistent. congruence.
  - now rewrite print_error_persistent.
Qed.

(** A built-in leaves the history and the files alone, unless it is [exit],
    which raises [SystemExit]. *)
Lemma execute_persistent name args w :
  persistent (fst (execute name args w)) = persistent w
  \/ snd (execute name args w) = Some (SystemExit 0).
Proof.
  destruct (String.eqb name "exit") eqn:Eexit.
  - right. apply String.eqb_eq in Eexit. subst. apply execute_exit.
  - left. unfold execute, registry. cbn [lookup]. rewrite Eexit.
    assert (Hgen : forall f : builtin,
              (forall a i hm, e_history (f a i hm) = hm /\ e_appended (f a i hm) = []) ->
              persistent
                (fst (let input := readable (sys_stdin w) w in
                      let eff := f args input (history_manager w) in
                      let w0 := log_call (BuiltinCall name args (sys_stdin w) (sys_stdout w)
                                            (sys_stderr w) input (e_writes eff)) w in
                      let w1 := perform (e_writes eff) w0 in
                      let w2 := set_appended (appended w1 ++ e_appended eff) w1 in
                      (set_history (e_history eff) w2, e_raised eff)))
              = persistent w).
    { intros f Hf. cbn zeta. cbn [fst].
      destruct (Hf args (readable (sys_stdin w) w) (history_manager w)) as [Hh Ha].
      unfold persistent. cbn [history_manager appended set_history set_appended].
      rewrite Hh, Ha, app_nil_r.
      match goal with |- context [perform ?ws ?w0] =>
        pose proof (perform_persistent ws w0) as Hp end.
      unfold persistent in Hp. inversion Hp as [[H1 H2]]. now rewrite H2. }
    assert (Hecho : forall a i hm, e_history (cmd_echo a i hm) = hm
                                   /\ e_appended (cmd_echo a i hm) = []).
    { intros. split; reflexivity. }
    assert (Htype : forall a i hm, e_history (cmd_type a i hm) = hm
                                   /\ e_appended (cmd_type a i hm) = []).
    { intros. split; reflexivity. }
    repeat match goal with
           | |- context [String.eqb name ?k] =>
               destruct (String.eqb name k);
               [first [apply (Hgen _ Hecho) | apply (Hgen _ Htype)
                      | apply (Hgen _ (quiet _))]|]
           end.
    reflexivity.
Qed.

Lemma run_single_command_persistent tokens w :
  persistent (fst (run_single_command tokens w)) = persistent w
  \/ snd (run_single_command tokens w) = Some (SystemExit 0).
Proof.
  unfold run_single_command.
  destruct (nonempty tokens); cbn [negb]; [|now left].
  pose proof (parse_persistent tokens w) as Hp.
  destruct (parse_redirections tokens w) as [w1 [r|]]; cbn [fst] in Hp; [|now left].
  destruct (clean_tokens r) as [|cmd args]; [now left|].
  destruct (is_builtin cmd).
  - match goal with |- context [execute cmd args ?w0] =>
      pose proof (execute_persistent cmd args w0) as He;
      assert (H0 : persistent w0 = persistent w)
        by (rewrite <- Hp; destruct (stderr_dest r), (stdout_dest r); reflexivity);
      destruct (execute cmd args w0) as [wD e] end.
    cbn [fst snd] in He. destruct He as [He | ->]; [|now right].
    left. destruct e as [[msg|code|]|]; cbn [fst];
      rewrite ?close_opt_persistent; unfold persistent in *;
      cbn [history_manager appended set_stderr set_stdout];
      try (pose proof (print_error_persistent ("Error: " ++ msg) wD) as Hq;
           unfold persistent in Hq; rewrite Hq);
      congruence.
  - left. destruct (find_executable cmd) as [exe|]; [destruct (truthy exe)|];
      cbn [fst]; rewrite !close_opt_persistent, ?print_error_persistent; try exact Hp.
    unfold subprocess_run. destruct (popen_fails _ exe);
      [now rewrite print_error_persistent | exact Hp].
Qed.

Lemma stage_persistent n i toks ps w :
  persistent (fst (fst (stage n i toks ps w))) = persistent w
  \/ snd (stage n i toks ps w) = Raise (SystemExit 0).
Proof.
  unfold stage.
  pose proof (parse_persistent toks w) as Hp.
  destruct (parse_redirections toks w) as [w1 [r|]]; cbn [fst] in Hp; [|now left].
  destruct (clean_tokens r) as [|cmd args]; [now left|].
  destruct (is_builtin cmd).
  - assert (Hgen : forall wC, persistent wC = persistent w ->
              forall wD e, execute cmd args wC = (wD, e) ->
              persistent wD = persistent w \/ e = Some (SystemExit 0)).
    { intros wC HC wD e Hx. pose proof (execute_persistent cmd args wC) as He.
      rewrite Hx in He. cbn [fst snd] in He. destruct He as [He | He]; [left | now right].
      congruence. }
    destruct (negb (i =? n - 1)%nat).
    + unfold TemporaryFile. destruct (tempfile_fails _) as [refused|];
        [left; cbn [fst]; rewrite <- Hp; destruct (prev_stdin ps); reflexivity|].
      cbv beta iota.
      match goal with |- context [execute cmd args ?w0] =>
        assert (H0 : persistent w0 = persistent w)
          by (rewrite <- Hp; destruct (prev_stdin ps); reflexivity);
        destruct (execute cmd args w0) as [wD e] eqn:Hx end.
      destruct (Hgen _ H0 _ _ Hx) as [He | ->]; [|now right].
      left. destruct e as [[msg|code|]|]; cbn [fst];
        rewrite ?seek0_persistent; unfold persistent in *;
        cbn [history_manager appended set_stdin set_stdout];
        try (pose proof (print_error_persistent ("Pipeline error: " ++ msg) wD) as Hq;
             unfold persistent in Hq; rewrite Hq);
        congruence.
    + match goal with |- context [execute cmd args ?w0] =>
        assert (H0 : persistent w0 = persistent w)
          by (rewrite <- Hp; destruct (prev_stdin ps), (stdout_dest r); reflexivity);
        destruct (execute cmd args w0) as [wD e] eqn:Hx end.
      destruct (Hgen _ H0 _ _ Hx) as [He | ->]; [|now right].
      left. destruct e as [[msg|code|]|]; cbn [fst];
        unfold persistent in *;
        cbn [history_manager appended set_stdin set_stdout];
        try (pose proof (print_error_persistent ("Pipeline error: " ++ msg) wD) as Hq;
             unfold persistent in Hq; rewrite Hq);
        congruence.
  - left. destruct (find_executable cmd) as [exe|];
      [|cbn [fst]; now rewrite print_error_persistent].
    destruct (negb (truthy exe)); [cbn [fst]; now rewrite print_error_persistent|].
    destruct (popen_fails _ exe); [cbn [fst]; now rewrite print_error_persistent|].
    destruct (negb (i =? n - 1)%nat); exact Hp.
Qed.

Lemma stages_persistent commands : forall n i ps w,
  persistent (fst (fst (stages n i commands ps w))) = persistent w
  \/ snd (stages n i commands ps w) = Some (SystemExit 0).
Proof.
  induction commands as [|c rest IH]; intros n i ps w; simpl; [now left|].
  pose proof (stage_persistent n i c ps w) as Hs.
  destruct (stage n i c ps w) as [[w1 ps1] fl]. cbn [fst snd] in Hs.
  destruct fl.
  - destruct Hs as [Hs | Hs]; [|discriminate].
    destruct (IH n (S i) ps1 w1) as [H | H]; [left; congruence | now right].
  - destruct Hs as [Hs | Hs]; [now left | discriminate].
  - destruct Hs as [Hs | Hs]; [now left|]. inversion Hs; subst. now right.
Qed.

Lemma process_line_persistent line w :
  persistent (fst (process_line line w)) = persistent w
  \/ snd (process_line line w) = Some (SystemExit 0).
Proof.
  unfold process_line.
  destruct (negb (truthy (strip line))); [now left|].
  assert (Hpipe : forall commands,
            persistent (fst (run_pipeline commands w)) = persistent w
            \/ snd (run_pipeline commands w) = Some (SystemExit 0)).
  { intro commands. unfold run_pipeline.
    destruct (nonempty commands); cbn [negb]; [|now left].
    pose proof (stages_persistent commands (List.length commands) 0
                  {| prev_stdin := None; to_close := [] |} w) as Hs.
    destruct (stages _ _ _ _ _) as [[w1 ps1] [e|]]; cbn [fst snd] in *.
    - exact Hs.
    - destruct Hs as [Hs | Hs]; [|discriminate].
      left. now rewrite close_all_persistent. }
  destruct (split_pipeline (tokenize (strip line))) as [[|c cs]|];
    [apply run_single_command_persistent | apply Hpipe | apply run_single_command_persistent].
Qed.


End Session.

